(** * Information-flow metrics analyzer (information-flow-metrics.js)

    A shallow embedding of the [InformationFlowAnalyzer] class: the walk over
    the esprima syntax tree ([analyzeAST], [extractCalls], [getCalleeName]),
    the aggregation pass ([calculateFanInFanOut]) and the derived metrics
    ([calculateCoupling], [calculateCohesion],
    [calculateInformationFlowComplexity]); and of the functions around it:
    the search for source files ([findJSFiles]), the rows and counts of the
    report ([generateReport]) and the main program.

    Conventions of the embedding.
    - A syntax tree is a JavaScript value ([jsval]): objects keep their
      properties in [for ... in] order, arrays their items.  The trees are
      those esprima builds: a [name] property, where present, holds a string,
      [loc.start.line] a number, and the [arguments] and [params] of a node
      are arrays.  Reading a property that is absent gives [VUndef].
    - A JavaScript [Map] is an association list in insertion order, a [Set]
      a duplicate-free list in insertion order.
    - The [funcInfo] objects are shared between [fileInfo.functions] and
      [this.functions]; they live in a heap and both tables hold addresses.
    - [node.parent], which [traverse] writes before it visits a child, is
      carried as the list of ancestor frames of the node being visited.
    - Fan-in, fan-out and the complexity are natural numbers.  The cohesion
      quotient is taken in the rationals, which orders it against 0.7 and
      0.3 as the floating-point quotient is ordered for any module of
      fewer than a million functions.  The two project averages are the
      IEEE 754 doubles the division gives ([double]). *)

From Stdlib Require Import List String Ascii Bool Arith ZArith QArith Lia.
From Stdlib Require Import DecimalString.
From Stdlib Require DecimalZ.
From Stdlib Require Import Permutation Sorted.
From Stdlib Require SpecFloat.
Import ListNotations.
Close Scope Q_scope.
Open Scope list_scope.
Open Scope string_scope.

Set Implicit Arguments.

(** ** JavaScript values *)

Unset Elimination Schemes.
Inductive jsval : Type :=
| VUndef
| VNull
| VBool (b : bool)
| VNum (n : Z)
| VStr (s : string)
| VArr (items : list jsval)
| VObj (props : list (string * jsval)).
Set Elimination Schemes.

Section JsvalInd.
Variable P : jsval -> Prop.
Hypothesis Hundef : P VUndef.
Hypothesis Hnull : P VNull.
Hypothesis Hbool : forall b, P (VBool b).
Hypothesis Hnum : forall n, P (VNum n).
Hypothesis Hstr : forall s, P (VStr s).
Hypothesis Harr : forall items, Forall P items -> P (VArr items).
Hypothesis Hobj : forall props, Forall (fun kv => P (snd kv)) props -> P (VObj props).

Fixpoint jsval_nested_ind (v : jsval) : P v :=
  match v with
  | VUndef => Hundef
  | VNull => Hnull
  | VBool b => Hbool b
  | VNum n => Hnum n
  | VStr s => Hstr s
  | VArr items =>
      Harr ((fix all (l : list jsval) : Forall P l :=
               match l with
               | [] => Forall_nil _
               | x :: r => Forall_cons x (jsval_nested_ind x) (all r)
               end) items)
  | VObj props =>
      Hobj ((fix all (l : list (string * jsval)) : Forall (fun kv => P (snd kv)) l :=
               match l with
               | [] => Forall_nil _
               | kv :: r => Forall_cons kv (jsval_nested_ind (snd kv)) (all r)
               end) props)
  end.
End JsvalInd.

(** [node[k]] *)
Fixpoint lookup (k : string) (ps : list (string * jsval)) : jsval :=
  match ps with
  | [] => VUndef
  | (k', v) :: r => if String.eqb k k' then v else lookup k r
  end.

Definition get (k : string) (v : jsval) : jsval :=
  match v with
  | VObj ps => lookup k ps
  | _ => VUndef
  end.

(** JavaScript truthiness, as tested by [x ? a : b], [x && y] and [x || y]. *)
Definition truthy (v : jsval) : bool :=
  match v with
  | VUndef | VNull => false
  | VBool b => b
  | VNum n => negb (Z.eqb n 0)
  | VStr s => negb (String.eqb s "")
  | VArr _ | VObj _ => true
  end.

(** [x && typeof x === 'object'] *)
Definition isObject (v : jsval) : bool :=
  match v with
  | VArr _ | VObj _ => true
  | _ => false
  end.

(** [node.type === t] *)
Definition type_is (v : jsval) (t : string) : bool :=
  match get "type" v with
  | VStr s => String.eqb s t
  | _ => false
  end.

(** [node.name], a string or undefined. *)
Definition nameOf (v : jsval) : option string :=
  match get "name" v with
  | VStr s => Some s
  | _ => None
  end.

(** A name inside a template literal: [`${x.name}`]. *)
Definition tmplName (v : jsval) : string :=
  match nameOf v with
  | Some s => s
  | None => "undefined"
  end.

Definition arrItems (v : jsval) : list jsval :=
  match v with
  | VArr xs => xs
  | _ => []
  end.

(** [node.loc ? node.loc.start.line : 0] *)
Definition lineOf (node : jsval) : Z :=
  if truthy (get "loc" node) then
    match get "line" (get "start" (get "loc" node)) with
    | VNum n => n
    | _ => 0%Z
    end
  else 0%Z.

(** ** Strings *)

Definition string_of_nat (n : nat) : string :=
  NilZero.string_of_uint (Nat.to_uint n).

Definition string_of_Z (z : Z) : string :=
  NilZero.string_of_int (Z.to_int z).

(** [s.includes(sub)] *)
Fixpoint includes (s sub : string) : bool :=
  if String.prefix sub s then true
  else match s with
       | EmptyString => false
       | String _ r => includes r sub
       end.

(** [s.split('.')] *)
Fixpoint splitDotAux (acc : string) (s : string) : list string :=
  match s with
  | EmptyString => [acc]
  | String c r =>
      if Ascii.eqb c "."%char then acc :: splitDotAux "" r
      else splitDotAux (acc ++ String c "") r
  end.

Definition splitDot (s : string) : list string := splitDotAux "" s.

(** [arr.includes(x)] on an array of strings *)
Definition mem (x : string) (l : list string) : bool :=
  existsb (String.eqb x) l.

(** ** Records *)

Module Func.
(** The [funcInfo] object of [analyzeAST]. *)
Record t := mk {
  name : string;
  file : string;
  module : string;
  params : list string;
  calls : list string;
  fanIn : nat;
  fanOut : nat;
  line : Z;
  type : string
}.

Definition setCalls (f : t) (cs : list string) (fo : nat) : t :=
  mk (name f) (file f) (module f) (params f) cs (fanIn f) fo (line f) (type f).

Definition setFanIn (f : t) (n : nat) : t :=
  mk (name f) (file f) (module f) (params f) (calls f) n (fanOut f) (line f) (type f).
End Func.

(** ** The call extractor *)

Definition isFunctionNode (n : jsval) : bool :=
  type_is n "FunctionDeclaration" || type_is n "FunctionExpression"
  || type_is n "ArrowFunctionExpression".

Definition skipKey (k : string) : bool :=
  String.eqb k "parent" || String.eqb k "leadingComments"
  || String.eqb k "trailingComments".

Definition builtins : list string :=
  ["console"; "require"; "setTimeout"; "setInterval"; "clearTimeout";
   "clearInterval"; "Math"; "Array"; "Set"; "Map"; "Object"; "parseInt";
   "parseFloat"; "isNaN"; "isFinite"].

(** [getCalleeName(node)]; [None] stands for both [null] and [undefined]. *)
Definition getCalleeName (node : jsval) : option string :=
  if type_is node "CallExpression" then
    let callee := get "callee" node in
    if type_is callee "Identifier" then nameOf callee
    else if type_is callee "MemberExpression" then
      let object := get "object" callee in
      let property := get "property" callee in
      if truthy object && truthy property then
        if type_is object "Identifier"
        then Some (tmplName object ++ "." ++ tmplName property)
        else nameOf property
      else if truthy property then nameOf property else None
    else None
  else if type_is node "MemberExpression" then
    let property := get "property" node in
    let object := get "object" node in
    if truthy property then
      if truthy object && type_is object "Identifier"
      then Some (tmplName object ++ "." ++ tmplName property)
      else nameOf property
    else None
  else None.

(** The body of [if (node.type === 'CallExpression') { ... }] in
    [extractCalls]. *)
Definition recordCall (node : jsval) (fi : Func.t) : Func.t :=
  let callee := get "callee" node in
  if type_is callee "Identifier" then
    match nameOf callee with
    | Some funcName =>
        if negb (mem funcName builtins) && negb (mem funcName (Func.calls fi))
        then Func.setCalls fi (Func.calls fi ++ [funcName])%list (S (Func.fanOut fi))
        else fi
    | None => fi
    end
  else if type_is callee "MemberExpression" then
    match getCalleeName node with
    | Some calleeName =>
        if negb (String.eqb calleeName "") && negb (mem calleeName (Func.calls fi))
        then Func.setCalls fi (Func.calls fi ++ [calleeName])%list (Func.fanOut fi)
        else fi
    | None => fi
    end
  else fi.

(** What [extractCalls] does at [node] before it looks at the children. *)
Definition extractHere (node : jsval) (fi : Func.t) : Func.t :=
  if type_is node "CallExpression" then recordCall node fi else fi.

(** The loop [for (const key in node) { ... }] shared by [extractCalls] and
    [traverse]: an array-valued property hands each item that is an object
    to [f], an object-valued property is handed over itself; [f] also learns
    under which key, and at which index of an array, the child sits. *)
Fixpoint forEachI (S : Type) (f : nat -> jsval -> S -> S) (i : nat)
    (l : list jsval) (s : S) : S :=
  match l with
  | [] => s
  | x :: r => forEachI f (Datatypes.S i) r (f i x s)
  end.

Definition forChild (S : Type) (f : string -> option nat -> jsval -> S -> S)
    (k : string) (child : jsval) (s : S) : S :=
  match child with
  | VArr its =>
      forEachI (fun i it s => if isObject it then f k (Some i) it s else s) 0 its s
  | VObj _ => f k None child s
  | _ => s
  end.

Definition forIn (S : Type) (f : string -> option nat -> jsval -> S -> S)
    (node : jsval) (s : S) : S :=
  match node with
  | VObj ps =>
      fold_left
        (fun s kv => if skipKey (fst kv) then s else forChild f (fst kv) (snd kv) s)
        ps s
  | VArr xs =>
      forEachI (fun i child s => forChild f (string_of_nat i) child s) 0 xs s
  | _ => s
  end.

Fixpoint extractCalls (node : jsval) (fi : Func.t) {struct node} : Func.t :=
  if isFunctionNode node then fi
  else
    forIn (fun _ _ child fi =>
             if negb (isFunctionNode child) then extractCalls child fi else fi)
          node (extractHere node fi).

(** ** The analyzer state *)

Module CallRec.
(** An entry of [this.calls]. *)
Record t := mk { from : string; to : string; line : Z }.
End CallRec.

Module File.
(** An entry of [fileInfo.calls]. *)
Record call := mkCall { cname : string; cline : Z; ctype : string }.

Record importInfo := mkImport {
  source : jsval;
  specifiers : list (option string);
  imported : list (option string)
}.

Record exportInfo := mkExport {
  etype : string;
  exported : option string;
  eline : Z
}.

(** The [fileInfo] object of [analyzeFile]; [functions] holds heap
    addresses of [funcInfo] objects. *)
Record t := mk {
  path : string;
  name : string;
  fullPath : string;
  functions : list nat;
  calls : list call;
  imports : list importInfo;
  exports : list exportInfo;
  fanIn : nat;
  fanOut : nat;
  cohesion : Q
}.

Definition pushFunction (f : t) (r : nat) : t :=
  mk (path f) (name f) (fullPath f) (functions f ++ [r])%list (calls f)
     (imports f) (exports f) (fanIn f) (fanOut f) (cohesion f).

Definition pushCall (f : t) (c : call) : t :=
  mk (path f) (name f) (fullPath f) (functions f) (calls f ++ [c])%list
     (imports f) (exports f) (fanIn f) (fanOut f) (cohesion f).

Definition pushImport (f : t) (i : importInfo) : t :=
  mk (path f) (name f) (fullPath f) (functions f) (calls f)
     (imports f ++ [i])%list (exports f) (fanIn f) (fanOut f) (cohesion f).

Definition pushExport (f : t) (e : exportInfo) : t :=
  mk (path f) (name f) (fullPath f) (functions f) (calls f)
     (imports f) (exports f ++ [e])%list (fanIn f) (fanOut f) (cohesion f).

Definition setFan (f : t) (fi fo : nat) : t :=
  mk (path f) (name f) (fullPath f) (functions f) (calls f)
     (imports f) (exports f) fi fo (cohesion f).

Definition setCohesion (f : t) (c : Q) : t :=
  mk (path f) (name f) (fullPath f) (functions f) (calls f)
     (imports f) (exports f) (fanIn f) (fanOut f) c.
End File.

(** A [Map] with string keys, in insertion order. *)
Section StringMap.
Variable V : Type.

Fixpoint mapGet (k : string) (m : list (string * V)) : option V :=
  match m with
  | [] => None
  | (k', v) :: r => if String.eqb k k' then Some v else mapGet k r
  end.

Definition mapHas (k : string) (m : list (string * V)) : bool :=
  match mapGet k m with Some _ => true | None => false end.

(** [m.set(k, v)]: an existing key keeps its place. *)
Fixpoint mapSet (k : string) (v : V) (m : list (string * V)) : list (string * V) :=
  match m with
  | [] => [(k, v)]
  | (k', v') :: r =>
      if String.eqb k k' then (k', v) :: r else (k', v') :: mapSet k v r
  end.
End StringMap.

(** The fields of [InformationFlowAnalyzer] that its methods use
    ([this.imports] and [this.exports] are created and never touched), and
    the heap of [funcInfo] objects. *)
Record analyzer := mkAnalyzer {
  modules : list (string * File.t);
  functions : list (string * nat);
  calls : list CallRec.t;
  heap : list Func.t
}.

Definition newAnalyzer : analyzer := mkAnalyzer [] [] [] [].

Definition dummyFunc : Func.t := Func.mk "" "" "" [] [] 0 0 0 "".

(** The object at address [r]. *)
Definition deref (h : list Func.t) (r : nat) : Func.t := nth r h dummyFunc.

Fixpoint update (h : list Func.t) (r : nat) (f : Func.t) : list Func.t :=
  match h, r with
  | [], _ => []
  | _ :: t, O => f :: t
  | x :: t, S r' => x :: update t r' f
  end.

(** ** The function identity resolver *)

(** One step of the parent chain: the node sits at [fparent[fkey]], or at
    [fparent[fkey][i]] when [findex = Some i]. *)
Record frame := mkFrame {
  fparent : jsval;
  fkey : string;
  findex : option nat
}.

(** The name the resolver settles on: a name read off the context, or the
    next [`anonymous_${functionCounter++}`]. *)
Inductive resolved :=
| Named (s : string)
| Counter.

(** [arg.type === 'Literal' && typeof arg.value === 'string'] *)
Definition isStringLiteral (arg : jsval) : bool :=
  type_is arg "Literal" &&
  match get "value" arg with VStr _ => true | _ => false end.

Definition stringValue (arg : jsval) : string :=
  match get "value" arg with VStr s => s | _ => "undefined" end.

(** [parent.arguments.includes(node)]: the syntax tree shares no function
    node, so the test holds exactly when [node] is an item of the
    [arguments] array of its direct parent. *)
Definition argumentsInclude (direct : bool) (fr : frame) : bool :=
  direct && String.eqb (fkey fr) "arguments" &&
  match findex fr with Some _ => true | None => false end.

(** The block guarded by [callee && callee.type === 'MemberExpression']. *)
Definition callbackName (parent : jsval) : option string :=
  let callee := get "callee" parent in
  if truthy callee && type_is callee "MemberExpression" then
    let methodName :=
      if truthy (get "property" callee) then nameOf (get "property" callee) else None in
    let objectName :=
      if truthy (get "object" callee) then nameOf (get "object" callee) else None in
    let eventArg := find isStringLiteral (arrItems (get "arguments" parent)) in
    match methodName, objectName with
    | Some m, Some o =>
        if negb (String.eqb m "") && negb (String.eqb o "") then
          match eventArg with
          | Some ev => Some (o ++ "." ++ m ++ "_" ++ stringValue ev)
          | None => Some (o ++ "." ++ m ++ "_handler")
          end
        else None
    | _, _ => None
    end
  else None.

(** [x.name || `anonymous_${functionCounter++}`] *)
Definition nameOrCounter (x : jsval) : resolved :=
  match nameOf x with
  | Some s => if String.eqb s "" then Counter else Named s
  | None => Counter
  end.

(** The loop [while (parent && !foundName)]. *)
Fixpoint walkParents (direct : bool) (anc : list frame) : resolved :=
  match anc with
  | [] => Counter
  | fr :: up =>
      let parent := fparent fr in
      match
        (if type_is parent "CallExpression" && truthy (get "arguments" parent)
            && argumentsInclude direct fr
         then callbackName parent else None)
      with
      | Some n => Named n
      | None =>
          if type_is parent "VariableDeclarator" && truthy (get "id" parent)
          then nameOrCounter (get "id" parent)
          else if type_is parent "Property" && truthy (get "key" parent)
          then nameOrCounter (get "key" parent)
          else walkParents false up
      end
  end.

Definition anonymousName (counter : nat) : string :=
  "anonymous_" ++ string_of_nat counter.

(** The name and the counter after it. *)
Definition useResolved (r : resolved) (counter : nat) : string * nat :=
  match r with
  | Named s => (s, counter)
  | Counter => (anonymousName counter, S counter)
  end.

(** The name given to a function node. *)
Definition resolveName (node : jsval) (anc : list frame) (counter : nat)
  : string * nat :=
  if type_is node "FunctionDeclaration" then
    if truthy (get "id" node) then (tmplName (get "id" node), counter)
    else (anonymousName counter, S counter)
  else useResolved (walkParents true anc) counter.

Definition paramName (declaration : bool) (p : jsval) : string :=
  if type_is p "Identifier" then tmplName p
  else if declaration then "unnamed"
  else if type_is p "ObjectPattern" then "object"
  else if type_is p "ArrayPattern" then "array"
  else "unnamed".

Definition paramNames (declaration : bool) (node : jsval) : list string :=
  if truthy (get "params" node)
  then map (paramName declaration) (arrItems (get "params" node))
  else [].

(** ** The walk over the syntax tree *)

(** What the closure [traverse] of [analyzeAST] reads and writes: the
    [fileInfo] under construction, the analyzer and [functionCounter]. *)
Record tstate := mkT {
  fileInfo : File.t;
  an : analyzer;
  functionCounter : nat
}.

(** The [funcInfo] literal built for a function node, before its body is
    scanned, and the counter after the name was chosen. *)
Definition newFuncInfo (node : jsval) (anc : list frame) (st : tstate)
  : option (Func.t * nat) :=
  if isFunctionNode node then
    let '(funcName, counter) := resolveName node anc (functionCounter st) in
    Some (Func.mk funcName (File.path (fileInfo st)) (File.name (fileInfo st))
            (paramNames (type_is node "FunctionDeclaration") node)
            [] 0 0 (lineOf node)
            (if type_is node "ArrowFunctionExpression" then "arrow" else "function"),
          counter)
  else None.

Definition functionKey (path funcName : string) (line : Z) : string :=
  path ++ "::" ++ funcName ++ "_" ++ string_of_Z line.

(** The block [if (funcInfo) { ... }]: scan the body, then record the
    function unless one of the same name and line is already in the file. *)
Definition registerFunction (node : jsval) (funcInfo : Func.t) (counter : nat)
    (st : tstate) : tstate :=
  let funcInfo :=
    if truthy (get "body" node) then extractCalls (get "body" node) funcInfo
    else funcInfo in
  let h := heap (an st) in
  let existingFunc :=
    existsb (fun r => String.eqb (Func.name (deref h r)) (Func.name funcInfo)
                      && Z.eqb (Func.line (deref h r)) (Func.line funcInfo))
            (File.functions (fileInfo st)) in
  if existingFunc then mkT (fileInfo st) (an st) counter
  else
    let r := List.length h in
    let key := functionKey (File.path (fileInfo st)) (Func.name funcInfo)
                 (Func.line funcInfo) in
    mkT (File.pushFunction (fileInfo st) r)
        (mkAnalyzer (modules (an st))
           (if mapHas key (functions (an st)) then functions (an st)
            else mapSet key r (functions (an st)))
           (calls (an st))
           (h ++ [funcInfo])%list)
        counter.

Definition recordImport (node : jsval) (st : tstate) : tstate :=
  if type_is node "ImportDeclaration" then
    let specs := if truthy (get "specifiers" node)
                 then arrItems (get "specifiers" node) else [] in
    let importInfo :=
      File.mkImport
        (if truthy (get "source" node) then get "value" (get "source" node) else VStr "")
        (map (fun s => if truthy (get "local" s)
                       then nameOf (get "local" s) else Some "") specs)
        (map (fun s => if truthy (get "imported" s)
                       then nameOf (get "imported" s) else Some "") specs) in
    mkT (File.pushImport (fileInfo st) importInfo) (an st) (functionCounter st)
  else st.

Definition recordExport (node : jsval) (st : tstate) : tstate :=
  if type_is node "ExportNamedDeclaration" || type_is node "ExportDefaultDeclaration" then
    let exportInfo :=
      File.mkExport
        (if type_is node "ExportNamedDeclaration"
         then "ExportNamedDeclaration" else "ExportDefaultDeclaration")
        (if truthy (get "declaration" node)
         then nameOf (get "declaration" node) else Some "default")
        (lineOf node) in
    mkT (File.pushExport (fileInfo st) exportInfo) (an st) (functionCounter st)
  else st.

(** [calleeName && calleeName !== 'require' && calleeName !== 'console'] *)
Definition recordable (calleeName : option string) : bool :=
  match calleeName with
  | Some s => negb (String.eqb s "") && negb (String.eqb s "require")
              && negb (String.eqb s "console")
  | None => false
  end.

Definition isCallOrMember (node : jsval) : bool :=
  type_is node "CallExpression" || type_is node "MemberExpression".

Definition nodeType (node : jsval) : string :=
  match get "type" node with VStr s => s | _ => "undefined" end.

(** The block [if (!funcInfo && (node.type === 'CallExpression' || ...))]. *)
Definition recordFileCall (node : jsval) (st : tstate) : tstate :=
  if negb (isFunctionNode node) && isCallOrMember node then
    match getCalleeName node with
    | Some calleeName =>
        if recordable (Some calleeName) then
          mkT (File.pushCall (fileInfo st)
                 (File.mkCall calleeName (lineOf node) (nodeType node)))
              (mkAnalyzer (modules (an st)) (functions (an st))
                 (calls (an st)
                  ++ [CallRec.mk (File.path (fileInfo st)) calleeName (lineOf node)])%list
                 (heap (an st)))
              (functionCounter st)
        else st
    | None => st
    end
  else st.

(** Everything [traverse] does at [node] before it descends. *)
Definition visit (node : jsval) (anc : list frame) (st : tstate) : tstate :=
  let st :=
    match newFuncInfo node anc st with
    | Some (funcInfo, counter) => registerFunction node funcInfo counter st
    | None => st
    end in
  recordFileCall node (recordExport node (recordImport node st)).

(** [traverse(node)].  The arguments [parentName] and [depth] of the source
    are never read and are left out.  A function node has its [parent]
    overwritten by its [funcInfo], which has no [parent] of its own: below a
    function node the parent chain stops at that node. *)
Fixpoint traverse (node : jsval) (anc : list frame) (st : tstate) {struct node}
  : tstate :=
  forIn (fun k i child st =>
           traverse child
             (mkFrame node k i :: (if isFunctionNode node then [] else anc)) st)
        node (visit node anc st).

Definition newFileInfo (filePath moduleName : string) : File.t :=
  File.mk filePath moduleName filePath [] [] [] [] 0 0 0%Q.

(** [analyzeAST(ast, fileInfo)], returning the [fileInfo] and the analyzer. *)
Definition analyzeAST (ast : jsval) (fi : File.t) (a : analyzer) : File.t * analyzer :=
  let st := traverse ast [] (mkT fi a 0) in
  (fileInfo st, an st).

(** [analyzeFile(filePath)].  [moduleName] is
    [path.basename(filePath, path.extname(filePath))]; [parsed] is the tree
    [esprima.parseScript] returns for the content of the file, or [None]
    when reading or parsing throws, which the [catch] block swallows. *)
Definition analyzeFile (a : analyzer) (filePath moduleName : string)
    (parsed : option jsval) : analyzer :=
  match parsed with
  | Some ast =>
      let '(fi, a') := analyzeAST ast (newFileInfo filePath moduleName) a in
      mkAnalyzer (mapSet filePath fi (modules a')) (functions a') (calls a') (heap a')
  | None => a
  end.

(** ** The call graph aggregator *)

(** [Set.add] and [new Set(array)] on strings. *)
Definition setAdd (x : string) (s : list string) : list string :=
  if mem x s then s else (s ++ [x])%list.

Definition toSet (l : list string) : list string :=
  fold_left (fun s x => setAdd x s) l [].

(** A [Map] keyed by [funcInfo] objects, that is by heap addresses. *)
Fixpoint objGet (V : Type) (r : nat) (m : list (nat * V)) : option V :=
  match m with
  | [] => None
  | (r', v) :: t => if Nat.eqb r r' then Some v else objGet r t
  end.

Fixpoint objSet (V : Type) (r : nat) (v : V) (m : list (nat * V)) : list (nat * V) :=
  match m with
  | [] => [(r, v)]
  | (r', v') :: t =>
      if Nat.eqb r r' then (r', v) :: t else (r', v') :: objSet r v t
  end.

(** A loop whose body may throw. *)
Fixpoint foldM (A S : Type) (f : A -> S -> option S) (l : list A) (s : S)
  : option S :=
  match l with
  | [] => Some s
  | x :: r => match f x s with
              | Some s' => foldM f r s'
              | None => None
              end
  end.

(** The heap and [fanInMap] while the callers are counted. *)
Definition fstate : Type := list Func.t * list (nat * list string).

(** The five lines from [const callers = fanInMap.get(func2)] on;
    [callers.has] throws a [TypeError] when [func2] has no entry. *)
Definition addCaller (func2 : nat) (callerKey : string) (s : fstate)
  : option fstate :=
  match objGet func2 (snd s) with
  | None => None
  | Some callers =>
      if mem callerKey callers then Some s
      else
        let callers := (callers ++ [callerKey])%list in
        Some (update (fst s) func2
                (Func.setFanIn (deref (fst s) func2) (List.length callers)),
              objSet func2 callers (snd s))
  end.

(** [`${func.name}_${func.line}`] *)
Definition nameLineKey (f : Func.t) : string :=
  Func.name f ++ "_" ++ string_of_Z (Func.line f).

(** [module.functions.filter(...)] with the [functionKeys] set it fills. *)
Fixpoint uniqueFunctions (h : list Func.t) (functionKeys : list string)
    (l : list nat) : list nat :=
  match l with
  | [] => []
  | r :: t =>
      let key := nameLineKey (deref h r) in
      if mem key functionKeys then uniqueFunctions h functionKeys t
      else r :: uniqueFunctions h (functionKeys ++ [key])%list t
  end.

(** [func1.calls.filter(call => call === func2.name).length] *)
Definition callCount (f1 f2 : Func.t) : nat :=
  List.length (filter (fun call => String.eqb call (Func.name f2)) (Func.calls f1)).

(** The body of the inner [uniqueFunctions.forEach(func2 => ...)]. *)
Definition countIntra (func1 func2 : nat) (s : fstate) : option fstate :=
  if negb (Nat.eqb func1 func2) then
    if Nat.ltb 0 (callCount (deref (fst s) func1) (deref (fst s) func2)) then
      addCaller func2 (nameLineKey (deref (fst s) func1)) s
    else Some s
  else Some s.

Definition countModule (m : string * File.t) (s : fstate) : option fstate :=
  let unique := uniqueFunctions (fst s) [] (File.functions (snd m)) in
  foldM (fun func1 s => foldM (fun func2 s => countIntra func1 func2 s) unique s)
        unique s.

(** The body of [this.calls.forEach(call => this.functions.forEach(...))]. *)
Definition countExternal (call : CallRec.t) (func : nat) (s : fstate)
  : option fstate :=
  let f := deref (fst s) func in
  if negb (String.eqb (CallRec.from call) (Func.file f))
     && String.eqb (CallRec.to call) (Func.name f)
  then addCaller func (CallRec.from call) s
  else Some s.

(** Module-level fan-out. *)
Definition moduleFanOut (h : list Func.t) (m : File.t) : nat :=
  let moduleFunctionNames :=
    toSet (map (fun r => Func.name (deref h r)) (File.functions m)) in
  let externalCalls :=
    filter (fun c => negb (mem (File.cname c) moduleFunctionNames)
                     && negb (existsb (fun part => mem part moduleFunctionNames)
                                (splitDot (File.cname c))))
           (File.calls m) in
  let uniqueExternalCalls :=
    toSet (map (fun c =>
                  let parts := splitDot (File.cname c) in
                  if Nat.ltb 1 (List.length parts) then nth 0 parts "" else File.cname c)
               externalCalls) in
  List.length uniqueExternalCalls.

(** Module-level fan-in. *)
Definition moduleFanIn (a : analyzer) (filePath : string) (m : File.t) : nat :=
  let h := heap a in
  let fanInCount :=
    fold_left
      (fun n call =>
         if negb (String.eqb (CallRec.from call) filePath) then
           fold_left
             (fun n func =>
                let fname := Func.name (deref h func) in
                let to := CallRec.to call in
                if String.eqb to fname || includes to fname
                   || (includes to "."
                       && match nth_error (splitDot to) 1 with
                          | Some p => String.eqb p fname
                          | None => false
                          end)
                then S n else n)
             (File.functions m) n
         else n)
      (calls a) 0 in
  let internalCalls :=
    fold_left
      (fun set func1 =>
         fold_left
           (fun set func2 =>
              if negb (Nat.eqb func1 func2) then
                let n2 := Func.name (deref h func2) in
                if existsb (fun call => String.eqb call n2 || includes call n2)
                     (Func.calls (deref h func1))
                then setAdd (Func.name (deref h func1) ++ "->" ++ n2) set
                else set
              else set)
           (File.functions m) set)
      (File.functions m) [] in
  fanInCount + List.length internalCalls.

(** [calculateFanInFanOut()]; [None] when it throws. *)
Definition calculateFanInFanOut (a : analyzer) : option analyzer :=
  let funcs := map snd (functions a) in
  let h0 := fold_left (fun h func => update h func (Func.setFanIn (deref h func) 0))
              funcs (heap a) in
  let fanInMap := fold_left (fun m func => objSet func [] m) funcs [] in
  match foldM countModule (modules a) (h0, fanInMap) with
  | None => None
  | Some s =>
      match foldM (fun call s => foldM (countExternal call) funcs s) (calls a) s with
      | None => None
      | Some s =>
          let a1 := mkAnalyzer (modules a) (functions a) (calls a) (fst s) in
          Some (mkAnalyzer
                  (map (fun m => (fst m,
                                  File.setFan (snd m)
                                    (moduleFanIn a1 (fst m) (snd m))
                                    (moduleFanOut (fst s) (snd m))))
                       (modules a))
                  (functions a) (calls a) (fst s))
      end
  end.

(** ** The structural metrics *)

Module Coupling.
Record pair := mkPair {
  module1 : string;
  module2 : string;
  calls : nat;
  type : string
}.

Record t := mk {
  tightCoupling : nat;
  looseCoupling : nat;
  couplingPairs : list pair
}.
End Coupling.

Definition functionalGroups : list (string * list string) :=
  [("room-management", ["generateRoomId"; "create"; "join"]);
   ("socket-handlers", ["connection"; "create-room"; "join-room"; "draw";
                        "canvas-state"; "disconnect"]);
   ("canvas-management", ["canvas-state"; "canvasState"])].

(** The block [if (callsBetween > 0) { ... }], the same in both branches. *)
Definition pushPair (n1 n2 : string) (callsBetween : nat) (c : Coupling.t)
  : Coupling.t :=
  if Nat.ltb 0 callsBetween then
    Coupling.mk
      (if Nat.ltb 5 callsBetween then S (Coupling.tightCoupling c)
       else Coupling.tightCoupling c)
      (if Nat.ltb 5 callsBetween then Coupling.looseCoupling c
       else S (Coupling.looseCoupling c))
      (Coupling.couplingPairs c
       ++ [Coupling.mkPair n1 n2 callsBetween
             (if Nat.ltb 5 callsBetween then "tight" else "loose")])%list
  else c.

(** [callsBetween] of the single-module branch. *)
Definition groupCalls (h : list Func.t) (m : File.t) (group1 group2 : list string)
  : nat :=
  fold_left
    (fun n func =>
       let f := deref h func in
       if existsb (fun g => includes (Func.name f) g) group1 then
         fold_left
           (fun n call =>
              if existsb (fun g => includes call g) group2 then S n else n)
           (Func.calls f) n
       else n)
    (File.functions m) 0.

(** The loops [for i ... for j = i + 1 ...] over the groups. *)
Fixpoint groupPairs (h : list Func.t) (m : File.t)
    (groups : list (string * list string)) (c : Coupling.t) : Coupling.t :=
  match groups with
  | [] => c
  | g1 :: rest =>
      groupPairs h m rest
        (fold_left
           (fun c g2 => pushPair (fst g1) (fst g2)
                          (groupCalls h m (snd g1) (snd g2)) c)
           rest c)
  end.

(** [callsBetween] of the branch for several modules. *)
Definition moduleCalls (a : analyzer) (path1 path2 : string) (module1 module2 : File.t)
  : nat :=
  List.length
    (filter (fun c =>
               (String.eqb (CallRec.from c) path1
                && includes (CallRec.to c) (File.name module2))
               || (String.eqb (CallRec.from c) path2
                   && includes (CallRec.to c) (File.name module1)))
            (calls a)).

(** [calculateCoupling()] *)
Definition calculateCoupling (a : analyzer) : Coupling.t :=
  let couplingMetrics := Coupling.mk 0 0 [] in
  match map snd (modules a) with
  | [module] => groupPairs (heap a) module functionalGroups couplingMetrics
  | _ =>
      fold_left
        (fun c m1 =>
           fold_left
             (fun c m2 =>
                if String.ltb (fst m1) (fst m2) then
                  pushPair (File.name (snd m1)) (File.name (snd m2))
                    (moduleCalls a (fst m1) (fst m2) (snd m1) (snd m2)) c
                else c)
             (modules a) c)
        (modules a) couplingMetrics
  end.

Module Cohesion.
Record t := mk {
  module : string;
  cohesion : Q;
  reason : option string;
  sharedReferences : option nat;
  totalPairs : option nat;
  rating : option string
}.
End Cohesion.

(** The set [deps] of a function. *)
Definition dependencies (f : Func.t) : list string :=
  toSet (map (fun call => if includes call "." then nth 0 (splitDot call) "" else call)
             (Func.calls f)).

(** [typeof p === 'string']: every entry of [params] is one. *)
Definition isString (p : string) : bool := true.

Definition callsEachOther (f1 f2 : Func.t) : bool :=
  existsb (fun c => String.eqb c (Func.name f2) || includes c (Func.name f2))
          (Func.calls f1)
  || existsb (fun c => String.eqb c (Func.name f1) || includes c (Func.name f1))
             (Func.calls f2).

Definition sharedParams (f1 f2 : Func.t) : bool :=
  existsb (fun p => mem p (Func.params f2)) (Func.params f1)
  || existsb (fun p =>
                existsb (fun p2 => String.eqb p p2 || (isString p && isString p2))
                        (Func.params f2))
             (Func.params f1).

Definition sharedDeps (f1 f2 : Func.t) : bool :=
  existsb (fun dep => mem dep (dependencies f2)) (dependencies f1).

Definition similarData (f1 f2 : Func.t) : bool :=
  (includes (Func.name f1) "room" && includes (Func.name f2) "room")
  || (includes (Func.name f1) "canvas" && includes (Func.name f2) "canvas")
  || (includes (Func.name f1) "user" && includes (Func.name f2) "user").

(** The condition under which a pair adds to [sharedReferences]. *)
Definition cohesive (f1 f2 : Func.t) : bool :=
  callsEachOther f1 f2 || sharedParams f1 f2 || sharedDeps f1 f2
  || similarData f1 f2.

(** The loops [for i ... for j = i + 1 ...] over the functions: the pair
    [(sharedReferences, totalPossiblePairs)]. *)
Fixpoint countPairs (h : list Func.t) (l : list nat) (acc : nat * nat) : nat * nat :=
  match l with
  | [] => acc
  | func1 :: rest =>
      countPairs h rest
        (fold_left
           (fun acc func2 =>
              (if cohesive (deref h func1) (deref h func2)
               then S (fst acc) else fst acc,
               S (snd acc)))
           rest acc)
  end.

Definition Qgtb (a b : Q) : bool := negb (Qle_bool a b).

(** [cohesion > 0.7 ? 'High' : cohesion > 0.3 ? 'Medium' : 'Low'], with the
    quotient taken in the rationals. *)
Definition cohesionRating (cohesion : Q) : string :=
  if Qgtb cohesion (7 # 10) then "High"
  else if Qgtb cohesion (3 # 10) then "Medium"
  else "Low".

(** The body of [this.modules.forEach] in [calculateCohesion]: the entry
    pushed and the module after it. *)
Definition moduleCohesion (h : list Func.t) (m : File.t) : Cohesion.t * File.t :=
  match File.functions m with
  | [] =>
      (Cohesion.mk (File.name m) 1 (Some "No functions to measure") None None None, m)
  | [_] =>
      (Cohesion.mk (File.name m) 1 (Some "Single function module") None None None,
       File.setCohesion m 1)
  | fs =>
      let '(sharedReferences, totalPossiblePairs) := countPairs h fs (0, 0) in
      let cohesion :=
        if Nat.ltb 0 totalPossiblePairs
        then (Z.of_nat sharedReferences # Pos.of_nat totalPossiblePairs)%Q
        else 1%Q in
      (Cohesion.mk (File.name m) cohesion None (Some sharedReferences)
         (Some totalPossiblePairs) (Some (cohesionRating cohesion)),
       File.setCohesion m cohesion)
  end.

(** [calculateCohesion()]: the metrics returned and the analyzer after. *)
Definition calculateCohesion (a : analyzer) : list Cohesion.t * analyzer :=
  (map (fun m => fst (moduleCohesion (heap a) (snd m))) (modules a),
   mkAnalyzer
     (map (fun m => (fst m, snd (moduleCohesion (heap a) (snd m)))) (modules a))
     (functions a) (calls a) (heap a)).

Module IFC.
Record t := mk {
  function : string;
  module : string;
  fanIn : nat;
  fanOut : nat;
  informationFlowComplexity : nat;
  rating : string
}.
End IFC.

Definition ifcOf (func : Func.t) : nat :=
  if Nat.ltb 0 (Func.fanIn func) && Nat.ltb 0 (Func.fanOut func)
  then Nat.pow (Func.fanIn func * Func.fanOut func) 2
  else 0.

Definition ifcRating (func : Func.t) (ifc : nat) : string :=
  if Nat.ltb 100 ifc then "Very High"
  else if Nat.ltb 25 ifc then "High"
  else if Nat.ltb 5 ifc then "Medium"
  else if Nat.eqb (Func.fanIn func) 0 && Nat.eqb (Func.fanOut func) 0 then "None"
  else if Nat.eqb (Func.fanIn func) 0 || Nat.eqb (Func.fanOut func) 0 then "Low"
  else "Low".

(** [calculateInformationFlowComplexity()] *)
Definition calculateInformationFlowComplexity (a : analyzer) : list IFC.t :=
  map (fun kv =>
         let func := deref (heap a) (snd kv) in
         let ifc := ifcOf func in
         IFC.mk (Func.name func) (Func.module func) (Func.fanIn func)
           (Func.fanOut func) ifc (ifcRating func ifc))
      (functions a).

(** ** The main program *)

(** A file handed to the analyzer: its path, the module name derived from
    it, and the tree esprima returns for it ([None] when reading or parsing
    it throws). *)
Record sourceFile := mkSource {
  sfPath : string;
  sfModule : string;
  sfParsed : option jsval
}.

(** The one line the file loop writes: [console.log(`   * ${file}`)]. *)
Inductive consoleLine :=
| FileListed (file : string).

(** [allFiles.forEach(file => { console.log(...); analyzer.analyzeFile(file); })]:
    the analyzer after the loop and the lines written by it. *)
Definition analyzeAll (files : list sourceFile) (a : analyzer)
  : analyzer * list consoleLine :=
  fold_left
    (fun s file =>
       (analyzeFile (fst s) (sfPath file) (sfModule file) (sfParsed file),
        (snd s ++ [FileListed (sfPath file)])%list))
    files (a, []).

(** A JavaScript number is an IEEE 754 binary64 value: 53 bits of
    precision, the exponent of the infinities 1024, rounding to nearest,
    ties to even.  A count is the double of the same value (exactly so
    below 2^53). *)
Definition double : Type := SpecFloat.spec_float.

Definition double_zero : double := SpecFloat.S754_zero false.

Definition double_of_nat (n : nat) : double :=
  SpecFloat.binary_normalize 53 1024 (Z.of_nat n) 0 false.

Definition double_div (x y : double) : double := SpecFloat.SFdiv 53 1024 x y.

Module Metrics.
(** An entry of [functionMetrics]. *)
Record entry := mkEntry {
  name : string;
  module : string;
  fanIn : nat;
  fanOut : nat;
  line : Z
}.

(** The result of [calculateProjectAverages()]; the totals are absent when
    there is no function. *)
Record averages := mkAverages {
  avgFanIn : double;
  avgFanOut : double;
  totalFunctionCount : option nat;
  totalFanIn : option nat;
  totalFanOut : option nat
}.

(** The result of [generateMetrics()]. *)
Record t := mk {
  functionMetrics : list entry;
  projectAverages : averages;
  totalModules : nat;
  totalFunctions : nat
}.
End Metrics.

(** [calculateProjectAverages()]; [/] is the division of doubles. *)
Definition calculateProjectAverages (a : analyzer) : Metrics.averages :=
  let allFunctions := map (fun kv => deref (heap a) (snd kv)) (functions a) in
  match allFunctions with
  | [] => Metrics.mkAverages double_zero double_zero None None None
  | _ =>
      let totalFanIn := fold_left (fun sum f => sum + Func.fanIn f) allFunctions 0 in
      let totalFanOut := fold_left (fun sum f => sum + Func.fanOut f) allFunctions 0 in
      Metrics.mkAverages
        (double_div (double_of_nat totalFanIn)
           (double_of_nat (List.length allFunctions)))
        (double_div (double_of_nat totalFanOut)
           (double_of_nat (List.length allFunctions)))
        (Some (List.length allFunctions)) (Some totalFanIn) (Some totalFanOut)
  end.

(** [generateMetrics()]: the metrics and the analyzer after it, [None] when
    [calculateFanInFanOut] throws. *)
Definition generateMetrics (a : analyzer) : option (Metrics.t * analyzer) :=
  match calculateFanInFanOut a with
  | Some a' =>
      Some (Metrics.mk
              (map (fun kv =>
                      let func := deref (heap a') (snd kv) in
                      Metrics.mkEntry (Func.name func) (Func.module func)
                        (Func.fanIn func) (Func.fanOut func) (Func.line func))
                   (functions a'))
              (calculateProjectAverages a')
              (List.length (modules a'))
              (List.length (functions a')),
            a')
  | None => None
  end.

(** The analysis run of the main program: every file is analysed, then
    [generateMetrics] is called; the analyzer it leaves. *)
Definition analysisRun (files : list sourceFile) : option analyzer :=
  option_map snd (generateMetrics (fst (analyzeAll files newAnalyzer))).

(** ** Syntax trees of the scenarios

    The constructors list the properties in the order esprima creates
    them, [range] and [loc] last. *)
Module Ast.
Definition position (line column : Z) : jsval :=
  VObj [("line", VNum line); ("column", VNum column)].

(** Where a node stands in the source text. *)
Record span := mkSpan {
  startLine : Z;
  startColumn : Z;
  endLine : Z;
  endColumn : Z;
  startOffset : Z;
  endOffset : Z
}.

(** The span of a node on one line: [lineStart] is the offset of the first
    character of the line, [c1] and [c2] the columns the node spans. *)
Definition on (line lineStart c1 c2 : Z) : span :=
  mkSpan line c1 line c2 (lineStart + c1) (lineStart + c2).

Definition node (type : string) (fields : list (string * jsval)) (sp : span)
  : jsval :=
  VObj ((("type", VStr type) :: fields)
        ++ [("range", VArr [VNum (startOffset sp); VNum (endOffset sp)]);
            ("loc", VObj [("start", position (startLine sp) (startColumn sp));
                          ("end", position (endLine sp) (endColumn sp))])])%list.

Definition Identifier (name : string) :=
  node "Identifier" [("name", VStr name)].

Definition StringLiteral (value raw : string) :=
  node "Literal" [("value", VStr value); ("raw", VStr raw)].

Definition NumberLiteral (value : Z) (raw : string) :=
  node "Literal" [("value", VNum value); ("raw", VStr raw)].

Definition CallExpression (callee : jsval) (arguments : list jsval) :=
  node "CallExpression" [("callee", callee); ("arguments", VArr arguments)].

Definition MemberExpression (object property : jsval) :=
  node "MemberExpression"
    [("computed", VBool false); ("object", object); ("property", property)].

Definition ThisExpression := node "ThisExpression" [].

Definition ExpressionStatement (expression : jsval) :=
  node "ExpressionStatement" [("expression", expression)].

Definition ReturnStatement (argument : jsval) :=
  node "ReturnStatement" [("argument", argument)].

Definition BlockStatement (body : list jsval) :=
  node "BlockStatement" [("body", VArr body)].

Definition FunctionDeclaration (id : jsval) (params : list jsval) (body : jsval) :=
  node "FunctionDeclaration"
    [("id", id); ("params", VArr params); ("body", body);
     ("generator", VBool false); ("expression", VBool false);
     ("async", VBool false)].

Definition FunctionExpression (params : list jsval) (body : jsval) :=
  node "FunctionExpression"
    [("id", VNull); ("params", VArr params); ("body", body);
     ("generator", VBool false); ("expression", VBool false);
     ("async", VBool false)].

(** The root, spanning from offset 0 to [lastOffset] on line [lastLine]. *)
Definition Program (body : list jsval) (lastOffset lastLine lastColumn : Z) : jsval :=
  VObj [("type", VStr "Program"); ("body", VArr body);
        ("sourceType", VStr "script");
        ("range", VArr [VNum 0; VNum lastOffset]);
        ("loc", VObj [("start", position 1 0);
                      ("end", position lastLine lastColumn)]);
        ("errors", VArr [])].
End Ast.

(** The tree of the two declarations
    [function generateRoomId(){ return helper(); }] and
    [function helper(){ return 1; }], whatever the layout of the text:
    [sp] gives the span of each node, numbered in source order, and the
    last three arguments the end of the program. *)
Definition roomIdTree (sp : nat -> Ast.span) (lastOffset lastLine lastColumn : Z)
  : jsval :=
  Ast.Program
    [Ast.FunctionDeclaration (Ast.Identifier "generateRoomId" (sp 1)) []
       (Ast.BlockStatement
          [Ast.ReturnStatement
             (Ast.CallExpression (Ast.Identifier "helper" (sp 5)) [] (sp 4))
             (sp 3)]
          (sp 2))
       (sp 0);
     Ast.FunctionDeclaration (Ast.Identifier "helper" (sp 7)) []
       (Ast.BlockStatement
          [Ast.ReturnStatement (Ast.NumberLiteral 1 "1" (sp 10)) (sp 9)]
          (sp 8))
       (sp 6)]
    lastOffset lastLine lastColumn.

(** The layout with [function generateRoomId(){ return helper(); }] on
    line 1 and [function helper(){ return 1; }] on line 2. *)
Definition roomIdLayout (n : nat) : Ast.span :=
  match n with
  | 0 => Ast.on 1 0 0 45
  | 1 => Ast.on 1 0 9 23
  | 2 => Ast.on 1 0 25 45
  | 3 => Ast.on 1 0 27 43
  | 4 => Ast.on 1 0 34 42
  | 5 => Ast.on 1 0 34 40
  | 6 => Ast.on 2 46 0 30
  | 7 => Ast.on 2 46 9 15
  | 8 => Ast.on 2 46 17 30
  | 9 => Ast.on 2 46 19 28
  | _ => Ast.on 2 46 26 27
  end.

Definition roomIdProgram : jsval := roomIdTree roomIdLayout 76 2 30.

(** ** The children visited by the [for ... in] loop *)

Definition kid : Type := string * option nat * jsval.

Fixpoint itemKids (k : string) (i : nat) (its : list jsval) : list kid :=
  match its with
  | [] => []
  | it :: r =>
      ((if isObject it then [(k, Some i, it)] else []) ++ itemKids k (S i) r)%list
  end.

Definition kidsOf (k : string) (child : jsval) : list kid :=
  match child with
  | VArr its => itemKids k 0 its
  | VObj _ => [(k, None, child)]
  | _ => []
  end.

Fixpoint indexKids (i : nat) (xs : list jsval) : list kid :=
  match xs with
  | [] => []
  | x :: r => (kidsOf (string_of_nat i) x ++ indexKids (S i) r)%list
  end.

(** The children of [node] in the order the loop reaches them, each with
    the key and the array index it is found under. *)
Definition kids (node : jsval) : list kid :=
  match node with
  | VObj ps =>
      flat_map (fun kv => if skipKey (fst kv) then [] else kidsOf (fst kv) (snd kv)) ps
  | VArr xs => indexKids 0 xs
  | _ => []
  end.

Definition onKid (S : Type) (f : string -> option nat -> jsval -> S -> S)
    (s : S) (c : kid) : S :=
  f (fst (fst c)) (snd (fst c)) (snd c) s.


(** ** Notions the statements use *)

(** [Direct n c]: the node [c] is reached from [n] along [for ... in]
    children without meeting a function node, [n] and [c] included. *)
Inductive Direct : jsval -> jsval -> Prop :=
| DirectHere n : isFunctionNode n = false -> Direct n n
| DirectChild n c d :
    isFunctionNode n = false -> In c (kids n) -> Direct (snd c) d -> Direct n d.

(** The name under which [extractCalls] records the call [c], if any. *)
Definition recordName (c : jsval) : option string :=
  if type_is c "CallExpression" then
    if type_is (get "callee" c) "Identifier" then
      match nameOf (get "callee" c) with
      | Some f => if mem f builtins then None else Some f
      | None => None
      end
    else if type_is (get "callee" c) "MemberExpression" then
      match getCalleeName c with
      | Some s => if String.eqb s "" then None else Some s
      | None => None
      end
    else None
  else None.

(** Every node of the tree, in the order [traverse] visits them. *)
Fixpoint allNodes (node : jsval) {struct node} : list jsval :=
  node :: forIn (fun _ _ child acc => (acc ++ allNodes child)%list) node [].

(** The entry of [fileInfo.calls] written for [node], if any. *)
Definition fileRecord (node : jsval) : list File.call :=
  if isCallOrMember node then
    match getCalleeName node with
    | Some s =>
        if recordable (Some s)
        then [File.mkCall s (lineOf node) (nodeType node)]
        else []
    | None => []
    end
  else [].

(** ** Further scenarios *)

(** [function helper(){ return 1; }] *)
Definition helperProgram : jsval :=
  Ast.Program
    [Ast.FunctionDeclaration (Ast.Identifier "helper" (Ast.on 1 0 9 15)) []
       (Ast.BlockStatement
          [Ast.ReturnStatement (Ast.NumberLiteral 1 "1" (Ast.on 1 0 26 27))
            (Ast.on 1 0 19 28)]
          (Ast.on 1 0 17 30))
       (Ast.on 1 0 0 30)]
    30 1 30.

(** [function caller(){ helper(); helper(); }] on line 1 and
    [function helper(){ return 1; }] on line 2. *)
Definition calledTwiceProgram : jsval :=
  Ast.Program
    [Ast.FunctionDeclaration (Ast.Identifier "caller" (Ast.on 1 0 9 15)) []
       (Ast.BlockStatement
          [Ast.ExpressionStatement
             (Ast.CallExpression (Ast.Identifier "helper" (Ast.on 1 0 19 25)) []
                (Ast.on 1 0 19 27))
             (Ast.on 1 0 19 28);
           Ast.ExpressionStatement
             (Ast.CallExpression (Ast.Identifier "helper" (Ast.on 1 0 29 35)) []
                (Ast.on 1 0 29 37))
             (Ast.on 1 0 29 38)]
          (Ast.on 1 0 17 40))
       (Ast.on 1 0 0 40);
     Ast.FunctionDeclaration (Ast.Identifier "helper" (Ast.on 2 41 9 15)) []
       (Ast.BlockStatement
          [Ast.ReturnStatement (Ast.NumberLiteral 1 "1" (Ast.on 2 41 26 27))
             (Ast.on 2 41 19 28)]
          (Ast.on 2 41 17 30))
       (Ast.on 2 41 0 30)]
    71 2 30.

(** [helper();], a call outside every function. *)
Definition topLevelCallProgram : jsval :=
  Ast.Program
    [Ast.ExpressionStatement
       (Ast.CallExpression (Ast.Identifier "helper" (Ast.on 1 0 0 6)) []
         (Ast.on 1 0 0 8))
       (Ast.on 1 0 0 9)]
    9 1 9.

Definition helperFile : sourceFile :=
  mkSource "server/helper.js" "helper" (Some helperProgram).

Definition topLevelCallFile : sourceFile :=
  mkSource "server/main.js" "main" (Some topLevelCallProgram).

(** The callback of [socket.on('draw', function(data){ })] and the call it
    is an argument of. *)
Definition drawCallback : jsval :=
  Ast.FunctionExpression [Ast.Identifier "data" (Ast.on 1 0 27 31)]
    (Ast.BlockStatement [] (Ast.on 1 0 32 35)) (Ast.on 1 0 18 35).

Definition drawCall : jsval :=
  Ast.CallExpression
    (Ast.MemberExpression (Ast.Identifier "socket" (Ast.on 1 0 0 6))
       (Ast.Identifier "on" (Ast.on 1 0 7 9)) (Ast.on 1 0 0 9))
    [Ast.StringLiteral "draw" "'draw'" (Ast.on 1 0 10 16); drawCallback]
    (Ast.on 1 0 0 36).

(** [socket.on('draw', function(data){ });] *)
Definition drawProgram : jsval :=
  Ast.Program [Ast.ExpressionStatement drawCall (Ast.on 1 0 0 37)] 37 1 37.

(** [this.on('evt', function(data){ });]: a callback of a call whose
    receiver is not an identifier. *)
Definition thisOnCallback : jsval :=
  Ast.FunctionExpression [Ast.Identifier "data" (Ast.on 1 0 24 28)]
    (Ast.BlockStatement [] (Ast.on 1 0 29 32)) (Ast.on 1 0 15 32).

Definition thisOnCall : jsval :=
  Ast.CallExpression
    (Ast.MemberExpression (Ast.ThisExpression (Ast.on 1 0 0 4))
       (Ast.Identifier "on" (Ast.on 1 0 5 7)) (Ast.on 1 0 0 7))
    [Ast.StringLiteral "evt" "'evt'" (Ast.on 1 0 8 13); thisOnCallback]
    (Ast.on 1 0 0 33).

Definition thisOnProgram : jsval :=
  Ast.Program [Ast.ExpressionStatement thisOnCall (Ast.on 1 0 0 34)] 34 1 34.

(** [function alpha(a){}], [function beta(b){}] and [function gamma(c){}]
    on three lines. *)
Definition threeParamsProgram : jsval :=
  Ast.Program
    [Ast.FunctionDeclaration (Ast.Identifier "alpha" (Ast.on 1 0 9 14))
       [Ast.Identifier "a" (Ast.on 1 0 15 16)]
       (Ast.BlockStatement [] (Ast.on 1 0 17 19))
       (Ast.on 1 0 0 19);
     Ast.FunctionDeclaration (Ast.Identifier "beta" (Ast.on 2 20 9 13))
       [Ast.Identifier "b" (Ast.on 2 20 14 15)]
       (Ast.BlockStatement [] (Ast.on 2 20 16 18))
       (Ast.on 2 20 0 18);
     Ast.FunctionDeclaration (Ast.Identifier "gamma" (Ast.on 3 39 9 14))
       [Ast.Identifier "c" (Ast.on 3 39 15 16)]
       (Ast.BlockStatement [] (Ast.on 3 39 17 19))
       (Ast.on 3 39 0 19)]
    58 3 19.

(** [function alpha(){}], [function beta(){}] and [function gamma(){}]. *)
Definition threeBareProgram : jsval :=
  Ast.Program
    [Ast.FunctionDeclaration (Ast.Identifier "alpha" (Ast.on 1 0 9 14))
       [] (Ast.BlockStatement [] (Ast.on 1 0 16 18)) (Ast.on 1 0 0 18);
     Ast.FunctionDeclaration (Ast.Identifier "beta" (Ast.on 2 19 9 13))
       [] (Ast.BlockStatement [] (Ast.on 2 19 15 17)) (Ast.on 2 19 0 17);
     Ast.FunctionDeclaration (Ast.Identifier "gamma" (Ast.on 3 37 9 14))
       [] (Ast.BlockStatement [] (Ast.on 3 37 16 18)) (Ast.on 3 37 0 18)]
    55 3 18.

(** [socket.on('draw', function(data){ generateRoomId(); });] *)
Definition drawRoomProgram : jsval :=
  Ast.Program
    [Ast.ExpressionStatement
       (Ast.CallExpression
          (Ast.MemberExpression (Ast.Identifier "socket" (Ast.on 1 0 0 6))
             (Ast.Identifier "on" (Ast.on 1 0 7 9)) (Ast.on 1 0 0 9))
          [Ast.StringLiteral "draw" "'draw'" (Ast.on 1 0 10 16);
           Ast.FunctionExpression [Ast.Identifier "data" (Ast.on 1 0 27 31)]
             (Ast.BlockStatement
                [Ast.ExpressionStatement
                   (Ast.CallExpression (Ast.Identifier "generateRoomId"
                     (Ast.on 1 0 34 48))
                      [] (Ast.on 1 0 34 50))
                   (Ast.on 1 0 34 51)]
                (Ast.on 1 0 32 53))
             (Ast.on 1 0 18 53)]
          (Ast.on 1 0 0 54))
       (Ast.on 1 0 0 55)]
    55 1 55.

(** [function tick(){ setTimeout(tick, 1000); }] *)
Definition timerProgram : jsval :=
  Ast.Program
    [Ast.FunctionDeclaration (Ast.Identifier "tick" (Ast.on 1 0 9 13)) []
       (Ast.BlockStatement
          [Ast.ExpressionStatement
             (Ast.CallExpression (Ast.Identifier "setTimeout" (Ast.on 1 0 17 27))
                [Ast.Identifier "tick" (Ast.on 1 0 28 32);
                 Ast.NumberLiteral 1000 "1000" (Ast.on 1 0 34 38)]
                (Ast.on 1 0 17 39))
             (Ast.on 1 0 17 40)]
          (Ast.on 1 0 15 42))
       (Ast.on 1 0 0 42)]
    42 1 42.

(** [this.setTimeout()], a member call on a receiver that is no
    identifier. *)
Definition thisTimerCall : jsval :=
  Ast.CallExpression
    (Ast.MemberExpression (Ast.ThisExpression (Ast.on 1 0 0 4))
       (Ast.Identifier "setTimeout" (Ast.on 1 0 5 15)) (Ast.on 1 0 0 15))
    [] (Ast.on 1 0 0 17).

(** The call of [(function(){ })();], whose callee is a function. *)
Definition iifeCall : jsval :=
  Ast.CallExpression
    (Ast.FunctionExpression [] (Ast.BlockStatement [] (Ast.on 1 0 11 14))
      (Ast.on 1 0 1 14))
    [] (Ast.on 1 0 0 17).

Definition iifeProgram : jsval :=
  Ast.Program [Ast.ExpressionStatement iifeCall (Ast.on 1 0 0 18)] 18 1 18.

(** [a.b();] *)
Definition methodCallProgram : jsval :=
  Ast.Program
    [Ast.ExpressionStatement
       (Ast.CallExpression
          (Ast.MemberExpression (Ast.Identifier "a" (Ast.on 1 0 0 1))
             (Ast.Identifier "b" (Ast.on 1 0 2 3)) (Ast.on 1 0 0 3))
          [] (Ast.on 1 0 0 5))
       (Ast.on 1 0 0 6)]
    6 1 6.

(** The call [deep()], the body of [inner] and the body of [outer] in
    [function outer(){ function inner(){ deep(); } shallow(); }]. *)
Definition deepCall : jsval :=
  Ast.CallExpression (Ast.Identifier "deep" (Ast.on 1 0 36 40)) [] (Ast.on 1 0 36 42).

Definition innerBody : jsval :=
  Ast.BlockStatement [Ast.ExpressionStatement deepCall (Ast.on 1 0 36 43)]
    (Ast.on 1 0 34 45).

Definition outerBody : jsval :=
  Ast.BlockStatement
    [Ast.FunctionDeclaration (Ast.Identifier "inner" (Ast.on 1 0 27 32)) [] innerBody
      (Ast.on 1 0 18 45);
     Ast.ExpressionStatement
       (Ast.CallExpression (Ast.Identifier "shallow" (Ast.on 1 0 46 53)) []
         (Ast.on 1 0 46 55))
       (Ast.on 1 0 46 56)]
    (Ast.on 1 0 16 58).


(** The analyzer after [analyzeFile] on a tree. *)
Definition analyzed (filePath moduleName : string) (ast : jsval) : analyzer :=
  analyzeFile newAnalyzer filePath moduleName (Some ast).

(** Name, calls, fan-in and fan-out of the functions in [this.functions]. *)
Definition functionTable (a : analyzer)
  : list (string * list string * nat * nat) :=
  map (fun kv =>
         let f := deref (heap a) (snd kv) in
         (Func.name f, Func.calls f, Func.fanIn f, Func.fanOut f))
      (functions a).

Definition functionNames (a : analyzer) : list string :=
  map (fun kv => Func.name (deref (heap a) (snd kv))) (functions a).

(** The cohesion values [calculateCohesion] reports, and their ratings. *)
Definition cohesions (a : analyzer) : list Q :=
  map Cohesion.cohesion (fst (calculateCohesion a)).

Definition cohesionRatings (a : analyzer) : list (option string) :=
  map Cohesion.rating (fst (calculateCohesion a)).

(** The calls counted for a pair of groups when both directions count:
    calls by a function of either group to a name with a keyword of the
    other group. *)
Definition callsEitherWay (h : list Func.t) (m : File.t) (group1 group2 : list string)
  : nat :=
  groupCalls h m group1 group2 + groupCalls h m group2 group1.

Definition groupNamed (n : string) : list string :=
  match mapGet n functionalGroups with
  | Some g => g
  | None => []
  end.

(** The functions of the project whose call list holds the name of the
    function at [r]. *)
Definition projectCallers (a : analyzer) (r : nat) : list nat :=
  filter (fun g => mem (Func.name (deref (heap a) r)) (Func.calls (deref (heap a) g)))
         (nodup Nat.eq_dec (map snd (functions a))).

(** The functions, other than the one at [r], that stand in a module
    together with it and whose call list holds its name. *)
Definition moduleCallers (a : analyzer) (r : nat) : list nat :=
  nodup Nat.eq_dec
    (flat_map
       (fun m =>
          if existsb (Nat.eqb r) (File.functions (snd m)) then
            filter (fun g => negb (Nat.eqb g r)
                             && mem (Func.name (deref (heap a) r))
                                  (Func.calls (deref (heap a) g)))
                   (File.functions (snd m))
          else [])
       (modules a)).

(** The files, other than the one of the function at [r], with an entry in
    [this.calls] whose target is its name. *)
Definition callingFiles (a : analyzer) (r : nat) : list string :=
  nodup string_dec
    (map CallRec.from
       (filter (fun c => negb (String.eqb (CallRec.from c) (Func.file (deref (heap a) r)))
                         && String.eqb (CallRec.to c) (Func.name (deref (heap a) r)))
               (calls a))).

(** Every [funcInfo] of every module is a value of [this.functions]. *)
Definition registered (a : analyzer) : bool :=
  forallb (fun m => forallb (fun r => existsb (Nat.eqb r) (map snd (functions a)))
                      (File.functions (snd m)))
          (modules a).

(** A [funcInfo] without its fan-in, the one field the aggregator writes. *)
Definition static (f : Func.t) : Func.t := Func.setFanIn f 0.

(** The keys under which the callers of the function at [r] can enter its
    set in [fanInMap]. *)
Definition callerKeys (a : analyzer) (r : nat) : list string :=
  (map (fun g => nameLineKey (deref (heap a) g)) (moduleCallers a r)
   ++ callingFiles a r)%list.

(** The condition the loops of [calculateFanInFanOut] keep: the heap
    differs from the one of [a] in fan-in only, every function has its set
    of callers, and each set is duplicate-free, holds caller keys only and
    is at least as large as the fan-in written so far. *)
Definition countingInv (a : analyzer) (s : fstate) : Prop :=
  map static (fst s) = map static (heap a) /\
  (forall r, In r (map snd (functions a)) -> objGet r (snd s) <> None) /\
  (forall r cs, objGet r (snd s) = Some cs ->
     NoDup cs /\ incl cs (callerKeys a r)
     /\ Func.fanIn (deref (fst s) r) <= List.length cs).

(** ** Notions the further properties use *)

(** [a'] holds what [a] holds and more: the same modules, and function
    table, call list and heap of [a] each extended at the end. *)
Definition extends (a a' : analyzer) : Prop :=
  modules a' = modules a /\
  (exists f, functions a' = (functions a ++ f)%list) /\
  (exists c, calls a' = (calls a ++ c)%list) /\
  (exists h, heap a' = (heap a ++ h)%list).

(** The identity of the function at address [r]: its name and line. *)
Definition identity (h : list Func.t) (r : nat) : string * Z :=
  (Func.name (deref h r), Func.line (deref h r)).

(** The condition [traverse] keeps on the functions of the file it walks,
    [base] being the size of the heap when the walk began: their addresses
    are new and valid, they carry the path and name of the file, and no two
    of them have the same name and line. *)
Definition fileFunctionsOk (base : nat) (st : tstate) : Prop :=
  base <= List.length (heap (an st)) /\
  (forall r, In r (File.functions (fileInfo st)) ->
     base <= r < List.length (heap (an st)) /\
     Func.file (deref (heap (an st)) r) = File.path (fileInfo st) /\
     Func.module (deref (heap (an st)) r) = File.name (fileInfo st)) /\
  NoDup (map (identity (heap (an st))) (File.functions (fileInfo st))).

(** [func.fanIn = 0] for every function of the list. *)
Definition resetFanIn (funcs : list nat) (h : list Func.t) : list Func.t :=
  fold_left (fun h func => update h func (Func.setFanIn (deref h func) 0)) funcs h.

(** A second condition the loops of [calculateFanInFanOut] keep: only
    functions of [this.functions] have a set of callers, and the objects of
    the others are not written. *)
Definition outsideInv (a : analyzer) (s : fstate) : Prop :=
  (forall r cs, objGet r (snd s) = Some cs -> In r (map snd (functions a))) /\
  (forall r, ~ In r (map snd (functions a)) ->
             deref (fst s) r = deref (heap a) r).

(** [s.includes(c)] for a single character [c]. *)
Fixpoint hasChar (c : ascii) (s : string) : bool :=
  match s with
  | EmptyString => false
  | String x r => Ascii.eqb x c || hasChar c r
  end.

(** The functions of all modules, module after module. *)
Definition moduleFunctions (ms : list (string * File.t)) : list nat :=
  flat_map (fun m => File.functions (snd m)) ms.

(** The key of [this.functions] that belongs to the function at [r]. *)
Definition keyOf (h : list Func.t) (r : nat) : string :=
  functionKey (Func.file (deref h r)) (Func.name (deref h r)) (Func.line (deref h r)).

(** The condition the file loop keeps on [this.functions] when the paths
    are distinct and hold no colon: its values are the functions of the
    modules, in order, followed by those of the file being walked
    ([current]); every key is the key of its function; and every function
    belongs to a file seen before or is one of [current]. *)
Definition tableOk (seen : list string) (a : analyzer) (current : list nat) : Prop :=
  map snd (functions a) = (moduleFunctions (modules a) ++ current)%list /\
  (forall key r, In (key, r) (functions a) ->
     r < List.length (heap a) /\ key = keyOf (heap a) r /\
     (In (Func.file (deref (heap a) r)) seen \/ In r current)).

(** The files of the list that could be read and parsed. *)
Definition parsedPaths (files : list sourceFile) : list string :=
  map sfPath (filter (fun f => match sfParsed f with Some _ => true | None => false end)
                     files).

(** The condition of the walk over the file [p]. *)
Definition walkOk (seen : list string) (p : string) (base : nat) (st : tstate) : Prop :=
  File.path (fileInfo st) = p /\ fileFunctionsOk base st /\
  tableOk seen (an st) (File.functions (fileInfo st)).


(** A third condition of those loops: the heap differs from the one of [a]
    in fan-in only, and a function that has a set of callers has the size
    of the set as its fan-in. *)
Definition exactInv (a : analyzer) (s : fstate) : Prop :=
  map static (fst s) = map static (heap a) /\
  forall r cs, r < List.length (heap a) -> objGet r (snd s) = Some cs ->
               Func.fanIn (deref (fst s) r) = List.length cs.

(** [k] is in the set of callers of the function at [r]. *)
Definition holdsCaller (r : nat) (k : string) (s : fstate) : Prop :=
  exists cs, objGet r (snd s) = Some cs /\ In k cs.

(** ** Coupling *)

(** What every step of [calculateCoupling] keeps true of the metrics
    object: the two counters count the pairs of each kind, and a pair is
    pushed only for a positive number of calls. *)
Definition couplingOk (c : Coupling.t) : Prop :=
  Coupling.tightCoupling c
  = List.length (filter (fun p => Nat.ltb 5 (Coupling.calls p)) (Coupling.couplingPairs c)) /\
  Coupling.looseCoupling c
  = List.length (filter (fun p => negb (Nat.ltb 5 (Coupling.calls p)))
                   (Coupling.couplingPairs c)) /\
  Forall (fun p => 1 <= Coupling.calls p /\
                   Coupling.type p
                   = if Nat.ltb 5 (Coupling.calls p) then "tight" else "loose")
         (Coupling.couplingPairs c).

(** The pairs of group names in the order the two loops visit them. *)
Definition groupOrder : list (string * string) :=
  [("room-management", "socket-handlers");
   ("room-management", "canvas-management");
   ("socket-handlers", "canvas-management")].

Definition pairNames (c : Coupling.t) : list (string * string) :=
  map (fun p => (Coupling.module1 p, Coupling.module2 p)) (Coupling.couplingPairs c).

(** [sub l l']: [l] is [l'] with some entries left out. *)
Inductive sub (A : Type) : list A -> list A -> Prop :=
| SubNil : sub [] []
| SubSkip x l l' : sub l l' -> sub l (x :: l')
| SubKeep x l l' : sub l l' -> sub (x :: l) (x :: l').

(** ** The report *)

Fixpoint spaces (n : nat) : string :=
  match n with
  | 0 => ""
  | S k => String " " (spaces k)
  end.

(** [s.padEnd(n)] and [s.padStart(n)] *)
Definition padEnd (n : nat) (s : string) : string :=
  s ++ spaces (n - String.length s).

Definition padStart (n : nat) (s : string) : string :=
  spaces (n - String.length s) ++ s.

(** [func.name.length > 28 ? func.name.substring(0, 25) + '...' : func.name],
    padded to 28. *)
Definition nameCell (name : string) : string :=
  padEnd 28 (if Nat.ltb 28 (String.length name)
             then String.substring 0 25 name ++ "..."
             else name).

(** The four cells of the row [generateReport] writes for a function. *)
Definition reportRow (func : Metrics.entry) : list string :=
  [nameCell (Metrics.name func);
   padEnd 10 (Metrics.module func);
   padStart 6 (string_of_nat (Metrics.fanIn func));
   padStart 7 (string_of_nat (Metrics.fanOut func))].

(** The comparator of [metrics.functionMetrics.sort]. *)
Definition compareRows (a b : Metrics.entry) : Z :=
  if negb (Nat.eqb (Metrics.fanIn b) (Metrics.fanIn a))
  then (Z.of_nat (Metrics.fanIn b) - Z.of_nat (Metrics.fanIn a))%Z
  else (Z.of_nat (Metrics.fanOut b) - Z.of_nat (Metrics.fanOut a))%Z.

(** [Array.prototype.sort] is a stable sort: each entry in turn goes behind
    the entries it does not come before. *)
Fixpoint insertRow (x : Metrics.entry) (l : list Metrics.entry) : list Metrics.entry :=
  match l with
  | [] => [x]
  | y :: r => if Z.ltb (compareRows x y) 0 then x :: y :: r else y :: insertRow x r
  end.

Definition sortedFunctions (l : list Metrics.entry) : list Metrics.entry :=
  fold_left (fun acc x => insertRow x acc) l [].

(** The four counts of the summary box as they are written, each with
    [toString().padStart(10)]; [None] when [totalFanIn] or [totalFanOut] is
    absent and [toString] is called on [undefined]. *)
Definition summaryCounts (metrics : Metrics.t) : option (list string) :=
  match Metrics.totalFanIn (Metrics.projectAverages metrics),
        Metrics.totalFanOut (Metrics.projectAverages metrics) with
  | Some totalFanIn, Some totalFanOut =>
      Some [padStart 10 (string_of_nat (Metrics.totalModules metrics));
            padStart 10 (string_of_nat (Metrics.totalFunctions metrics));
            padStart 10 (string_of_nat totalFanIn);
            padStart 10 (string_of_nat totalFanOut)]
  | _, _ => None
  end.

(** How the main program ends: [process.exit(1)] when no file was found,
    an uncaught exception, or the report with the counts of its summary
    and the rows of its function table (the table is left out when there
    is no function; the two averages, written with [toFixed], and the
    fixed text are not part of the model, and writing the report file is
    taken to succeed). *)
Inductive outcome :=
| NoFiles
| Thrown
| Reported (counts : list string) (rows : list (list string)).

Definition mainOutcome (files : list sourceFile) : outcome :=
  match files with
  | [] => NoFiles
  | _ =>
      match generateMetrics (fst (analyzeAll files newAnalyzer)) with
      | None => Thrown
      | Some (metrics, _) =>
          match summaryCounts metrics with
          | None => Thrown
          | Some counts =>
              Reported counts
                (map reportRow (sortedFunctions (Metrics.functionMetrics metrics)))
          end
      end
  end.

(** [a] comes before [b] in the table, or may: more fan-in, or the same
    fan-in and at least the fan-out. *)
Definition rowOrder (a b : Metrics.entry) : Prop :=
  Metrics.fanIn b < Metrics.fanIn a \/
  (Metrics.fanIn a = Metrics.fanIn b /\ Metrics.fanOut b <= Metrics.fanOut a).

(** ** The search for source files *)

(** What [findJSFiles] meets at a path: a file, a directory with the
    entries [fs.readdirSync] lists for it ([None] when reading it throws), or
    an entry that is neither ([isDirectory()] and [isFile()] both false). *)
Unset Elimination Schemes.
Inductive fsnode :=
| FsFile
| FsDir (entries : option (list (string * fsnode)))
| FsOther.
Set Elimination Schemes.

Section FsnodeInd.
Variable P : fsnode -> Prop.
Hypothesis Hfile : P FsFile.
Hypothesis Hother : P FsOther.
Hypothesis Hunreadable : P (FsDir None).
Hypothesis Hdir : forall es, Forall (fun e => P (snd e)) es -> P (FsDir (Some es)).

Fixpoint fsnode_nested_ind (n : fsnode) : P n :=
  match n with
  | FsFile => Hfile
  | FsOther => Hother
  | FsDir None => Hunreadable
  | FsDir (Some es) =>
      Hdir
        ((fix go (es : list (string * fsnode)) : Forall (fun e => P (snd e)) es :=
            match es with
            | [] => Forall_nil _
            | (name, child) :: r =>
                @Forall_cons _ (fun e => P (snd e)) (name, child) r
                  (fsnode_nested_ind child) (go r)
            end) es)
  end.
End FsnodeInd.

(** The entries the loop passes over: [node_modules], [build], [.next] and
    every name that starts with a dot. *)
Definition skipped (name : string) : bool :=
  String.eqb name "node_modules" || String.eqb name "build"
  || String.eqb name ".next" || String.prefix "." name.

Section FindJSFiles.
(** [path.join] and [path.extname], and the parameter [extensions]. *)
Variable join : string -> string -> string.
Variable extname : string -> string.
Variable extensions : list string.

(** What the body of the [for] loop does with one entry. *)
Definition visitEntry (traverse : string -> fsnode -> list string -> list string)
    (currentPath name : string) (child : fsnode) (files : list string) : list string :=
  let fullPath := join currentPath name in
  if skipped name then files
  else match child with
       | FsDir _ => traverse fullPath child files
       | FsFile =>
           if mem (extname name) extensions then (files ++ [fullPath])%list else files
       | FsOther => files
       end.

(** The inner function [traverse(currentPath)], [n] being what is at
    [currentPath]; the [catch] block makes a path that cannot be listed
    add nothing. *)
Fixpoint traverseDir (currentPath : string) (n : fsnode) (files : list string)
  {struct n} : list string :=
  match n with
  | FsDir (Some entries) =>
      (fix loop (es : list (string * fsnode)) (files : list string) : list string :=
         match es with
         | [] => files
         | (name, child) :: rest =>
             loop rest
               (let fullPath := join currentPath name in
                if skipped name then files
                else match child with
                     | FsDir _ => traverseDir fullPath child files
                     | FsFile =>
                         if mem (extname name) extensions
                         then (files ++ [fullPath])%list else files
                     | FsOther => files
                     end)
         end) entries files
  | _ => files
  end.

(** [findJSFiles(dir, extensions)] *)
Definition findJSFiles (dir : string) (root : fsnode) : list string :=
  traverseDir dir root [].

(** The files one entry of the directory at [dir] contributes. *)
Definition entryFiles (dir : string) (e : string * fsnode) : list string :=
  if skipped (fst e) then []
  else match snd e with
       | FsDir _ => findJSFiles (join dir (fst e)) (snd e)
       | FsFile => if mem (extname (fst e)) extensions then [join dir (fst e)] else []
       | FsOther => []
       end.

(** [Listed cur n f]: below the directory [n] at path [cur], [f] is the
    path of a file with one of the extensions, reached through readable
    directories and entries that are not passed over. *)
Inductive Listed : string -> fsnode -> string -> Prop :=
| ListedFile cur es name :
    In (name, FsFile) es -> skipped name = false ->
    mem (extname name) extensions = true ->
    Listed cur (FsDir (Some es)) (join cur name)
| ListedBelow cur es name sub f :
    In (name, FsDir sub) es -> skipped name = false ->
    Listed (join cur name) (FsDir sub) f ->
    Listed cur (FsDir (Some es)) f.
End FindJSFiles.

(** ** Names taken from the context *)

(** A step of the parent chain at which no rule of the resolver applies:
    the parent is neither a variable declarator nor a property, nor a call
    whose callee is a member expression. *)
Definition neutral (fr : frame) : bool :=
  negb (type_is (fparent fr) "VariableDeclarator")
  && negb (type_is (fparent fr) "Property")
  && negb (type_is (fparent fr) "CallExpression"
           && type_is (get "callee" (fparent fr)) "MemberExpression").

(** [wrap(function(data){ })], the callee an identifier, and the declarator
    of [const x = wrap(function(data){ })]. *)
Definition wrapCall : jsval :=
  Ast.CallExpression (Ast.Identifier "wrap" (Ast.on 1 0 10 14)) [drawCallback]
    (Ast.on 1 0 10 36).

Definition wrapDeclarator : jsval :=
  Ast.node "VariableDeclarator"
    [("id", Ast.Identifier "x" (Ast.on 1 0 6 7)); ("init", wrapCall)]
    (Ast.on 1 0 6 36).
(** * Properties *)

Section ForIn.
Variable S : Type.
Variable f : string -> option nat -> jsval -> S -> S.

Lemma forEachI_itemKids k its : forall i s,
  forEachI (fun i it s => if isObject it then f k (Some i) it s else s) i its s
  = fold_left (onKid f) (itemKids k i its) s.
Proof.
  induction its as [|it r IH]; intros i s; simpl; [reflexivity|].
  rewrite fold_left_app, IH.
  destruct (isObject it); reflexivity.
Qed.

Lemma forChild_kidsOf k child s :
  forChild f k child s = fold_left (onKid f) (kidsOf k child) s.
Proof.
  destruct child; simpl; try reflexivity.
  apply forEachI_itemKids.
Qed.

Lemma forIn_kids node s :
  forIn f node s = fold_left (onKid f) (kids node) s.
Proof.
  destruct node as [| | | | |xs|ps]; simpl; try reflexivity.
  - generalize 0 as i. revert s.
    induction xs as [|x r IH]; intros s i; simpl; [reflexivity|].
    rewrite fold_left_app, <- forChild_kidsOf. apply IH.
  - revert s. induction ps as [|kv r IH]; intros s; simpl; [reflexivity|].
    rewrite fold_left_app, IH.
    destruct (skipKey (fst kv)); simpl; [reflexivity|].
    now rewrite forChild_kidsOf.
Qed.
End ForIn.

Lemma itemKids_In k c : forall its i, In c (itemKids k i its) -> In (snd c) its.
Proof.
  induction its as [|it r IH]; simpl; intros i H; [contradiction|].
  apply in_app_or in H. destruct H as [H|H].
  - destruct (isObject it); simpl in H; [|contradiction].
    destruct H as [<-|[]]. now left.
  - right. eapply IH; eauto.
Qed.

(** Induction over the tree along [kids]. *)
Lemma kids_ind (P : jsval -> Prop) :
  (forall n, (forall c, In c (kids n) -> P (snd c)) -> P n) ->
  forall n, P n.
Proof.
  intros step.
  assert (H : forall v, P v /\ Forall P (arrItems v)).
  { induction v using jsval_nested_ind;
      try (split; [apply step; simpl; intros c []|constructor]).
    - (* array *)
      assert (Hitems : Forall P items).
      { eapply Forall_impl; [|exact H]. intros a Ha; apply Ha. }
      split; [|exact Hitems].
      apply step. simpl. generalize 0 as i.
      induction items as [|x r IH]; simpl; intros i c Hc; [contradiction|].
      inversion H as [|? ? Hx Hr]; subst. inversion Hitems; subst.
      apply in_app_or in Hc. destruct Hc as [Hc|Hc].
      + destruct x; simpl in Hc; try contradiction.
        * apply itemKids_In in Hc.
          destruct Hx as [_ Hx]. simpl in Hx.
          rewrite Forall_forall in Hx. now apply Hx.
        * destruct Hc as [<-|[]]. simpl. assumption.
      + eapply IH; eauto.
    - (* object *)
      split; [|constructor].
      apply step. simpl.
      induction props as [|kv r IH]; simpl; intros c Hc; [contradiction|].
      inversion H as [|? ? Hx Hr]; subst.
      apply in_app_or in Hc. destruct Hc as [Hc|Hc].
      + destruct (skipKey (fst kv)); [contradiction|].
        destruct (snd kv) eqn:E; simpl in Hc; try contradiction.
        * apply itemKids_In in Hc.
          destruct Hx as [_ Hx]. simpl in Hx.
          rewrite Forall_forall in Hx. now apply Hx.
        * destruct Hc as [<-|[]]. simpl. apply Hx.
      + eapply IH; eauto. }
  intros n. apply H.
Qed.

(** ** The call extractor *)

Lemma extractCalls_eq node fi :
  extractCalls node fi =
  if isFunctionNode node then fi
  else fold_left
         (fun fi (c : kid) => if negb (isFunctionNode (snd c))
                      then extractCalls (snd c) fi else fi)
         (kids node) (extractHere node fi).
Proof.
  rewrite <- (forIn_kids (fun _ _ child fi =>
                if negb (isFunctionNode child) then extractCalls child fi else fi)).
  destruct node; reflexivity.
Qed.

Lemma mem_In x l : mem x l = true <-> In x l.
Proof.
  unfold mem. rewrite existsb_exists. split.
  - intros [y [Hy E]]. apply String.eqb_eq in E. now subst.
  - intros H. exists x. split; [assumption|apply String.eqb_refl].
Qed.

Lemma mem_false x l : mem x l = false <-> ~ In x l.
Proof.
  rewrite <- mem_In. destruct (mem x l); split; congruence.
Qed.

(** What [extractHere] adds is the [recordName] of the node. *)
Lemma extractHere_calls node fi :
  Func.calls (extractHere node fi) =
  match recordName node with
  | Some s => if mem s (Func.calls fi) then Func.calls fi
              else (Func.calls fi ++ [s])%list
  | None => Func.calls fi
  end.
Proof.
  unfold extractHere, recordName, recordCall.
  destruct (type_is node "CallExpression"); [|reflexivity].
  destruct (type_is (get "callee" node) "Identifier").
  - destruct (nameOf (get "callee" node)) as [f|]; [|reflexivity].
    destruct (mem f builtins); simpl; [reflexivity|].
    destruct (mem f (Func.calls fi)); reflexivity.
  - destruct (type_is (get "callee" node) "MemberExpression"); [|reflexivity].
    destruct (getCalleeName node) as [s|]; [|reflexivity].
    destruct (String.eqb s ""); simpl; [reflexivity|].
    destruct (mem s (Func.calls fi)); reflexivity.
Qed.



Lemma extractHere_origin node fi x :
  In x (Func.calls (extractHere node fi)) ->
  In x (Func.calls fi) \/ recordName node = Some x.
Proof.
  rewrite extractHere_calls.
  destruct (recordName node) as [s|]; [|now left].
  destruct (mem s (Func.calls fi)); [now left|].
  intros H. apply in_app_or in H. simpl in H.
  destruct H as [H|[<-|[]]]; [now left|now right].
Qed.




Lemma kids_fold_origin (l : list kid) :
  (forall k, In k l -> forall fi x,
     In x (Func.calls (extractCalls (snd k) fi)) ->
     In x (Func.calls fi) \/ exists c, Direct (snd k) c /\ recordName c = Some x) ->
  forall fi x,
  In x (Func.calls
          (fold_left (fun fi (c : kid) => if negb (isFunctionNode (snd c))
                                  then extractCalls (snd c) fi else fi) l fi)) ->
  In x (Func.calls fi) \/
  exists k c, In k l /\ Direct (snd k) c /\ recordName c = Some x.
Proof.
  induction l as [|k r IHr]; simpl; intros IH fi x H; [now left|].
  apply IHr in H.
  - destruct H as [H|[k' [c [Hk' Hc]]]].
    + destruct (isFunctionNode (snd k)); simpl in H; [now left|].
      apply IH in H; [|now left].
      destruct H as [H|[c Hc]]; [now left|].
      right. exists k, c. split; [now left|assumption].
    + right. exists k', c. split; [now right|assumption].
  - intros k' Hk'. apply IH. now right.
Qed.

(** Every recorded name comes from a call reached without entering a
    function. *)
Lemma extractCalls_origin : forall node fi x,
  In x (Func.calls (extractCalls node fi)) ->
  In x (Func.calls fi) \/ exists c, Direct node c /\ recordName c = Some x.
Proof.
  intros node. induction node as [n IH] using kids_ind. intros fi x.
  rewrite extractCalls_eq. destruct (isFunctionNode n) eqn:Hn; [now left|].
  intros H. apply kids_fold_origin in H; [|exact IH].
  destruct H as [G|[k [c [Hk [Hc E]]]]].
  - apply extractHere_origin in G. destruct G as [G|G]; [now left|].
    right. exists n. split; [now constructor|assumption].
  - right. exists c. split; [|assumption]. eapply DirectChild; eauto.
Qed.

(** ** The walk over the syntax tree *)

Lemma traverse_eq node anc st :
  traverse node anc st =
  fold_left
    (fun st (c : kid) =>
       traverse (snd c)
         (mkFrame node (fst (fst c)) (snd (fst c))
            :: (if isFunctionNode node then [] else anc)) st)
    (kids node) (visit node anc st).
Proof.
  rewrite <- (forIn_kids (fun k i child st =>
                traverse child
                  (mkFrame node k i :: (if isFunctionNode node then [] else anc)) st)).
  destruct node; reflexivity.
Qed.

Lemma fold_left_app_acc (A B : Type) (f : A -> list B) (l : list A) (acc : list B) :
  fold_left (fun acc x => (acc ++ f x)%list) l acc = (acc ++ flat_map f l)%list.
Proof.
  revert acc. induction l as [|x r IH]; simpl; intros acc.
  - now rewrite app_nil_r.
  - now rewrite IH, app_assoc.
Qed.

Lemma allNodes_eq node :
  allNodes node = node :: flat_map (fun c : kid => allNodes (snd c)) (kids node).
Proof.
  rewrite <- (app_nil_l (flat_map _ _)).
  rewrite <- (fold_left_app_acc (fun c : kid => allNodes (snd c))).
  change (fold_left (fun acc (x : kid) => (acc ++ allNodes (snd x))%list) (kids node) [])
    with (fold_left (onKid (fun _ _ child acc => (acc ++ allNodes child)%list))
            (kids node) []).
  rewrite <- forIn_kids.
  destruct node; reflexivity.
Qed.

Lemma type_is_unique node a b :
  type_is node a = true -> type_is node b = true -> a = b.
Proof.
  unfold type_is. destruct (get "type" node); try discriminate.
  intros Ha Hb. apply String.eqb_eq in Ha, Hb. congruence.
Qed.

Lemma callOrMember_not_function node :
  isCallOrMember node = true -> isFunctionNode node = false.
Proof.
  unfold isCallOrMember, isFunctionNode. intros H.
  apply orb_true_iff in H.
  destruct (type_is node "FunctionDeclaration") eqn:E1;
  destruct (type_is node "FunctionExpression") eqn:E2;
  destruct (type_is node "ArrowFunctionExpression") eqn:E3; simpl; trivial;
  destruct H as [H|H];
  repeat match goal with
         | A : type_is node ?a = true, B : type_is node ?b = true |- _ =>
             pose proof (type_is_unique _ _ _ A B); discriminate
         end.
Qed.

Lemma registerFunction_calls node f c st :
  File.calls (fileInfo (registerFunction node f c st)) = File.calls (fileInfo st).
Proof.
  unfold registerFunction.
  match goal with |- context [if existsb ?p ?l then _ else _] =>
    destruct (existsb p l) end; reflexivity.
Qed.

Lemma recordImport_calls node st :
  File.calls (fileInfo (recordImport node st)) = File.calls (fileInfo st).
Proof. unfold recordImport. destruct (type_is node "ImportDeclaration"); reflexivity. Qed.

Lemma recordExport_calls node st :
  File.calls (fileInfo (recordExport node st)) = File.calls (fileInfo st).
Proof.
  unfold recordExport.
  destruct (type_is node "ExportNamedDeclaration" || type_is node "ExportDefaultDeclaration");
    reflexivity.
Qed.

Lemma recordFileCall_calls node st :
  File.calls (fileInfo (recordFileCall node st))
  = (File.calls (fileInfo st) ++ fileRecord node)%list.
Proof.
  unfold recordFileCall, fileRecord.
  destruct (isCallOrMember node) eqn:E.
  - rewrite (callOrMember_not_function _ E). cbv [negb andb].
    destruct (getCalleeName node) as [s|]; [|now rewrite app_nil_r].
    destruct (recordable (Some s)); [reflexivity|now rewrite app_nil_r].
  - rewrite andb_false_r. now rewrite app_nil_r.
Qed.

Lemma visit_calls node anc st :
  File.calls (fileInfo (visit node anc st))
  = (File.calls (fileInfo st) ++ fileRecord node)%list.
Proof.
  unfold visit. rewrite recordFileCall_calls, recordExport_calls, recordImport_calls.
  destruct (newFuncInfo node anc st) as [[f c]|]; [|reflexivity].
  now rewrite registerFunction_calls.
Qed.

(** The file-level call list after the walk: one entry for each node that
    [fileRecord] keeps, in visiting order. *)
Lemma traverse_calls : forall node anc st,
  File.calls (fileInfo (traverse node anc st))
  = (File.calls (fileInfo st) ++ flat_map fileRecord (allNodes node))%list.
Proof.
  intros node. induction node as [n IH] using kids_ind. intros anc st.
  rewrite traverse_eq, allNodes_eq. simpl.
  rewrite app_assoc, <- (visit_calls n anc st).
  generalize (visit n anc st) as st0.
  generalize (if isFunctionNode n then [] else anc) as up.
  induction (kids n) as [|c r IHr]; intros up st0; simpl.
  - now rewrite app_nil_r.
  - rewrite IHr by (intros c' Hc'; apply IH; now right).
    rewrite IH by now left.
    now rewrite flat_map_app, app_assoc.
Qed.

Lemma registerFunction_path node f c st :
  File.path (fileInfo (registerFunction node f c st)) = File.path (fileInfo st).
Proof.
  unfold registerFunction.
  match goal with |- context [if existsb ?p ?l then _ else _] =>
    destruct (existsb p l) end; reflexivity.
Qed.

Lemma registerFunction_an_calls node f c st :
  calls (an (registerFunction node f c st)) = calls (an st).
Proof.
  unfold registerFunction.
  match goal with |- context [if existsb ?p ?l then _ else _] =>
    destruct (existsb p l) end; reflexivity.
Qed.

Lemma visit_path node anc st :
  File.path (fileInfo (visit node anc st)) = File.path (fileInfo st).
Proof.
  unfold visit, recordFileCall, recordExport, recordImport.
  repeat match goal with
         | |- context [if ?b then _ else _] => destruct b
         | |- context [match ?o with Some _ => _ | None => _ end] => destruct o
         | |- context [let '(_, _) := ?p in _] => destruct p
         end; cbn [fileInfo File.path File.pushCall File.pushExport File.pushImport];
    try apply registerFunction_path; reflexivity.
Qed.

Lemma traverse_path : forall node anc st,
  File.path (fileInfo (traverse node anc st)) = File.path (fileInfo st).
Proof.
  intros node. induction node as [n IH] using kids_ind. intros anc st.
  rewrite traverse_eq, <- (visit_path n anc st).
  generalize (visit n anc st) as st0.
  generalize (if isFunctionNode n then [] else anc) as up.
  induction (kids n) as [|c r IHr]; intros up st0; simpl; [reflexivity|].
  rewrite IHr by (intros c' Hc'; apply IH; now right).
  apply IH. now left.
Qed.

(** The entry of [this.calls] that goes with an entry of [fileInfo.calls]. *)
Lemma visit_an_calls node anc st :
  calls (an (visit node anc st))
  = (calls (an st)
     ++ map (fun c => CallRec.mk (File.path (fileInfo st)) (File.cname c) (File.cline c))
            (fileRecord node))%list.
Proof.
  assert (R : forall st', calls (an (recordImport node st')) = calls (an st')
                          /\ File.path (fileInfo (recordImport node st'))
                             = File.path (fileInfo st')).
  { intros st'. unfold recordImport.
    destruct (type_is node "ImportDeclaration"); split; reflexivity. }
  assert (X : forall st', calls (an (recordExport node st')) = calls (an st')
                          /\ File.path (fileInfo (recordExport node st'))
                             = File.path (fileInfo st')).
  { intros st'. unfold recordExport.
    destruct (type_is node "ExportNamedDeclaration"
              || type_is node "ExportDefaultDeclaration"); split; reflexivity. }
  assert (F : forall st',
             calls (an (recordFileCall node st'))
             = (calls (an st')
                ++ map (fun c => CallRec.mk (File.path (fileInfo st')) (File.cname c)
                                   (File.cline c))
                       (fileRecord node))%list).
  { intros st'. unfold recordFileCall, fileRecord.
    destruct (isCallOrMember node) eqn:E.
    - rewrite (callOrMember_not_function _ E). cbv [negb andb].
      destruct (getCalleeName node) as [s|]; [|now rewrite app_nil_r].
      destruct (recordable (Some s)); [reflexivity|now rewrite app_nil_r].
    - rewrite andb_false_r. now rewrite app_nil_r. }
  unfold visit. rewrite F.
  rewrite (proj1 (X _)), (proj2 (X _)), (proj1 (R _)), (proj2 (R _)).
  destruct (newFuncInfo node anc st) as [[f c]|]; [|reflexivity].
  now rewrite registerFunction_an_calls, registerFunction_path.
Qed.

Lemma traverse_an_calls : forall node anc st,
  calls (an (traverse node anc st))
  = (calls (an st)
     ++ map (fun c => CallRec.mk (File.path (fileInfo st)) (File.cname c) (File.cline c))
            (flat_map fileRecord (allNodes node)))%list.
Proof.
  intros node. induction node as [n IH] using kids_ind. intros anc st.
  rewrite traverse_eq, allNodes_eq. simpl.
  rewrite map_app, app_assoc, <- (visit_an_calls n anc st), <- (visit_path n anc st).
  generalize (visit n anc st) as st0.
  generalize (if isFunctionNode n then [] else anc) as up.
  induction (kids n) as [|c r IHr]; intros up st0; simpl.
  - now rewrite app_nil_r.
  - rewrite IHr by (intros c' Hc'; apply IH; now right).
    rewrite IH by now left.
    rewrite traverse_path.
    now rewrite flat_map_app, map_app, app_assoc.
Qed.

(** ** The function identity resolver *)

Lemma type_is_truthy v t : type_is v t = true -> truthy v = true.
Proof. destruct v; simpl; try discriminate; reflexivity. Qed.

Lemma nameOf_truthy v s : nameOf v = Some s -> truthy v = true.
Proof. destruct v; simpl; try discriminate; reflexivity. Qed.

Lemma eqb_empty_false s : s <> "" -> String.eqb s "" = false.
Proof. intros H. now apply String.eqb_neq. Qed.

Lemma fileRecord_In c node :
  In c (fileRecord node) ->
  isCallOrMember node = true /\ getCalleeName node = Some (File.cname c) /\
  File.cname c <> "" /\ File.cname c <> "require" /\ File.cname c <> "console".
Proof.
  unfold fileRecord.
  destruct (isCallOrMember node); [|intros []].
  destruct (getCalleeName node) as [s|]; [|intros []].
  destruct (recordable (Some s)) eqn:R; [|intros []].
  intros [<-|[]]. simpl. split; [reflexivity|]. split; [reflexivity|].
  unfold recordable in R.
  apply andb_true_iff in R. destruct R as [R R3].
  apply andb_true_iff in R. destruct R as [R1 R2].
  apply negb_true_iff, String.eqb_neq in R1, R2, R3. auto.
Qed.

(** ** The call graph aggregator *)

Lemma deref_static h h' r :
  map static h = map static h' -> static (deref h r) = static (deref h' r).
Proof.
  intros H. unfold deref.
  rewrite <- (map_nth static h dummyFunc r), <- (map_nth static h' dummyFunc r).
  now rewrite H.
Qed.

Lemma static_fields f g :
  static f = static g ->
  Func.name f = Func.name g /\ Func.file f = Func.file g /\
  Func.calls f = Func.calls g /\ Func.line f = Func.line g.
Proof.
  destruct f, g. unfold static, Func.setFanIn. simpl.
  intros H. injection H. intros; subst. auto.
Qed.

Lemma static_key f g : static f = static g -> nameLineKey f = nameLineKey g.
Proof.
  intros H. apply static_fields in H. destruct H as [H1 [_ [_ H2]]].
  unfold nameLineKey. now rewrite H1, H2.
Qed.

Lemma update_static h : forall r n,
  map static (update h r (Func.setFanIn (deref h r) n)) = map static h.
Proof.
  induction h as [|x t IH]; intros [|r] n; simpl; try reflexivity.
  f_equal. apply IH.
Qed.

Lemma deref_update_other h f : forall r r',
  r' <> r -> deref (update h r f) r' = deref h r'.
Proof.
  induction h as [|x t IH]; intros [|r] [|r'] H; simpl; try reflexivity.
  - contradiction.
  - apply IH. congruence.
Qed.

Lemma deref_update_same h : forall r n,
  Func.fanIn (deref (update h r (Func.setFanIn (deref h r) n)) r) <= n.
Proof.
  induction h as [|x t IH]; intros [|r] n; simpl; try lia.
  apply IH.
Qed.

Lemma deref_update_zero h r :
  Func.fanIn (deref (update h r (Func.setFanIn (deref h r) 0)) r) = 0.
Proof. pose proof (deref_update_same h r 0). lia. Qed.

Lemma objGet_objSet (V : Type) (v : V) r' : forall m r,
  objGet r (objSet r' v m) = if Nat.eqb r r' then Some v else objGet r m.
Proof.
  induction m as [|[k w] t IH]; intros r; simpl.
  - destruct (Nat.eqb r r'); reflexivity.
  - destruct (Nat.eqb_spec r' k) as [->|Hk]; simpl.
    + destruct (Nat.eqb r k); reflexivity.
    + rewrite IH. destruct (Nat.eqb_spec r k) as [->|Hr].
      * destruct (Nat.eqb_spec k r'); [congruence|reflexivity].
      * reflexivity.
Qed.

Lemma uniqueFunctions_incl h : forall l keys r,
  In r (uniqueFunctions h keys l) -> In r l.
Proof.
  induction l as [|x t IH]; simpl; intros keys r H; [assumption|].
  destruct (mem (nameLineKey (deref h x)) keys).
  - right. eapply IH; eauto.
  - destruct H as [H|H]; [now left|]. right. eapply IH; eauto.
Qed.

Lemma callCount_mem f1 f2 :
  Nat.ltb 0 (callCount f1 f2) = true -> mem (Func.name f2) (Func.calls f1) = true.
Proof.
  unfold callCount. intros H. apply Nat.ltb_lt in H.
  destruct (filter (fun call => String.eqb call (Func.name f2)) (Func.calls f1))
    as [|c l] eqn:E; [simpl in H; lia|].
  assert (Hc : In c (c :: l)) by now left.
  rewrite <- E in Hc. apply filter_In in Hc. destruct Hc as [Hc Heq].
  apply String.eqb_eq in Heq. subst. now apply mem_In.
Qed.

Lemma foldM_inv (A S : Type) (P : S -> Prop) (f : A -> S -> option S) (l : list A) :
  (forall x s, In x l -> P s -> exists s', f x s = Some s' /\ P s') ->
  forall s, P s -> exists s', foldM f l s = Some s' /\ P s'.
Proof.
  induction l as [|x r IH]; intros step s H; simpl.
  - exists s. auto.
  - destruct (step x s (or_introl eq_refl) H) as [s1 [E H1]]. rewrite E.
    apply IH; [|assumption]. intros y t Hy. apply step. now right.
Qed.

Lemma foldM_pres (A S : Type) (P : S -> Prop) (f : A -> S -> option S) (l : list A) :
  (forall x s s', In x l -> P s -> f x s = Some s' -> P s') ->
  forall s s', P s -> foldM f l s = Some s' -> P s'.
Proof.
  induction l as [|x r IH]; intros step s s' H E; simpl in E.
  - injection E as <-. assumption.
  - destruct (f x s) as [s1|] eqn:E1; [|discriminate].
    apply (IH (fun y t t' Hy => step y t t' (or_intror Hy)) s1 s'); [|assumption].
    apply (step x s s1); auto. now left.
Qed.

(** Adding a caller key keeps the condition of the loops. *)
Lemma addCaller_pres a s s' func2 key :
  countingInv a s -> In key (callerKeys a func2) ->
  addCaller func2 key s = Some s' -> countingInv a s'.
Proof.
  intros [HS [HD HC]] Hk. unfold addCaller.
  destruct (objGet func2 (snd s)) as [cs|] eqn:E; [|discriminate].
  destruct (mem key cs) eqn:M; intros Hs'; injection Hs' as <-.
  - repeat split; auto; apply (HC _ _ H).
  - destruct (HC _ _ E) as [Hnd [Hincl Hfan]].
    split; [|split]; cbn [fst snd].
    + now rewrite update_static.
    + intros r Hr. rewrite objGet_objSet.
      destruct (Nat.eqb r func2); [discriminate|now apply HD].
    + intros r cs' Hget. rewrite objGet_objSet in Hget.
      destruct (Nat.eqb_spec r func2) as [->|Hne].
      * injection Hget as <-. split; [|split].
        -- apply NoDup_app; [assumption|repeat constructor; intros []|].
           intros x Hx [<-|[]]. apply mem_false in M. contradiction.
        -- intros x Hx. apply in_app_or in Hx.
           destruct Hx as [Hx|[<-|[]]]; [now apply Hincl|assumption].
        -- apply deref_update_same.
      * rewrite deref_update_other by assumption. now apply HC.
Qed.

(** It throws only for a function that is not in [this.functions]. *)
Lemma addCaller_succ a s func2 key :
  countingInv a s -> In func2 (map snd (functions a)) ->
  exists s', addCaller func2 key s = Some s'.
Proof.
  intros [_ [HD _]] Hf. unfold addCaller.
  destruct (objGet func2 (snd s)) as [cs|] eqn:E; [|now apply HD in Hf].
  destruct (mem key cs); eauto.
Qed.

Lemma registered_In a m r :
  registered a = true -> In m (modules a) -> In r (File.functions (snd m)) ->
  In r (map snd (functions a)).
Proof.
  unfold registered. intros H Hm Hr.
  rewrite forallb_forall in H. specialize (H _ Hm).
  rewrite forallb_forall in H. specialize (H _ Hr).
  apply existsb_exists in H. destruct H as [x [Hx E]].
  apply Nat.eqb_eq in E. now subst.
Qed.

Lemma moduleCallers_In a m func1 func2 :
  In m (modules a) ->
  In func1 (File.functions (snd m)) -> In func2 (File.functions (snd m)) ->
  func1 <> func2 ->
  mem (Func.name (deref (heap a) func2)) (Func.calls (deref (heap a) func1)) = true ->
  In func1 (moduleCallers a func2).
Proof.
  intros Hm H1 H2 Hne Hcall. unfold moduleCallers.
  apply nodup_In, in_flat_map. exists m. split; [assumption|].
  assert (E : existsb (Nat.eqb func2) (File.functions (snd m)) = true).
  { apply existsb_exists. exists func2. split; [assumption|apply Nat.eqb_refl]. }
  rewrite E. apply filter_In. split; [assumption|].
  apply andb_true_iff. split; [|assumption].
  apply negb_true_iff, Nat.eqb_neq. assumption.
Qed.

Lemma countIntra_pres a s s' m func1 func2 :
  In m (modules a) ->
  In func1 (File.functions (snd m)) -> In func2 (File.functions (snd m)) ->
  countingInv a s -> countIntra func1 func2 s = Some s' -> countingInv a s'.
Proof.
  intros Hm H1 H2 Hinv. unfold countIntra.
  destruct (Nat.eqb_spec func1 func2) as [->|Hne]; cbn [negb];
    [intros E; injection E as <-; assumption|].
  destruct (Nat.ltb 0 (callCount (deref (fst s) func1) (deref (fst s) func2))) eqn:E;
    [|intros E'; injection E' as <-; assumption].
  apply addCaller_pres; [assumption|].
  destruct Hinv as [HS _].
  apply callCount_mem in E.
  pose proof (@deref_static _ _ func1 HS) as S1.
  pose proof (@deref_static _ _ func2 HS) as S2.
  rewrite (@static_key _ _ S1).
  destruct (@static_fields _ _ S1) as [_ [_ [Hc _]]].
  destruct (@static_fields _ _ S2) as [Hn _].
  rewrite Hc, Hn in E.
  unfold callerKeys. apply in_or_app. left.
  apply (in_map (fun g => nameLineKey (deref (heap a) g))).
  eapply moduleCallers_In; eauto.
Qed.

Lemma countIntra_succ a s m func1 func2 :
  registered a = true -> In m (modules a) ->
  In func2 (File.functions (snd m)) -> countingInv a s ->
  exists s', countIntra func1 func2 s = Some s'.
Proof.
  intros Hreg Hm H2 Hinv. unfold countIntra.
  destruct (negb (Nat.eqb func1 func2)); [|eauto].
  destruct (Nat.ltb 0 (callCount (deref (fst s) func1) (deref (fst s) func2)));
    [|eauto].
  eapply addCaller_succ; [eassumption|]. eapply registered_In; eauto.
Qed.

Lemma countModule_pres a s s' m :
  In m (modules a) -> countingInv a s -> countModule m s = Some s' ->
  countingInv a s'.
Proof.
  intros Hm Hinv. unfold countModule.
  set (unique := uniqueFunctions (fst s) [] (File.functions (snd m))).
  assert (Hu : forall r, In r unique -> In r (File.functions (snd m))).
  { intros r. apply uniqueFunctions_incl. }
  clearbody unique.
  apply foldM_pres; [|assumption].
  intros func1 s1 s1' H1 Hs1.
  apply foldM_pres; [|assumption].
  intros func2 s2 s2' H2 Hs2.
  eapply countIntra_pres; eauto.
Qed.

Lemma countModule_succ a s m :
  registered a = true -> In m (modules a) -> countingInv a s ->
  exists s', countModule m s = Some s' /\ countingInv a s'.
Proof.
  intros Hreg Hm Hinv. unfold countModule.
  set (unique := uniqueFunctions (fst s) [] (File.functions (snd m))).
  assert (Hu : forall r, In r unique -> In r (File.functions (snd m))).
  { intros r. apply uniqueFunctions_incl. }
  clearbody unique.
  apply foldM_inv; [|assumption].
  intros func1 s1 H1 Hs1.
  apply foldM_inv; [|assumption].
  intros func2 s2 H2 Hs2.
  destruct (@countIntra_succ a s2 m func1 func2 Hreg Hm (Hu _ H2) Hs2) as [s3 E].
  exists s3. split; [assumption|].
  exact (@countIntra_pres a s2 s3 m func1 func2 Hm (Hu _ H1) (Hu _ H2) Hs2 E).
Qed.

Lemma callingFiles_In a call r :
  In call (calls a) ->
  negb (String.eqb (CallRec.from call) (Func.file (deref (heap a) r)))
  && String.eqb (CallRec.to call) (Func.name (deref (heap a) r)) = true ->
  In (CallRec.from call) (callingFiles a r).
Proof.
  intros Hc E. unfold callingFiles. apply nodup_In.
  apply (in_map CallRec.from). apply filter_In. auto.
Qed.

Lemma countExternal_pres a s s' call func :
  In call (calls a) -> countingInv a s ->
  countExternal call func s = Some s' -> countingInv a s'.
Proof.
  intros Hc Hinv. unfold countExternal.
  match goal with |- context [if ?b then _ else _] => destruct b eqn:E end;
    [|intros E'; injection E' as <-; assumption].
  apply addCaller_pres; [assumption|].
  destruct Hinv as [HS _].
  pose proof (@deref_static _ _ func HS) as S1.
  destruct (@static_fields _ _ S1) as [Hn [Hfile _]].
  rewrite Hn, Hfile in E.
  unfold callerKeys. apply in_or_app. right.
  now apply callingFiles_In.
Qed.

Lemma countExternal_succ a s call func :
  In call (calls a) -> In func (map snd (functions a)) -> countingInv a s ->
  exists s', countExternal call func s = Some s' /\ countingInv a s'.
Proof.
  intros Hc Hf Hinv.
  assert (E : exists s', countExternal call func s = Some s').
  { unfold countExternal.
    match goal with |- context [if ?b then _ else _] => destruct b end; [|eauto].
    eapply addCaller_succ; eauto. }
  destruct E as [s' E]. exists s'. split; [assumption|].
  eapply countExternal_pres; eauto.
Qed.

Lemma reset_static l : forall h,
  map static (fold_left (fun h func => update h func (Func.setFanIn (deref h func) 0)) l h)
  = map static h.
Proof.
  induction l as [|x t IH]; intros h; simpl; [reflexivity|].
  now rewrite IH, update_static.
Qed.

Lemma reset_zero l : forall h r,
  In r l \/ Func.fanIn (deref h r) = 0 ->
  Func.fanIn
    (deref (fold_left (fun h func => update h func (Func.setFanIn (deref h func) 0)) l h) r)
  = 0.
Proof.
  induction l as [|x t IH]; intros h r H; simpl.
  - destruct H as [[]|H]. assumption.
  - apply IH. destruct (Nat.eq_dec r x) as [->|Hne].
    + right. apply deref_update_zero.
    + destruct H as [[H|H]|H]; [congruence|now left|].
      right. now rewrite deref_update_other.
Qed.

Lemma fanInMap_get l : forall (m : list (nat * list string)) r cs,
  objGet r (fold_left (fun m func => objSet func [] m) l m) = Some cs ->
  (In r l /\ cs = []) \/ objGet r m = Some cs.
Proof.
  induction l as [|x t IH]; intros m r cs H; simpl in H; [now right|].
  apply IH in H. destruct H as [[H1 H2]|H].
  - left. split; [now right|assumption].
  - rewrite objGet_objSet in H. destruct (Nat.eqb_spec r x) as [->|Hne].
    + left. split; [now left|congruence].
    + now right.
Qed.

Lemma fanInMap_dom l : forall (m : list (nat * list string)) r,
  In r l \/ objGet r m <> None ->
  objGet r (fold_left (fun m func => objSet func [] m) l m) <> None.
Proof.
  induction l as [|x t IH]; intros m r H; simpl.
  - destruct H as [[]|H]. assumption.
  - apply IH. rewrite objGet_objSet.
    destruct (Nat.eqb_spec r x) as [->|Hne]; [right; discriminate|].
    destruct H as [[H|H]|H]; [congruence|now left|now right].
Qed.

(** The condition holds when the counting starts. *)
Lemma countingInv_start a :
  countingInv a
    (fold_left (fun h func => update h func (Func.setFanIn (deref h func) 0))
       (map snd (functions a)) (heap a),
     fold_left (fun m func => objSet func [] m) (map snd (functions a)) []).
Proof.
  split; [|split]; cbn [fst snd].
  - apply reset_static.
  - intros r Hr. apply fanInMap_dom. now left.
  - intros r cs Hget. apply fanInMap_get in Hget.
    destruct Hget as [[Hr ->]|Hget]; [|discriminate].
    split; [constructor|]. split; [intros x []|].
    rewrite reset_zero; [simpl; lia|now left].
Qed.

Lemma eqb_append_l p a b : String.eqb (p ++ a) (p ++ b) = String.eqb a b.
Proof.
  induction p as [|c p IH]; simpl; [reflexivity|].
  now rewrite Ascii.eqb_refl.
Qed.

(** A call recorded in the file of a function is no external call of it. *)
Lemma countExternal_same_file call func s :
  CallRec.from call = Func.file (deref (fst s) func) ->
  countExternal call func s = Some s.
Proof.
  intros E. unfold countExternal. rewrite E, String.eqb_refl. reflexivity.
Qed.

Lemma analysisRun_eq files :
  analysisRun files
  = calculateFanInFanOut (fst (analyzeAll files newAnalyzer)).
Proof.
  unfold analysisRun, generateMetrics.
  destruct (calculateFanInFanOut (fst (analyzeAll files newAnalyzer))); reflexivity.
Qed.

(** ** The file loop *)

Lemma analyzeAll_acc files : forall a lines,
  fold_left
    (fun s file =>
       (analyzeFile (fst s) (sfPath file) (sfModule file) (sfParsed file),
        (snd s ++ [FileListed (sfPath file)])%list))
    files (a, lines)
  = (fold_left (fun a file => analyzeFile a (sfPath file) (sfModule file) (sfParsed file))
       files a,
     (lines ++ map (fun file => FileListed (sfPath file)) files)%list).
Proof.
  induction files as [|f r IH]; intros a lines; simpl.
  - now rewrite app_nil_r.
  - rewrite IH. now rewrite <- app_assoc.
Qed.

(** ** Statements of the specification *)

(** C1.  A single file with [function generateRoomId(){ return helper(); }]
    and [function helper(){ return 1; }], whatever its path and the layout
    of its text: after the run generateRoomId has fan-out 1 and fan-in 0,
    helper has fan-in 1 and fan-out 0, and the cohesion of the module
    is 1. *)
Theorem roomId_scenario (path moduleName : string) (sp : nat -> Ast.span)
    (lastOffset lastLine lastColumn : Z) :
  exists a,
    analysisRun [mkSource path moduleName
                   (Some (roomIdTree sp lastOffset lastLine lastColumn))]
    = Some a /\
    functionTable a = [("generateRoomId", ["helper"], 0, 1); ("helper", [], 1, 0)] /\
    Forall2 Qeq (cohesions a) [1%Q] /\
    Forall2 Qeq (map (fun m => File.cohesion (snd m))
                   (modules (snd (calculateCohesion a)))) [1%Q].
Proof.
  unfold analysisRun, analyzeAll. cbn [fold_left fst snd sfPath sfModule sfParsed].
  unfold analyzeFile.
  cbn. unfold mapHas. cbn [mapGet]. rewrite !eqb_append_l. cbn.
  unfold generateMetrics, calculateFanInFanOut.
  cbn -[moduleFanIn moduleFanOut].
  rewrite countExternal_same_file by reflexivity.
  rewrite countExternal_same_file by reflexivity.
  cbn -[moduleFanIn moduleFanOut].
  unfold moduleFanIn. cbn -[moduleFanOut]. rewrite !String.eqb_refl.
  cbn.
  eexists. split; [reflexivity|].
  split; [reflexivity|].
  split; cbn; repeat constructor.
Qed.

(** C2, as stated, fails: [helper] is the only function of the project and
    calls nothing, so no function calls it; the call [helper()] at the top
    level of another file gives it fan-in 1. *)
Lemma file_level_caller_counts :
  exists a,
    analysisRun [helperFile; topLevelCallFile] = Some a /\
    functions a = [("server/helper.js::helper_1", 0)] /\
    projectCallers a 0 = [] /\
    Func.fanIn (deref (heap a) 0) = 1 /\
    ~ Func.fanIn (deref (heap a) 0) <= List.length (projectCallers a 0).
Proof.
  eexists. split; [vm_compute; reflexivity|].
  repeat split; try (vm_compute; reflexivity).
  vm_compute. lia.
Qed.

(** C2, amended.  When every function of every module is in
    [this.functions], [calculateFanInFanOut] returns; and whenever it
    returns, the fan-in of every function is at most the number of
    functions of its own module, other than itself, whose call list holds
    its name, plus the number of other files with a recorded call to its
    name; each such function and each such file counts once, however often
    it calls. *)
Theorem fanIn_bound (a : analyzer) :
  (registered a = true -> exists a', calculateFanInFanOut a = Some a') /\
  (forall a' key r,
     calculateFanInFanOut a = Some a' ->
     In (key, r) (functions a) ->
     NoDup (moduleCallers a r) /\ NoDup (callingFiles a r) /\
     Func.fanIn (deref (heap a') r)
     <= List.length (moduleCallers a r) + List.length (callingFiles a r)).
Proof.
  pose proof (countingInv_start a) as H0.
  unfold calculateFanInFanOut.
  set (funcs := map snd (functions a)) in *.
  set (h0 := fold_left _ funcs (heap a)) in *.
  set (m0 := fold_left _ funcs []) in *.
  split.
  - intros Hreg.
    destruct (foldM_inv (countingInv a) countModule (modules a)) with (s := (h0, m0))
      as [s1 [E1 H1]]; [|assumption|].
    { intros m s Hm Hs. now apply countModule_succ. }
    rewrite E1.
    destruct (foldM_inv (countingInv a)
                (fun call s => foldM (countExternal call) funcs s) (calls a))
      with (s := s1) as [s2 [E2 H2]]; [|assumption|].
    { intros call s Hc Hs. apply foldM_inv; [|assumption].
      intros func s' Hf Hs'. now apply countExternal_succ. }
    rewrite E2. eauto.
  - intros a' key r E Hin.
    split; [apply NoDup_nodup|]. split; [apply NoDup_nodup|].
    destruct (foldM countModule (modules a) (h0, m0)) as [s1|] eqn:E1;
      [|discriminate].
    destruct (foldM (fun call s => foldM (countExternal call) funcs s) (calls a) s1)
      as [s2|] eqn:E2; [|discriminate].
    injection E as <-. cbn [heap].
    assert (H1 : countingInv a s1).
    { revert E1. apply foldM_pres; [|assumption].
      intros m s s' Hm Hs. now apply countModule_pres. }
    assert (H2 : countingInv a s2).
    { revert E2. apply foldM_pres; [|assumption].
      intros call s s' Hc Hs. apply foldM_pres; [|assumption].
      intros func t t' Hf Ht. now apply countExternal_pres. }
    destruct H2 as [_ [HD HC]].
    assert (Hr : In r funcs) by (apply (in_map snd _ _ Hin)).
    destruct (objGet r (snd s2)) as [cs|] eqn:E; [|now apply HD in Hr].
    destruct (HC _ _ E) as [Hnd [Hincl Hfan]].
    apply (NoDup_incl_length Hnd) in Hincl.
    unfold callerKeys in Hincl. rewrite length_app, length_map in Hincl. lia.
Qed.

Lemma fanIn_bound_witness :
  exists a',
    calculateFanInFanOut (fst (analyzeAll [helperFile; topLevelCallFile] newAnalyzer))
    = Some a' /\
    Func.fanIn (deref (heap a') 0)
    <= List.length (moduleCallers
                      (fst (analyzeAll [helperFile; topLevelCallFile] newAnalyzer)) 0)
       + List.length (callingFiles
                        (fst (analyzeAll [helperFile; topLevelCallFile] newAnalyzer)) 0).
Proof.
  destruct (proj1 (fanIn_bound (fst (analyzeAll [helperFile; topLevelCallFile]
                                       newAnalyzer))) eq_refl) as [a' E].
  exists a'. split; [exact E|].
  apply (proj2 (fanIn_bound (fst (analyzeAll [helperFile; topLevelCallFile]
                                    newAnalyzer)))
           a' "server/helper.js::helper_1" 0 E).
  vm_compute. left. reflexivity.
Defined.

(** A caller that calls [helper] twice counts once. *)
Example called_twice_counts_once :
  option_map functionTable
    (analysisRun [mkSource "server/server.js" "server" (Some calledTwiceProgram)])
  = Some [("caller", ["helper"], 0, 1); ("helper", [], 1, 0)].
Proof. vm_compute. reflexivity. Qed.



Lemma nameOf_falsy v : truthy v = false -> nameOf v = None.
Proof.
  intros H. destruct (nameOf v) as [s|] eqn:E; [|reflexivity].
  apply nameOf_truthy in E. congruence.
Qed.

(** The callback rule needs a name for the receiver and for the method. *)
Lemma callbackName_unnamed parent :
  nameOf (get "object" (get "callee" parent)) = None
  \/ nameOf (get "object" (get "callee" parent)) = Some ""
  \/ nameOf (get "property" (get "callee" parent)) = None
  \/ nameOf (get "property" (get "callee" parent)) = Some "" ->
  callbackName parent = None.
Proof.
  intros H. unfold callbackName.
  destruct (truthy (get "callee" parent) && type_is (get "callee" parent) "MemberExpression");
    [|reflexivity].
  assert (Hm : (if truthy (get "property" (get "callee" parent))
                then nameOf (get "property" (get "callee" parent)) else None)
               = nameOf (get "property" (get "callee" parent))).
  { destruct (truthy (get "property" (get "callee" parent))) eqn:E; [reflexivity|].
    symmetry. now apply nameOf_falsy. }
  assert (Ho : (if truthy (get "object" (get "callee" parent))
                then nameOf (get "object" (get "callee" parent)) else None)
               = nameOf (get "object" (get "callee" parent))).
  { destruct (truthy (get "object" (get "callee" parent))) eqn:E; [reflexivity|].
    symmetry. now apply nameOf_falsy. }
  rewrite Hm, Ho.
  destruct (nameOf (get "property" (get "callee" parent))) as [m|];
    destruct (nameOf (get "object" (get "callee" parent))) as [o|];
    try reflexivity.
  destruct H as [H|[H|[H|H]]]; try discriminate; injection H as ->;
    cbn [String.eqb negb andb]; [|reflexivity].
  now rewrite andb_false_r.
Qed.

(** C4, as stated, fails: in [this.on('evt', function(data){ })] the
    function is an argument of a call whose callee is a member access, and
    the call has a string-literal argument; yet the function is named
    [anonymous_0], which is no name of the form [object.method_evt]: the
    receiver [this] has no name. *)
Lemma unnamed_receiver_callback :
  type_is thisOnCall "CallExpression" = true /\
  type_is (get "callee" thisOnCall) "MemberExpression" = true /\
  nth_error (arrItems (get "arguments" thisOnCall)) 1 = Some thisOnCallback /\
  option_map stringValue (find isStringLiteral (arrItems (get "arguments" thisOnCall)))
  = Some "evt" /\
  resolveName thisOnCallback [mkFrame thisOnCall "arguments" (Some 1)] 0
  = ("anonymous_0", 1) /\
  functionNames (analyzed "server/server.js" "server" thisOnProgram)
  = ["anonymous_0"] /\
  (forall o m, "anonymous_0" <> o ++ "." ++ m ++ "_evt").
Proof.
  repeat (split; [vm_compute; reflexivity|]).
  intros o m H.
  repeat (destruct o as [|? o]; simpl in H; [discriminate H|injection H as _ H]).
  destruct o; simpl in H; discriminate H.
Qed.

(** C4, amended.  An anonymous function that is an argument of a call
    [object.method(...)] whose receiver [object] and whose [method] are
    plain identifiers is named [object.method_v], [v] the value of the
    first string-literal argument of the call, and [object.method_handler]
    when the call has none.  When the receiver or the method of the callee
    has no name ([this.on(...)], [a.b.on(...)], [io.of('/x').on(...)]), the
    rule does not apply: the name is the one the rest of the parent chain
    gives, a variable declarator or a property further up, or
    [anonymous_n].  The callback of [socket.on('draw', ...)] is named
    [socket.on_draw]. *)
Theorem callback_naming :
  (forall node parent args i anc counter o m,
     type_is node "FunctionExpression" = true
     \/ type_is node "ArrowFunctionExpression" = true ->
     type_is parent "CallExpression" = true ->
     get "arguments" parent = VArr args ->
     nth_error args i = Some node ->
     type_is (get "callee" parent) "MemberExpression" = true ->
     nameOf (get "object" (get "callee" parent)) = Some o -> o <> "" ->
     nameOf (get "property" (get "callee" parent)) = Some m -> m <> "" ->
     resolveName node (mkFrame parent "arguments" (Some i) :: anc) counter
     = (match find isStringLiteral args with
        | Some ev => o ++ "." ++ m ++ "_" ++ stringValue ev
        | None => o ++ "." ++ m ++ "_handler"
        end, counter))
  /\ (forall node parent i anc counter,
        type_is node "FunctionExpression" = true
        \/ type_is node "ArrowFunctionExpression" = true ->
        type_is parent "CallExpression" = true ->
        nameOf (get "object" (get "callee" parent)) = None
        \/ nameOf (get "object" (get "callee" parent)) = Some ""
        \/ nameOf (get "property" (get "callee" parent)) = None
        \/ nameOf (get "property" (get "callee" parent)) = Some "" ->
        resolveName node (mkFrame parent "arguments" (Some i) :: anc) counter
        = useResolved (walkParents false anc) counter)
  /\ functionNames (analyzed "server/server.js" "server" drawProgram)
     = ["socket.on_draw"].
Proof.
  assert (Hdecl : forall node,
            type_is node "FunctionExpression" = true
            \/ type_is node "ArrowFunctionExpression" = true ->
            type_is node "FunctionDeclaration" = false).
  { intros node Hnode.
    destruct (type_is node "FunctionDeclaration") eqn:E; [|reflexivity].
    destruct Hnode as [H|H]; pose proof (type_is_unique _ _ _ E H); discriminate. }
  split; [|split; [|vm_compute; reflexivity]].
  - intros node parent args i anc counter o m Hnode Hparent Hargs Hi Hcallee Ho Ho' Hm Hm'.
    unfold resolveName.
    rewrite (Hdecl _ Hnode). unfold walkParents. cbn [fparent].
    rewrite Hparent, Hargs. unfold argumentsInclude. cbn [fkey findex truthy andb].
    rewrite String.eqb_refl. cbn [andb].
    unfold callbackName.
    rewrite Hcallee, (type_is_truthy _ _ Hcallee). cbn [andb].
    rewrite (nameOf_truthy _ Ho), (nameOf_truthy _ Hm), Ho, Hm.
    rewrite (eqb_empty_false Ho'), (eqb_empty_false Hm'). cbn [negb andb].
    rewrite Hargs. cbn [arrItems].
    destruct (find isStringLiteral args); reflexivity.
  - intros node parent i anc counter Hnode Hparent Hnames.
    unfold resolveName. rewrite (Hdecl _ Hnode). cbn [walkParents fparent].
    rewrite (callbackName_unnamed _ Hnames).
    assert (Hv : type_is parent "VariableDeclarator" = false).
    { destruct (type_is parent "VariableDeclarator") eqn:E; [|reflexivity].
      pose proof (type_is_unique _ _ _ E Hparent). discriminate. }
    assert (Hp : type_is parent "Property" = false).
    { destruct (type_is parent "Property") eqn:E; [|reflexivity].
      pose proof (type_is_unique _ _ _ E Hparent). discriminate. }
    rewrite Hv, Hp. cbn [andb].
    destruct (type_is parent "CallExpression" && truthy (get "arguments" parent)
              && argumentsInclude true (mkFrame parent "arguments" (Some i)));
      reflexivity.
Qed.

Lemma callback_naming_witness :
  resolveName drawCallback (mkFrame drawCall "arguments" (Some 1) :: []) 0
  = ("socket.on_draw", 0).
Proof.
  apply (proj1 callback_naming drawCallback drawCall
           [Ast.StringLiteral "draw" "'draw'" (Ast.on 1 0 10 16); drawCallback]
           1 [] 0 "socket" "on");
    try reflexivity; try discriminate.
  left. reflexivity.
Defined.

(** C5.  The code at a module of three functions that share no call, no
    parameter name, no dependency and no keyword, each with one parameter:
    [sharedParams] holds of a pair with different parameter names, every
    pair counts as related, the cohesion is 1 and the rating "High".
    Three such functions without parameters give cohesion 0 and "Low".
    In general [sharedParams] holds of two functions as soon as each has a
    parameter. *)
Theorem unrelated_functions_cohesion :
  (exists a,
     analysisRun [mkSource "server/server.js" "server" (Some threeParamsProgram)]
     = Some a /\
     map (fun f => (Func.name f, Func.params f, Func.calls f)) (heap a)
     = [("alpha", ["a"], []); ("beta", ["b"], []); ("gamma", ["c"], [])] /\
     (let alpha := deref (heap a) 0 in
      let beta := deref (heap a) 1 in
      callsEachOther alpha beta = false /\
      existsb (fun p => mem p (Func.params beta)) (Func.params alpha) = false /\
      sharedDeps alpha beta = false /\ similarData alpha beta = false /\
      sharedParams alpha beta = true) /\
     Forall2 Qeq (cohesions a) [1%Q] /\
     cohesionRatings a = [Some "High"]) /\
  (exists a,
     analysisRun [mkSource "server/server.js" "server" (Some threeBareProgram)]
     = Some a /\
     Forall2 Qeq (cohesions a) [0%Q] /\
     cohesionRatings a = [Some "Low"]) /\
  (forall f1 f2,
     sharedParams f1 f2
     = match Func.params f1, Func.params f2 with
       | _ :: _, _ :: _ => true
       | _, _ => false
       end).
Proof.
  split; [|split].
  - eexists. split; [vm_compute; reflexivity|].
    split; [vm_compute; reflexivity|].
    split; [vm_compute; repeat split; reflexivity|].
    split; vm_compute; repeat constructor.
  - eexists. split; [vm_compute; reflexivity|].
    split; vm_compute; repeat constructor.
  - intros f1 f2. unfold sharedParams.
    destruct (Func.params f2) as [|q qs].
    + assert (E : forall (g : string -> bool) l,
                 (forall p, g p = false) -> existsb g l = false).
      { intros g l Hg. induction l as [|x r IH]; simpl; [reflexivity|].
        now rewrite Hg, IH. }
      rewrite !E by reflexivity. now destruct (Func.params f1).
    + destruct (Func.params f1) as [|p ps]; [reflexivity|].
      apply orb_true_iff. right. simpl.
      now rewrite orb_true_r.
Qed.

(** C6.  Every function has an entry whose complexity is the square of
    fan-in times fan-out when both are positive and 0 otherwise, rated
    "None" when both are zero, "Low" when exactly one is zero, "Very High"
    above 100, "High" above 25 up to 100, "Medium" above 5 up to 25 and
    "Low" otherwise. *)
Theorem ifc_and_rating (a : analyzer) (key : string) (r : nat) :
  In (key, r) (functions a) ->
  let F := deref (heap a) r in
  exists e,
    In e (calculateInformationFlowComplexity a) /\
    IFC.function e = Func.name F /\
    IFC.fanIn e = Func.fanIn F /\ IFC.fanOut e = Func.fanOut F /\
    (0 < Func.fanIn F -> 0 < Func.fanOut F ->
     IFC.informationFlowComplexity e = (Func.fanIn F * Func.fanOut F) ^ 2) /\
    (Func.fanIn F = 0 \/ Func.fanOut F = 0 -> IFC.informationFlowComplexity e = 0) /\
    (Func.fanIn F = 0 -> Func.fanOut F = 0 -> IFC.rating e = "None") /\
    ((Func.fanIn F = 0 /\ Func.fanOut F <> 0)
     \/ (Func.fanIn F <> 0 /\ Func.fanOut F = 0) -> IFC.rating e = "Low") /\
    (100 < IFC.informationFlowComplexity e -> IFC.rating e = "Very High") /\
    (25 < IFC.informationFlowComplexity e <= 100 -> IFC.rating e = "High") /\
    (5 < IFC.informationFlowComplexity e <= 25 -> IFC.rating e = "Medium") /\
    (Func.fanIn F <> 0 -> Func.fanOut F <> 0 ->
     IFC.informationFlowComplexity e <= 5 -> IFC.rating e = "Low").
Proof.
  intros Hin F.
  eexists. split.
  { unfold calculateInformationFlowComplexity.
    apply (in_map (fun kv => _) _ _ Hin). }
  cbn [snd IFC.function IFC.fanIn IFC.fanOut IFC.informationFlowComplexity IFC.rating].
  fold F. unfold ifcRating, ifcOf.
  generalize (Func.fanIn F) as fi, (Func.fanOut F) as fo. intros fi fo.
  assert (Hpos : 0 < fi -> 0 < fo -> 0 < (fi * fo) ^ 2).
  { intros. apply Nat.neq_0_lt_0, Nat.pow_nonzero. nia. }
  repeat split; intros;
    repeat match goal with
           | H : _ /\ _ |- _ => destruct H
           | H : _ \/ _ |- _ => destruct H
           end; subst;
    repeat match goal with
           | |- context [Nat.ltb ?x ?y] => destruct (Nat.ltb_spec x y)
           | |- context [Nat.eqb ?x ?y] => destruct (Nat.eqb_spec x y)
           | H : context [Nat.ltb ?x ?y] |- _ => destruct (Nat.ltb_spec x y)
           end; cbn [andb orb] in *; try reflexivity; try lia.
Qed.

Lemma ifc_and_rating_witness :
  exists e,
    In e (calculateInformationFlowComplexity
            (analyzed "server/server.js" "server" roomIdProgram)) /\
    IFC.function e = "generateRoomId" /\ IFC.rating e = "Low".
Proof.
  destruct (ifc_and_rating (analyzed "server/server.js" "server" roomIdProgram)
              "server/server.js::generateRoomId_1" 0)
    as [e [Hin [Hname [Hfi [Hfo [_ [_ [_ [Hlow _]]]]]]]]].
  - vm_compute. left. reflexivity.
  - exists e. split; [exact Hin|]. split; [exact Hname|].
    apply Hlow. left. split; [reflexivity|discriminate].
Defined.

(** C7.  The code at one module whose only function, [socket.on_draw] of
    the group socket-handlers, calls [generateRoomId], a keyword of the
    group room-management: the call is counted from socket-handlers to
    room-management, not from room-management to socket-handlers, and no
    coupling pair is reported. *)
Theorem handler_to_room_call_not_counted :
  exists a m,
    analysisRun [mkSource "server/server.js" "server" (Some drawRoomProgram)]
    = Some a /\
    modules a = [("server/server.js", m)] /\
    functionTable a = [("socket.on_draw", ["generateRoomId"], 0, 1)] /\
    groupCalls (heap a) m (groupNamed "socket-handlers") (groupNamed "room-management")
    = 1 /\
    groupCalls (heap a) m (groupNamed "room-management") (groupNamed "socket-handlers")
    = 0 /\
    callsEitherWay (heap a) m (groupNamed "room-management")
      (groupNamed "socket-handlers") = 1 /\
    calculateCoupling a = Coupling.mk 0 0 [].
Proof.
  do 2 eexists. split; [vm_compute; reflexivity|].
  split; [vm_compute; reflexivity|].
  repeat split; vm_compute; reflexivity.
Qed.

(** C8, as stated, fails: the call [setTimeout(tick, 1000)] is left out
    of the call list of [tick] and recorded in the call list of the file;
    and the member call [this.setTimeout()] puts the name [setTimeout] in
    the call list of the function around it. *)
Lemma file_list_keeps_builtin :
  functionTable (analyzed "server/server.js" "server" timerProgram)
  = [("tick", [], 0, 0)] /\
  (exists c,
     In c (File.calls (fst (analyzeAST timerProgram
                              (newFileInfo "server/server.js" "server") newAnalyzer))) /\
     mem (File.cname c) builtins = true) /\
  (exists x,
     In x (Func.calls (extractCalls thisTimerCall dummyFunc)) /\
     mem x builtins = true).
Proof.
  split; [vm_compute; reflexivity|]. split.
  - eexists. split; [vm_compute; left; reflexivity|reflexivity].
  - exists "setTimeout". split; [vm_compute; left; reflexivity|reflexivity].
Qed.

(** C8, amended.  A name of the deny-list in the call list [extractCalls]
    builds was there before or is the name of a member call, never of a
    direct-identifier call; and the call list of a file holds no entry
    named [require] or [console], each entry being the callee name of a
    call or member node of the tree. *)
Theorem builtin_filtering :
  (forall body fi x,
     mem x builtins = true ->
     In x (Func.calls (extractCalls body fi)) ->
     In x (Func.calls fi) \/
     exists c, Direct body c /\ type_is c "CallExpression" = true /\
               type_is (get "callee" c) "Identifier" = false /\
               type_is (get "callee" c) "MemberExpression" = true /\
               getCalleeName c = Some x) /\
  (forall ast fi a c,
     In c (File.calls (fst (analyzeAST ast fi a))) ->
     In c (File.calls fi) \/
     (File.cname c <> "require" /\ File.cname c <> "console" /\
      exists node, In node (allNodes ast) /\ isCallOrMember node = true /\
                   getCalleeName node = Some (File.cname c))).
Proof.
  split.
  - intros body fi x Hb H.
    apply extractCalls_origin in H. destruct H as [H|[c [D E]]]; [now left|].
    right. exists c. split; [exact D|].
    unfold recordName in E.
    destruct (type_is c "CallExpression"); [|discriminate].
    split; [reflexivity|].
    destruct (type_is (get "callee" c) "Identifier").
    + destruct (nameOf (get "callee" c)) as [f|]; [|discriminate].
      destruct (mem f builtins) eqn:M; [discriminate|].
      injection E as ->. congruence.
    + split; [reflexivity|].
      destruct (type_is (get "callee" c) "MemberExpression"); [|discriminate].
      split; [reflexivity|].
      destruct (getCalleeName c) as [s|]; [|discriminate].
      destruct (String.eqb s ""); [discriminate|]. exact E.
  - intros ast fi a c H.
    unfold analyzeAST in H. cbn [fst] in H.
    rewrite traverse_calls in H. cbn [fileInfo] in H.
    apply in_app_or in H. destruct H as [H|H]; [now left|].
    right. apply in_flat_map in H. destruct H as [node [Hn Hc]].
    apply fileRecord_In in Hc. destruct Hc as [H1 [H2 [_ [H3 H4]]]].
    split; [exact H3|]. split; [exact H4|]. exists node. auto.
Qed.

Lemma builtin_filtering_witness :
  In "setTimeout" (Func.calls (extractCalls thisTimerCall dummyFunc)) /\
  (In "setTimeout" (Func.calls dummyFunc) \/
   exists c, Direct thisTimerCall c /\ type_is c "CallExpression" = true /\
             type_is (get "callee" c) "Identifier" = false /\
             type_is (get "callee" c) "MemberExpression" = true /\
             getCalleeName c = Some "setTimeout").
Proof.
  assert (H : In "setTimeout" (Func.calls (extractCalls thisTimerCall dummyFunc))).
  { vm_compute. left. reflexivity. }
  split; [exact H|].
  exact (proj1 builtin_filtering thisTimerCall dummyFunc "setTimeout" eq_refl H).
Defined.

(** C9, as stated, fails: for a file that cannot be parsed the loop writes
    what it writes for a file that can, the line listing it, and nothing
    else. *)
Lemma parse_failure_is_silent :
  snd (analyzeAll [mkSource "client/app/page.jsx" "page" None] newAnalyzer)
  = [FileListed "client/app/page.jsx"] /\
  snd (analyzeAll [mkSource "client/app/page.jsx" "page" (Some helperProgram)] newAnalyzer)
  = [FileListed "client/app/page.jsx"].
Proof. split; reflexivity. Qed.

(** C9, amended.  A file whose parsing fails leaves the analyzer as it
    was, so it takes no part in any graph; nothing is written for the
    failure, the lines written list one file each; and the files after it
    are analysed as if it were absent. *)
Theorem parse_failure_skips_file (before after : list sourceFile)
    (bad : sourceFile) (a : analyzer) :
  sfParsed bad = None ->
  analyzeFile a (sfPath bad) (sfModule bad) (sfParsed bad) = a /\
  fst (analyzeAll (before ++ bad :: after) a) = fst (analyzeAll (before ++ after) a) /\
  snd (analyzeAll (before ++ bad :: after) a)
  = map (fun file => FileListed (sfPath file)) (before ++ bad :: after).
Proof.
  intros H. split; [now rewrite H|].
  unfold analyzeAll. rewrite !analyzeAll_acc. cbn [fst snd app].
  split; [|reflexivity].
  rewrite !fold_left_app. cbn [fold_left]. now rewrite H.
Qed.

Lemma parse_failure_skips_file_witness :
  fst (analyzeAll [helperFile; mkSource "client/app/page.jsx" "page" None;
                   topLevelCallFile] newAnalyzer)
  = fst (analyzeAll [helperFile; topLevelCallFile] newAnalyzer).
Proof.
  exact (proj1 (proj2 (parse_failure_skips_file [helperFile] [topLevelCallFile]
                         (mkSource "client/app/page.jsx" "page" None)
                         newAnalyzer eq_refl))).
Defined.

(** C10, as stated, fails: the call of [(function(){ })()] is a call node
    of the tree, no callee name is derived for it, and the call list of the
    file stays empty. *)
Lemma iife_has_no_record :
  In iifeCall (allNodes iifeProgram) /\
  type_is iifeCall "CallExpression" = true /\
  getCalleeName iifeCall = None /\
  File.calls (fst (analyzeAST iifeProgram
                     (newFileInfo "server/server.js" "server") newAnalyzer)) = [].
Proof.
  split; [vm_compute; tauto|]. repeat split; vm_compute; reflexivity.
Qed.

(** C10, amended.  The call list of a file, and [this.calls] with it,
    receives in visiting order the entry of every call or member node of
    the tree, function bodies included; a node gets one entry, named by the
    callee name derived for it, unless no name or the empty name is derived
    or the name is [require] or [console]; [a.b()] gives two entries named
    [a.b], and the call inside [generateRoomId] is recorded. *)
Theorem file_call_list :
  (forall ast fi a,
     File.calls (fst (analyzeAST ast fi a))
     = (File.calls fi ++ flat_map fileRecord (allNodes ast))%list) /\
  (forall ast fi a,
     calls (snd (analyzeAST ast fi a))
     = (calls a
        ++ map (fun c => CallRec.mk (File.path fi) (File.cname c) (File.cline c))
               (flat_map fileRecord (allNodes ast)))%list) /\
  (forall node s,
     isCallOrMember node = true -> getCalleeName node = Some s ->
     s <> "" -> s <> "require" -> s <> "console" ->
     fileRecord node = [File.mkCall s (lineOf node) (nodeType node)]) /\
  (forall node,
     fileRecord node = [] <->
     (isCallOrMember node = false \/ getCalleeName node = None \/
      getCalleeName node = Some "" \/ getCalleeName node = Some "require" \/
      getCalleeName node = Some "console")) /\
  map File.cname
    (File.calls (fst (analyzeAST methodCallProgram
                        (newFileInfo "server/server.js" "server") newAnalyzer)))
  = ["a.b"; "a.b"] /\
  map File.cname
    (File.calls (fst (analyzeAST roomIdProgram
                        (newFileInfo "server/server.js" "server") newAnalyzer)))
  = ["helper"].
Proof.
  split; [|split; [|split; [|split; [|split]]]].
  - intros ast fi a. unfold analyzeAST. cbn [fst]. now rewrite traverse_calls.
  - intros ast fi a. unfold analyzeAST. cbn [snd]. now rewrite traverse_an_calls.
  - intros node s H E H1 H2 H3. unfold fileRecord, recordable. rewrite H, E.
    apply String.eqb_neq in H1, H2, H3. now rewrite H1, H2, H3.
  - intros node. unfold fileRecord, recordable.
    destruct (isCallOrMember node); [|tauto].
    destruct (getCalleeName node) as [s|]; [|tauto].
    destruct (String.eqb_spec s ""); [subst; tauto|].
    destruct (String.eqb_spec s "require"); [subst; tauto|].
    destruct (String.eqb_spec s "console"); [subst; tauto|].
    cbn [negb andb]. split; [discriminate|].
    intros [H|[H|[H|[H|H]]]]; try discriminate; injection H; contradiction.
  - vm_compute; reflexivity.
  - vm_compute; reflexivity.
Qed.

Lemma file_call_list_witness :
  fileRecord deepCall = [File.mkCall "deep" 1 "CallExpression"].
Proof.
  apply (proj1 (proj2 (proj2 file_call_list)) deepCall "deep");
    try reflexivity; discriminate.
Defined.


(** * Further properties of the analyzer *)

(** ** The call extractor *)

(** A condition [extractHere] keeps is kept by the whole scan. *)
Lemma extractCalls_inv (P : Func.t -> Prop) :
  (forall node fi, P fi -> P (extractHere node fi)) ->
  forall node fi, P fi -> P (extractCalls node fi).
Proof.
  intros step node. induction node as [n IH] using kids_ind. intros fi H.
  rewrite extractCalls_eq. destruct (isFunctionNode n); [assumption|].
  apply (step n) in H. revert H.
  generalize (extractHere n fi) as fi0.
  induction (kids n) as [|c r IHr]; simpl; intros fi0 H; [assumption|].
  apply IHr.
  - intros c' Hc'. apply IH. now right.
  - destruct (negb (isFunctionNode (snd c))); [|assumption].
    apply IH; [now left|assumption].
Qed.

Lemma extractHere_NoDup node fi :
  NoDup (Func.calls fi) -> NoDup (Func.calls (extractHere node fi)).
Proof.
  intros H. rewrite extractHere_calls.
  destruct (recordName node) as [s|]; [|assumption].
  destruct (mem s (Func.calls fi)) eqn:M; [assumption|].
  apply NoDup_app; [assumption|repeat constructor; intros []|].
  intros x Hx [<-|[]]. apply mem_false in M. contradiction.
Qed.

(** X1.  [extractCalls] never records a name twice: a call list without
    duplicates stays without duplicates, so the list of a function, which
    starts empty, has none. *)
Theorem extractCalls_no_duplicates (body : jsval) (fi : Func.t) :
  NoDup (Func.calls fi) -> NoDup (Func.calls (extractCalls body fi)).
Proof.
  apply (extractCalls_inv (fun f => NoDup (Func.calls f))).
  intros node f. apply extractHere_NoDup.
Qed.

Lemma extractCalls_no_duplicates_witness :
  NoDup (Func.calls (extractCalls outerBody dummyFunc)).
Proof.
  apply (extractCalls_no_duplicates outerBody dummyFunc). simpl. constructor.
Defined.

Lemma extractHere_grows node fi :
  exists added,
    Func.calls (extractHere node fi) = (Func.calls fi ++ added)%list /\
    Func.fanOut fi <= Func.fanOut (extractHere node fi) /\
    Func.fanOut (extractHere node fi) <= Func.fanOut fi + List.length added /\
    Func.setCalls (extractHere node fi) (Func.calls fi) (Func.fanOut fi) = fi.
Proof.
  assert (Same : exists added,
             Func.calls fi = (Func.calls fi ++ added)%list /\
             Func.fanOut fi <= Func.fanOut fi /\
             Func.fanOut fi <= Func.fanOut fi + List.length added /\
             Func.setCalls fi (Func.calls fi) (Func.fanOut fi) = fi).
  { exists []. rewrite app_nil_r. repeat split; try lia. now destruct fi. }
  unfold extractHere, recordCall.
  destruct (type_is node "CallExpression"); [|exact Same].
  destruct (type_is (get "callee" node) "Identifier").
  - destruct (nameOf (get "callee" node)) as [f|]; [|exact Same].
    destruct (negb (mem f builtins) && negb (mem f (Func.calls fi))); [|exact Same].
    exists [f]. simpl. repeat split; try lia. now destruct fi.
  - destruct (type_is (get "callee" node) "MemberExpression"); [|exact Same].
    destruct (getCalleeName node) as [s|]; [|exact Same].
    destruct (negb (String.eqb s "") && negb (mem s (Func.calls fi))); [|exact Same].
    exists [s]. simpl. repeat split; try lia. now destruct fi.
Qed.

Lemma extractCalls_grows (body : jsval) (fi : Func.t) :
  exists added,
    Func.calls (extractCalls body fi) = (Func.calls fi ++ added)%list /\
    Func.fanOut fi <= Func.fanOut (extractCalls body fi) /\
    Func.fanOut (extractCalls body fi) <= Func.fanOut fi + List.length added /\
    Func.setCalls (extractCalls body fi) (Func.calls fi) (Func.fanOut fi) = fi.
Proof.
  apply (extractCalls_inv
           (fun f => exists added,
                Func.calls f = (Func.calls fi ++ added)%list /\
                Func.fanOut fi <= Func.fanOut f /\
                Func.fanOut f <= Func.fanOut fi + List.length added /\
                Func.setCalls f (Func.calls fi) (Func.fanOut fi) = fi)).
  - intros node f [added [Hc [Hlo [Hhi Hrest]]]].
    destruct (extractHere_grows node f) as [more [Hc' [Hlo' [Hhi' Hrest']]]].
    exists (added ++ more)%list. rewrite Hc', Hc, app_assoc, length_app.
    repeat split; try lia.
    change (Func.setCalls (extractHere node f) (Func.calls fi) (Func.fanOut fi))
      with (Func.setCalls
              (Func.setCalls (extractHere node f) (Func.calls f) (Func.fanOut f))
              (Func.calls fi) (Func.fanOut fi)).
    now rewrite Hrest'.
  - exists []. rewrite app_nil_r. repeat split; try lia. now destruct fi.
Qed.

(** X2.  [extractCalls] only appends to the call list and only raises the
    fan-out, by at most the number of names it appends; the other fields
    of the [funcInfo] are left as they were. *)
Theorem extractCalls_appends (body : jsval) (fi : Func.t) :
  exists added,
    Func.calls (extractCalls body fi) = (Func.calls fi ++ added)%list /\
    Func.fanOut fi <= Func.fanOut (extractCalls body fi) /\
    Func.fanOut (extractCalls body fi) <= Func.fanOut fi + List.length added /\
    Func.setCalls (extractCalls body fi) (Func.calls fi) (Func.fanOut fi) = fi.
Proof. exact (extractCalls_grows body fi). Qed.

Lemma extractCalls_fields body fi :
  Func.name (extractCalls body fi) = Func.name fi /\
  Func.file (extractCalls body fi) = Func.file fi /\
  Func.module (extractCalls body fi) = Func.module fi /\
  Func.line (extractCalls body fi) = Func.line fi /\
  Func.params (extractCalls body fi) = Func.params fi /\
  Func.fanIn (extractCalls body fi) = Func.fanIn fi.
Proof.
  destruct (extractCalls_grows body fi) as [_ [_ [_ [_ H]]]].
  rewrite <- H at 2 4 6 8 10 12. repeat split.
Qed.

(** The fan-out changes at direct-identifier calls only. *)
Lemma extractHere_fanOut_member node fi :
  (type_is node "CallExpression" = true ->
   type_is (get "callee" node) "Identifier" = false) ->
  Func.fanOut (extractHere node fi) = Func.fanOut fi.
Proof.
  intros H. unfold extractHere, recordCall.
  destruct (type_is node "CallExpression"); [|reflexivity].
  rewrite (H eq_refl).
  destruct (type_is (get "callee" node) "MemberExpression"); [|reflexivity].
  destruct (getCalleeName node) as [s|]; [|reflexivity].
  destruct (negb (String.eqb s "") && negb (mem s (Func.calls fi))); reflexivity.
Qed.

Lemma Direct_cases n c :
  Direct n c -> c = n \/ exists k, In k (kids n) /\ Direct (snd k) c.
Proof.
  intros D. inversion D as [m Hm|m k d Hm Hk Hd]; subst; [now left|].
  right. exists k. auto.
Qed.

(** Case analysis over the nodes reached from a given tree. *)
Ltac walk_direct D :=
  let k := fresh "k" in
  let Hk := fresh "Hk" in
  apply Direct_cases in D;
  destruct D as [->|[k [Hk D]]];
  [|simpl in Hk;
    repeat (destruct Hk as [<-|Hk]; [simpl in D; walk_direct D|]);
    try contradiction].

(** X3.  Member calls never count as fan-out: when no call reached from
    the body without entering a nested function has an identifier as
    callee, the scan leaves the fan-out as it was. *)
Theorem member_calls_add_no_fanOut : forall (body : jsval) (fi : Func.t),
  (forall c, Direct body c -> type_is c "CallExpression" = true ->
             type_is (get "callee" c) "Identifier" = false) ->
  Func.fanOut (extractCalls body fi) = Func.fanOut fi.
Proof.
  intros body. induction body as [n IH] using kids_ind. intros fi H.
  rewrite extractCalls_eq. destruct (isFunctionNode n) eqn:Hn; [reflexivity|].
  assert (Hhere : Func.fanOut (extractHere n fi) = Func.fanOut fi).
  { apply extractHere_fanOut_member. apply H. now constructor. }
  rewrite <- Hhere. clear Hhere.
  generalize (extractHere n fi) as fi0.
  assert (Hk : forall c, In c (kids n) -> In c (kids n)) by auto.
  revert Hk. generalize (kids n) at 1 3 as l.
  induction l as [|c r IHr]; simpl; intros Hk fi0; [reflexivity|].
  rewrite IHr by (intros c' Hc'; apply Hk; now right).
  destruct (isFunctionNode (snd c)) eqn:Hc; simpl; [reflexivity|].
  apply IH; [apply Hk; now left|].
  intros d Hd. apply H. eapply DirectChild; eauto.
Qed.

Lemma member_calls_add_no_fanOut_witness :
  Func.calls (extractCalls thisTimerCall dummyFunc) = ["setTimeout"] /\
  Func.fanOut (extractCalls thisTimerCall dummyFunc) = 0.
Proof.
  split; [reflexivity|].
  apply (@member_calls_add_no_fanOut thisTimerCall dummyFunc).
  intros c D. walk_direct D; vm_compute; intros; congruence.
Defined.

(** ** The walk over the syntax tree *)

(** A condition [visit] keeps is kept by the whole walk. *)
Lemma traverse_inv (P : tstate -> Prop) :
  (forall node anc st, P st -> P (visit node anc st)) ->
  forall node anc st, P st -> P (traverse node anc st).
Proof.
  intros step node. induction node as [n IH] using kids_ind. intros anc st H.
  rewrite traverse_eq. apply (step n anc) in H. revert H.
  generalize (visit n anc st) as st0.
  generalize (if isFunctionNode n then [] else anc) as up.
  induction (kids n) as [|c r IHr]; simpl; intros up st0 H; [assumption|].
  apply IHr; [intros c' Hc'; apply IH; now right|].
  apply IH; [now left|assumption].
Qed.

Lemma mapSet_absent (V : Type) k (v : V) : forall m,
  mapHas k m = false -> mapSet k v m = (m ++ [(k, v)])%list.
Proof.
  unfold mapHas. induction m as [|[k' v'] r IH]; simpl; intros H; [reflexivity|].
  destruct (String.eqb k k'); [discriminate|]. now rewrite IH.
Qed.

Lemma mapGet_mapSet (V : Type) k' (v : V) : forall m k,
  mapGet k (mapSet k' v m) = if String.eqb k k' then Some v else mapGet k m.
Proof.
  induction m as [|[k0 v0] r IH]; intros k; simpl.
  - destruct (String.eqb k k'); reflexivity.
  - destruct (String.eqb_spec k' k0) as [->|Hk]; simpl.
    + destruct (String.eqb k k0); reflexivity.
    + rewrite IH. destruct (String.eqb_spec k k0) as [->|Hr].
      * destruct (String.eqb_spec k0 k'); [congruence|reflexivity].
      * reflexivity.
Qed.

Lemma mapSet_keys (V : Type) k (v : V) : forall m,
  map fst (mapSet k v m)
  = if mapHas k m then map fst m else (map fst m ++ [k])%list.
Proof.
  unfold mapHas. induction m as [|[k' v'] r IH]; simpl; [reflexivity|].
  destruct (String.eqb_spec k k') as [->|Hk]; simpl; [reflexivity|].
  rewrite IH. destruct (mapGet k r); reflexivity.
Qed.

Lemma extends_refl a : extends a a.
Proof.
  repeat split; exists []; now rewrite app_nil_r.
Qed.

Lemma extends_trans a b c : extends a b -> extends b c -> extends a c.
Proof.
  intros [M1 [[f1 F1] [[c1 C1] [h1 H1]]]] [M2 [[f2 F2] [[c2 C2] [h2 H2]]]].
  split; [congruence|].
  split; [exists (f1 ++ f2)%list; now rewrite F2, F1, app_assoc|].
  split; [exists (c1 ++ c2)%list; now rewrite C2, C1, app_assoc|].
  exists (h1 ++ h2)%list. now rewrite H2, H1, app_assoc.
Qed.

(** The three steps of [visit] after the function step leave the file's
    functions, path and name and the heap alone. *)
Lemma recordSteps_frame node st :
  let st' := recordFileCall node (recordExport node (recordImport node st)) in
  File.functions (fileInfo st') = File.functions (fileInfo st) /\
  File.path (fileInfo st') = File.path (fileInfo st) /\
  File.name (fileInfo st') = File.name (fileInfo st) /\
  heap (an st') = heap (an st) /\
  functionCounter st' = functionCounter st /\
  extends (an st) (an st').
Proof.
  unfold recordFileCall, recordExport, recordImport.
  repeat match goal with
         | |- context [if ?b then _ else _] => destruct b
         | |- context [match ?o with Some _ => _ | None => _ end] => destruct o
         end; cbn;
    repeat split; try reflexivity; try (exists []; now rewrite app_nil_r);
    eexists; reflexivity.
Qed.

Lemma registerFunction_extends node f c st :
  extends (an st) (an (registerFunction node f c st)).
Proof.
  unfold registerFunction.
  match goal with |- context [if existsb ?p ?l then _ else _] =>
    destruct (existsb p l) end; cbn [an]; [apply extends_refl|].
  split; [reflexivity|]. cbn [functions calls heap].
  split; [|split; [exists []; now rewrite app_nil_r|eexists; reflexivity]].
  match goal with |- context [if mapHas ?k ?m then _ else _] =>
    destruct (mapHas k m) eqn:E end.
  - exists []. now rewrite app_nil_r.
  - rewrite (mapSet_absent _ _ _ E). eexists; reflexivity.
Qed.

Lemma visit_extends node anc st :
  extends (an st) (an (visit node anc st)).
Proof.
  unfold visit.
  match goal with |- context [recordImport node ?s] => set (st1 := s) end.
  apply extends_trans with (b := an st1).
  - unfold st1. destruct (newFuncInfo node anc st) as [[f c]|];
      [apply registerFunction_extends|apply extends_refl].
  - apply recordSteps_frame.
Qed.

Lemma traverse_extends node anc st :
  extends (an st) (an (traverse node anc st)).
Proof.
  apply (traverse_inv (fun s => extends (an st) (an s))).
  - intros n up s H. eapply extends_trans; [exact H|apply visit_extends].
  - apply extends_refl.
Qed.

Lemma deref_app h h' r : r < List.length h -> deref (h ++ h') r = deref h r.
Proof. intros H. unfold deref. now apply app_nth1. Qed.

Lemma deref_new h f : deref (h ++ [f]) (List.length h) = f.
Proof. unfold deref. rewrite app_nth2, Nat.sub_diag by lia. reflexivity. Qed.

(** X4.  Analysing a file never alters what earlier files left: the
    function table, the call list and the heap of [funcInfo] objects are
    extended at the end, so every earlier object is found unchanged at its
    address; a file that cannot be parsed adds nothing. *)
Theorem analyzeFile_extends (a : analyzer) (filePath moduleName : string)
    (parsed : option jsval) :
  let a' := analyzeFile a filePath moduleName parsed in
  (exists f, functions a' = (functions a ++ f)%list) /\
  (exists c, calls a' = (calls a ++ c)%list) /\
  (exists h, heap a' = (heap a ++ h)%list) /\
  (forall r, r < List.length (heap a) -> deref (heap a') r = deref (heap a) r) /\
  (parsed = None -> a' = a).
Proof.
  cbv zeta.
  assert (E : (exists f, functions (analyzeFile a filePath moduleName parsed)
                         = (functions a ++ f)%list) /\
              (exists c, calls (analyzeFile a filePath moduleName parsed)
                         = (calls a ++ c)%list) /\
              (exists h, heap (analyzeFile a filePath moduleName parsed)
                         = (heap a ++ h)%list)).
  { destruct parsed as [ast|].
    - unfold analyzeFile, analyzeAST.
      destruct (traverse_extends ast [] (mkT (newFileInfo filePath moduleName) a 0))
        as [M [F [C H]]].
      cbn [an functions calls heap] in *. auto.
    - cbn [analyzeFile]. repeat split; exists []; now rewrite app_nil_r. }
  destruct E as [F [C [h H]]].
  split; [assumption|]. split; [assumption|]. split; [now exists h|]. split.
  - intros r Hr. rewrite H. now apply deref_app.
  - intros ->. reflexivity.
Qed.

Lemma traverse_name node anc st :
  File.name (fileInfo (traverse node anc st)) = File.name (fileInfo st).
Proof.
  apply (traverse_inv (fun s => File.name (fileInfo s) = File.name (fileInfo st)));
    [|reflexivity].
  intros n up s H. rewrite <- H. unfold visit.
  match goal with |- context [recordImport n ?s1] => set (st1 := s1) end.
  destruct (recordSteps_frame n st1) as [_ [_ [N _]]]. rewrite N.
  unfold st1. destruct (newFuncInfo n up s) as [[f c]|]; [|reflexivity].
  unfold registerFunction.
  match goal with |- context [if existsb ?p ?l then _ else _] =>
    destruct (existsb p l) end; reflexivity.
Qed.

(** X5.  [analyzeFile] stores the [fileInfo] under the path of the file,
    with that path and the module name in it; the modules of other paths
    stay as they were, and analysing a path again replaces its module in
    place instead of adding a second one. *)
Theorem analyzeFile_module (a : analyzer) (filePath moduleName : string)
    (ast : jsval) :
  let a' := analyzeFile a filePath moduleName (Some ast) in
  (exists fi, mapGet filePath (modules a') = Some fi /\
              fi = fst (analyzeAST ast (newFileInfo filePath moduleName) a) /\
              File.path fi = filePath /\ File.name fi = moduleName) /\
  (forall p, p <> filePath -> mapGet p (modules a') = mapGet p (modules a)) /\
  map fst (modules a')
  = if mapHas filePath (modules a) then map fst (modules a)
    else (map fst (modules a) ++ [filePath])%list.
Proof.
  cbv zeta. unfold analyzeFile, analyzeAST. cbn [fst modules].
  destruct (traverse_extends ast [] (mkT (newFileInfo filePath moduleName) a 0))
    as [M _]. cbn [an] in M. rewrite M.
  split; [|split].
  - eexists. rewrite mapGet_mapSet, String.eqb_refl.
    split; [reflexivity|]. split; [reflexivity|].
    now rewrite traverse_path, traverse_name.
  - intros p Hp. rewrite mapGet_mapSet.
    apply String.eqb_neq in Hp. now rewrite Hp.
  - apply mapSet_keys.
Qed.

Lemma newFuncInfo_fields node anc st f c :
  newFuncInfo node anc st = Some (f, c) ->
  Func.file f = File.path (fileInfo st) /\
  Func.module f = File.name (fileInfo st) /\
  Func.calls f = [] /\ Func.fanOut f = 0 /\ Func.fanIn f = 0 /\
  functionCounter st <= c.
Proof.
  unfold newFuncInfo. destruct (isFunctionNode node); [|discriminate].
  destruct (resolveName node anc (functionCounter st)) as [n c'] eqn:E.
  intros H. injection H as <- <-. cbn. repeat split.
  unfold resolveName in E.
  destruct (type_is node "FunctionDeclaration").
  - destruct (truthy (get "id" node)); injection E as _ <-; lia.
  - unfold useResolved in E. destruct (walkParents true anc); injection E as _ <-; lia.
Qed.

Lemma registerFunction_ok base node f c st :
  Func.file f = File.path (fileInfo st) ->
  Func.module f = File.name (fileInfo st) ->
  fileFunctionsOk base st ->
  fileFunctionsOk base (registerFunction node f c st).
Proof.
  intros Hfile Hmod [Hbase [Hall Hnd]]. unfold registerFunction.
  set (f' := if truthy (get "body" node) then extractCalls (get "body" node) f else f).
  assert (Hf' : Func.file f' = Func.file f /\ Func.module f' = Func.module f).
  { unfold f'. destruct (truthy (get "body" node)); [|auto].
    destruct (extractCalls_fields (get "body" node) f) as [_ [H1 [H2 _]]]. auto. }
  destruct Hf' as [Hf1 Hf2].
  match goal with |- context [if existsb ?p ?l then _ else _] =>
    destruct (existsb p l) eqn:E end;
    [exact (conj Hbase (conj Hall Hnd))|].
  set (h := heap (an st)) in *.
  assert (Hold : forall r, In r (File.functions (fileInfo st)) ->
                           deref (h ++ [f']) r = deref h r).
  { intros r Hr. apply deref_app. now apply Hall. }
  split; [|split]; cbn [fileInfo an heap File.functions File.pushFunction
                        File.path File.name].
  - rewrite length_app. simpl. lia.
  - intros r Hr. apply in_app_or in Hr. destruct Hr as [Hr|[<-|[]]].
    + rewrite (Hold _ Hr), length_app. destruct (Hall _ Hr) as [H1 H2].
      split; [simpl; lia|exact H2].
    + rewrite deref_new, length_app. simpl. split; [lia|]. split; congruence.
  - rewrite map_app. apply NoDup_app.
    + rewrite (map_ext_in _ (identity h)); [assumption|].
      intros r Hr. unfold identity. now rewrite (Hold _ Hr).
    + repeat constructor. intros [].
    + intros x Hx [<-|[]]. apply in_map_iff in Hx. destruct Hx as [r [Hx Hr]].
      assert (Hno : (String.eqb (Func.name (deref h r)) (Func.name f')
                     && Z.eqb (Func.line (deref h r)) (Func.line f'))%bool = false).
      { destruct (String.eqb (Func.name (deref h r)) (Func.name f')
                  && Z.eqb (Func.line (deref h r)) (Func.line f'))%bool eqn:B;
          [|reflexivity].
        rewrite <- E. symmetry. apply existsb_exists. exists r. auto. }
      unfold identity in Hx. rewrite (Hold _ Hr), deref_new in Hx.
      injection Hx as Hn Hl. rewrite Hn, Hl, String.eqb_refl, Z.eqb_refl in Hno.
      discriminate.
Qed.

Lemma visit_ok base node anc st :
  fileFunctionsOk base st -> fileFunctionsOk base (visit node anc st).
Proof.
  intros H. unfold visit.
  match goal with |- context [recordImport node ?s] => set (st1 := s) end.
  assert (H1 : fileFunctionsOk base st1).
  { unfold st1. destruct (newFuncInfo node anc st) as [[f c]|] eqn:E; [|assumption].
    destruct (newFuncInfo_fields _ _ _ E) as [Hf [Hm _]].
    now apply registerFunction_ok. }
  destruct (recordSteps_frame node st1) as [F [P [N [Hh _]]]].
  cbv zeta in *. unfold fileFunctionsOk. rewrite F, P, N, Hh. exact H1.
Qed.

Lemma traverse_ok base node anc st :
  fileFunctionsOk base st -> fileFunctionsOk base (traverse node anc st).
Proof.
  apply (traverse_inv (fileFunctionsOk base)). intros n up s. apply visit_ok.
Qed.

(** X6.  The functions [analyzeAST] records for a file have pairwise
    different identities, name and line; their [funcInfo] objects are new
    ones, created after every object of the files analysed before, and
    each carries the path and the module name of the file. *)
Theorem file_functions_identity (a : analyzer) (filePath moduleName : string)
    (ast : jsval) :
  let fi := fst (analyzeAST ast (newFileInfo filePath moduleName) a) in
  let a' := snd (analyzeAST ast (newFileInfo filePath moduleName) a) in
  NoDup (map (identity (heap a')) (File.functions fi)) /\
  forall r, In r (File.functions fi) ->
    List.length (heap a) <= r < List.length (heap a') /\
    Func.file (deref (heap a') r) = filePath /\
    Func.module (deref (heap a') r) = moduleName.
Proof.
  cbv zeta. unfold analyzeAST. cbn [fst snd].
  destruct (traverse_ok (base := List.length (heap a)) ast []
              (st := mkT (newFileInfo filePath moduleName) a 0))
    as [_ [Hall Hnd]].
  { split; [cbn; lia|]. split; [intros r []|constructor]. }
  split; [exact Hnd|].
  intros r Hr. specialize (Hall r Hr).
  now rewrite traverse_path, traverse_name in Hall.
Qed.

(** ** The call graph aggregator *)

(** What the counting loops keep when [addCaller] keeps it. *)
Lemma counting_pres (a : analyzer) (P : fstate -> Prop) :
  (forall func2 key s s', P s -> addCaller func2 key s = Some s' -> P s') ->
  (forall ms s s', P s -> foldM countModule ms s = Some s' -> P s') /\
  (forall funcs cs s s',
     P s -> foldM (fun call s => foldM (countExternal call) funcs s) cs s = Some s' ->
     P s').
Proof.
  intros step. split.
  - intros ms s s' H E. revert E. apply foldM_pres; [|assumption].
    intros m t t' _ Ht. unfold countModule.
    apply foldM_pres; [|assumption]. intros f1 u u' _ Hu.
    apply foldM_pres; [|assumption]. intros f2 v v' _ Hv.
    unfold countIntra.
    destruct (negb (Nat.eqb f1 f2)); [|intros E; injection E as <-; assumption].
    destruct (Nat.ltb 0 (callCount (deref (fst v) f1) (deref (fst v) f2)));
      [|intros E; injection E as <-; assumption].
    now apply step.
  - intros funcs cs s s' H E. revert E. apply foldM_pres; [|assumption].
    intros call t t' _ Ht. apply foldM_pres; [|assumption].
    intros func u u' _ Hu. unfold countExternal.
    match goal with |- context [if ?b then _ else _] => destruct b end;
      [|intros E; injection E as <-; assumption].
    now apply step.
Qed.

(** What [calculateFanInFanOut] returns, in terms of the state the counting
    ends in. *)
Lemma calculateFanInFanOut_final a a' :
  calculateFanInFanOut a = Some a' ->
  exists s1 s,
    foldM countModule (modules a)
      (resetFanIn (map snd (functions a)) (heap a),
       fold_left (fun m func => objSet func [] m) (map snd (functions a)) [])
    = Some s1 /\
    foldM (fun call s => foldM (countExternal call) (map snd (functions a)) s)
      (calls a) s1 = Some s /\
    a' = mkAnalyzer
           (map (fun m => (fst m,
                           File.setFan (snd m)
                             (moduleFanIn
                                (mkAnalyzer (modules a) (functions a) (calls a) (fst s))
                                (fst m) (snd m))
                             (moduleFanOut (fst s) (snd m))))
                (modules a))
           (functions a) (calls a) (fst s).
Proof.
  unfold calculateFanInFanOut, resetFanIn.
  destruct (foldM countModule _ _) as [s1|] eqn:E1; [|discriminate].
  destruct (foldM _ (calls a) s1) as [s|] eqn:E2; [|discriminate].
  intros E. injection E as <-. exists s1, s. auto.
Qed.

Lemma countingInv_final a a' :
  calculateFanInFanOut a = Some a' ->
  exists s, countingInv a s /\ heap a' = fst s /\
            functions a' = functions a /\ calls a' = calls a.
Proof.
  intros E. destruct (calculateFanInFanOut_final _ E) as [s1 [s [E1 [E2 ->]]]].
  exists s. split; [|cbn; auto].
  pose proof (countingInv_start a) as H0.
  unfold resetFanIn in E1.
  assert (H1 : countingInv a s1).
  { revert E1. apply foldM_pres; [|exact H0].
    intros m t t' Hm Ht. now apply countModule_pres. }
  revert E2. apply foldM_pres; [|exact H1].
  intros call t t' Hc Ht. apply foldM_pres; [|assumption].
  intros func u u' Hf Hu. now apply countExternal_pres.
Qed.

Lemma static_restore f g :
  static f = static g -> Func.setFanIn f (Func.fanIn g) = g.
Proof.
  destruct f, g. unfold static, Func.setFanIn. cbn. intros H.
  injection H. intros; subst. reflexivity.
Qed.

(** X7.  [calculateFanInFanOut] writes fan-in and nothing else: the
    function table and the call list are returned as they were, every
    [funcInfo] keeps its name, parameters, call list, fan-out and line, the
    heap keeps its size, and every module keeps everything but its two
    fan counts. *)
Theorem aggregation_writes_fanIn_only (a a' : analyzer) :
  calculateFanInFanOut a = Some a' ->
  functions a' = functions a /\ calls a' = calls a /\
  List.length (heap a') = List.length (heap a) /\
  (forall r, Func.setFanIn (deref (heap a') r) (Func.fanIn (deref (heap a) r))
             = deref (heap a) r) /\
  map fst (modules a') = map fst (modules a) /\
  map (fun m => File.setFan (snd m) 0 0) (modules a')
  = map (fun m => File.setFan (snd m) 0 0) (modules a).
Proof.
  intros E.
  destruct (countingInv_final _ E) as [s [[HS _] [Hh [Hf Hc]]]].
  split; [exact Hf|]. split; [exact Hc|].
  split; [rewrite Hh, <- (length_map static), HS; apply length_map|].
  split; [intros r; apply static_restore; rewrite Hh; now apply deref_static|].
  destruct (calculateFanInFanOut_final _ E) as [_ [s' [_ [_ ->]]]].
  cbn [modules]. rewrite !map_map. split; reflexivity.
Qed.

Lemma aggregation_writes_fanIn_only_witness :
  exists a',
    calculateFanInFanOut (analyzed "server/server.js" "server" roomIdProgram)
    = Some a' /\
    functionNames a' = ["generateRoomId"; "helper"].
Proof.
  destruct (calculateFanInFanOut (analyzed "server/server.js" "server" roomIdProgram))
    as [a'|] eqn:E; [|vm_compute in E; discriminate].
  exists a'. split; [reflexivity|].
  destruct (aggregation_writes_fanIn_only
              (analyzed "server/server.js" "server" roomIdProgram) E)
    as [Hf [_ [_ [Hr _]]]].
  unfold functionNames. rewrite Hf.
  rewrite (map_ext _ (fun kv => Func.name
             (deref (heap (analyzed "server/server.js" "server" roomIdProgram))
                (snd kv)))).
  - vm_compute. reflexivity.
  - intros kv. rewrite <- (Hr (snd kv)). reflexivity.
Defined.

Lemma static_static f : static (static f) = static f.
Proof. reflexivity. Qed.

Lemma length_update h : forall r f, List.length (update h r f) = List.length h.
Proof.
  induction h as [|x t IH]; intros [|r] f; simpl; try reflexivity.
  now rewrite IH.
Qed.

Lemma deref_update_static h : forall x,
  deref (update h x (Func.setFanIn (deref h x) 0)) x = static (deref h x).
Proof.
  induction h as [|y t IH]; intros [|x]; simpl; try reflexivity.
  apply IH.
Qed.

Lemma resetFanIn_length l : forall h,
  List.length (resetFanIn l h) = List.length h.
Proof.
  unfold resetFanIn. induction l as [|x t IH]; intros h; simpl; [reflexivity|].
  now rewrite IH, length_update.
Qed.

Lemma resetFanIn_deref l : forall h r,
  deref (resetFanIn l h) r
  = if existsb (Nat.eqb r) l then static (deref h r) else deref h r.
Proof.
  unfold resetFanIn. induction l as [|x t IH]; intros h r; simpl; [reflexivity|].
  rewrite IH. destruct (Nat.eqb_spec r x) as [->|Hne]; simpl.
  - rewrite deref_update_static.
    destruct (existsb (Nat.eqb x) t); reflexivity.
  - now rewrite deref_update_other.
Qed.

Lemma deref_ext h1 h2 :
  List.length h1 = List.length h2 ->
  (forall r, deref h1 r = deref h2 r) -> h1 = h2.
Proof.
  intros L H. apply (nth_ext h1 h2 dummyFunc dummyFunc L).
  intros n _. apply H.
Qed.

Lemma existsb_eqb_In r l : existsb (Nat.eqb r) l = true <-> In r l.
Proof.
  rewrite existsb_exists. split.
  - intros [x [Hx E]]. apply Nat.eqb_eq in E. now subst.
  - intros H. exists r. split; [assumption|apply Nat.eqb_refl].
Qed.

Lemma outsideInv_start a :
  outsideInv a
    (resetFanIn (map snd (functions a)) (heap a),
     fold_left (fun m func => objSet func [] m) (map snd (functions a)) []).
Proof.
  split; cbn [fst snd].
  - intros r cs H. apply fanInMap_get in H.
    destruct H as [[H _]|H]; [assumption|discriminate].
  - intros r Hr. rewrite resetFanIn_deref.
    destruct (existsb (Nat.eqb r) (map snd (functions a))) eqn:E; [|reflexivity].
    apply existsb_eqb_In in E. contradiction.
Qed.

Lemma addCaller_outside a func2 key s s' :
  outsideInv a s -> addCaller func2 key s = Some s' -> outsideInv a s'.
Proof.
  intros [HD HO]. unfold addCaller.
  destruct (objGet func2 (snd s)) as [cs|] eqn:E; [|discriminate].
  destruct (mem key cs); intros H; injection H as <-; [now split|].
  split; cbn [fst snd].
  - intros r cs' Hget. rewrite objGet_objSet in Hget.
    destruct (Nat.eqb_spec r func2) as [->|Hne]; [eapply HD; eauto|eapply HD; eauto].
  - intros r Hr. rewrite deref_update_other; [now apply HO|].
    intros ->. apply Hr. eapply HD; eauto.
Qed.

Lemma foldM_map (A B S : Type) (g : A -> B) (f : B -> S -> option S) (l : list A) :
  forall s, foldM f (map g l) s = foldM (fun x => f (g x)) l s.
Proof.
  induction l as [|x r IH]; intros s; simpl; [reflexivity|].
  destruct (f (g x) s); [apply IH|reflexivity].
Qed.

Lemma foldM_ext (A S : Type) (f g : A -> S -> option S) (l : list A) :
  (forall x s, f x s = g x s) -> forall s, foldM f l s = foldM g l s.
Proof.
  intros H. induction l as [|x r IH]; intros s; simpl; [reflexivity|].
  rewrite H. destruct (g x s); [apply IH|reflexivity].
Qed.

(** X8.  [calculateFanInFanOut] starts from scratch: fan-in values left by
    an earlier run do not enter the new ones, and running it on its own
    result returns that result unchanged. *)
Theorem aggregation_idempotent (a a' : analyzer) :
  calculateFanInFanOut a = Some a' -> calculateFanInFanOut a' = Some a'.
Proof.
  intros E.
  destruct (calculateFanInFanOut_final _ E) as [s1 [s [E1 [E2 Ha']]]].
  set (funcs := map snd (functions a)) in *.
  assert (HS : map static (fst s) = map static (heap a)).
  { destruct (countingInv_final _ E) as [t [[HS _] [Hh _]]].
    rewrite Ha' in Hh. cbn in Hh. now rewrite Hh. }
  assert (HO : outsideInv a s).
  { destruct (counting_pres a (outsideInv a)) as [P1 P2].
    - intros f2 k t t'. apply addCaller_outside.
    - eapply P2; [|exact E2]. eapply P1; [|exact E1]. apply outsideInv_start. }
  assert (Hreset : resetFanIn funcs (fst s) = resetFanIn funcs (heap a)).
  { apply deref_ext.
    - rewrite !resetFanIn_length, <- (length_map static), HS. apply length_map.
    - intros r. rewrite !resetFanIn_deref.
      destruct (existsb (Nat.eqb r) funcs) eqn:B.
      + now apply deref_static.
      + apply HO. intros Hr.
        pose proof (proj2 (existsb_eqb_In r funcs) Hr) as Hr'.
        rewrite B in Hr'. discriminate. }
  rewrite Ha' at 1. unfold calculateFanInFanOut.
  cbn [modules functions calls heap].
  fold funcs. fold (resetFanIn funcs (fst s)). rewrite Hreset.
  rewrite foldM_map.
  rewrite (foldM_ext _ countModule) by reflexivity.
  rewrite E1, E2. rewrite Ha'. f_equal. f_equal.
  rewrite map_map. apply map_ext. intros m. reflexivity.
Qed.

Lemma aggregation_idempotent_witness :
  exists a',
    calculateFanInFanOut (analyzed "server/server.js" "server" roomIdProgram)
    = Some a' /\
    calculateFanInFanOut a' = Some a'.
Proof.
  destruct (calculateFanInFanOut (analyzed "server/server.js" "server" roomIdProgram))
    as [a'|] eqn:E; [|vm_compute in E; discriminate].
  exists a'. split; [reflexivity|].
  exact (aggregation_idempotent
           (analyzed "server/server.js" "server" roomIdProgram) E).
Defined.

(** ** The coupling and cohesion metrics *)

Lemma pushPair_ok n1 n2 k c : couplingOk c -> couplingOk (pushPair n1 n2 k c).
Proof.
  intros [Ht [Hl Hall]]. unfold pushPair.
  destruct (Nat.ltb_spec 0 k) as [Hk|Hk]; [|now repeat split].
  unfold couplingOk. cbn [Coupling.tightCoupling Coupling.looseCoupling Coupling.couplingPairs].
  rewrite !filter_app, !length_app.
  destruct (Nat.ltb 5 k) eqn:E; simpl; rewrite E; simpl;
    (split; [lia|split; [lia|]]);
    (apply Forall_app; split; [assumption|]; constructor; [|constructor]);
    simpl; rewrite E; (split; [lia|reflexivity]).
Qed.

Lemma fold_left_inv (A S : Type) (P : S -> Prop) (f : S -> A -> S) (l : list A) :
  (forall s x, P s -> P (f s x)) -> forall s, P s -> P (fold_left f l s).
Proof.
  intros H. induction l as [|x r IH]; intros s Hs; simpl; [assumption|].
  apply IH, H, Hs.
Qed.

Lemma groupPairs_ok h m groups : forall c,
  couplingOk c -> couplingOk (groupPairs h m groups c).
Proof.
  induction groups as [|g1 rest IH]; intros c Hc; simpl; [assumption|].
  apply IH. apply fold_left_inv; [|assumption].
  intros s x. apply pushPair_ok.
Qed.

Lemma calculateCoupling_ok a : couplingOk (calculateCoupling a).
Proof.
  assert (H0 : couplingOk (Coupling.mk 0 0 [])).
  { repeat split. constructor. }
  unfold calculateCoupling.
  assert (Hmulti :
    couplingOk
      (fold_left
         (fun c m1 =>
            fold_left
              (fun c m2 =>
                 if String.ltb (fst m1) (fst m2) then
                   pushPair (File.name (snd m1)) (File.name (snd m2))
                     (moduleCalls a (fst m1) (fst m2) (snd m1) (snd m2)) c
                 else c)
              (modules a) c)
         (modules a) (Coupling.mk 0 0 []))).
  { apply fold_left_inv; [|assumption].
    intros s m1 Hs. apply fold_left_inv; [|assumption].
    intros s' m2 Hs'. destruct (String.ltb (fst m1) (fst m2)); [|assumption].
    now apply pushPair_ok. }
  destruct (map snd (modules a)) as [|m [|m' r]]; try assumption.
  now apply groupPairs_ok.
Qed.

(** X9.  In the result of [calculateCoupling] the two counters add up to
    the number of pairs, [tightCoupling] is the number of pairs with more
    than five calls, and every pair has at least one call and the type
    that goes with its number of calls. *)
Theorem coupling_counters (a : analyzer) :
  let c := calculateCoupling a in
  Coupling.tightCoupling c + Coupling.looseCoupling c
  = List.length (Coupling.couplingPairs c) /\
  Coupling.tightCoupling c
  = List.length (filter (fun p => Nat.ltb 5 (Coupling.calls p)) (Coupling.couplingPairs c)) /\
  Forall (fun p => 1 <= Coupling.calls p /\
                   Coupling.type p
                   = if Nat.ltb 5 (Coupling.calls p) then "tight" else "loose")
         (Coupling.couplingPairs c).
Proof.
  intros c. destruct (calculateCoupling_ok a) as [Ht [Hl Hall]]. fold c in Ht, Hl, Hall.
  repeat split; try assumption.
  rewrite Ht, Hl. clear.
  induction (Coupling.couplingPairs c) as [|p r IH]; simpl; [reflexivity|].
  destruct (Nat.ltb 5 (Coupling.calls p)); simpl; lia.
Qed.

Lemma pushPair_names n1 n2 k c :
  pairNames (pushPair n1 n2 k c) = pairNames c
  \/ pairNames (pushPair n1 n2 k c) = (pairNames c ++ [(n1, n2)])%list.
Proof.
  unfold pushPair, pairNames. destruct (Nat.ltb 0 k); [right|now left].
  cbn [Coupling.couplingPairs]. now rewrite map_app.
Qed.

(** X10.  For a project of one file the pairs are pairs of the three
    function groups, each at most once and in the order
    room-management/socket-handlers, room-management/canvas-management,
    socket-handlers/canvas-management. *)
Theorem single_module_coupling_pairs (a : analyzer) (p : string) (m : File.t) :
  modules a = [(p, m)] ->
  sub (pairNames (calculateCoupling a)) groupOrder.
Proof.
  intros Hm. unfold calculateCoupling. rewrite Hm. cbn [map snd].
  unfold functionalGroups, groupPairs. cbn [fold_left fst snd].
  set (c0 := Coupling.mk 0 0 []).
  assert (H0 : pairNames c0 = []) by reflexivity.
  match goal with
  | |- sub (pairNames (pushPair ?a3 ?b3 ?k3 (pushPair ?a2 ?b2 ?k2 (pushPair ?a1 ?b1 ?k1 _)))) _ =>
      destruct (pushPair_names a1 b1 k1 c0) as [E1|E1];
      destruct (pushPair_names a2 b2 k2 (pushPair a1 b1 k1 c0)) as [E2|E2];
      destruct (pushPair_names a3 b3 k3 (pushPair a2 b2 k2 (pushPair a1 b1 k1 c0))) as [E3|E3];
      rewrite E3, E2, E1, H0
  end; cbn [app]; unfold groupOrder;
    repeat first [apply SubNil | apply SubKeep | apply SubSkip].
Qed.

Lemma single_module_coupling_pairs_witness :
  sub (pairNames (calculateCoupling (analyzed "server/server.js" "server" roomIdProgram)))
      groupOrder.
Proof.
  eapply single_module_coupling_pairs. vm_compute. reflexivity.
Defined.

(** *** Cohesion *)

Lemma existsb_swap (A B : Type) (f : A -> B -> bool) (l1 : list A) (l2 : list B) :
  existsb (fun x => existsb (fun y => f x y) l2) l1
  = existsb (fun y => existsb (fun x => f x y) l1) l2.
Proof.
  apply eq_true_iff_eq. rewrite !existsb_exists. split.
  - intros [x [Hx H]]. apply existsb_exists in H. destruct H as [y [Hy H]].
    exists y. split; [assumption|]. apply existsb_exists. now exists x.
  - intros [y [Hy H]]. apply existsb_exists in H. destruct H as [x [Hx H]].
    exists x. split; [assumption|]. apply existsb_exists. now exists y.
Qed.

Lemma existsb_ext (A : Type) (f g : A -> bool) (l : list A) :
  (forall x, f x = g x) -> existsb f l = existsb g l.
Proof.
  intros H. induction l as [|x r IH]; simpl; [reflexivity|]. now rewrite H, IH.
Qed.

Lemma mem_existsb x l : mem x l = existsb (String.eqb x) l.
Proof.
  apply eq_true_iff_eq. rewrite existsb_exists. split.
  - intros H. apply mem_In in H. exists x. split; [assumption|apply String.eqb_refl].
  - intros [y [Hy E]]. apply String.eqb_eq in E. subst. now apply mem_In.
Qed.

Lemma existsb_mem_swap l1 l2 :
  existsb (fun p => mem p l2) l1 = existsb (fun p => mem p l1) l2.
Proof.
  rewrite (existsb_ext (fun p => mem p l2) (fun p => existsb (fun q => String.eqb p q) l2)).
  2:{ intros p. apply mem_existsb. }
  rewrite existsb_swap. apply existsb_ext. intros q.
  rewrite mem_existsb. apply existsb_ext. intros p. apply String.eqb_sym.
Qed.

(** X11.  The test that makes a pair of functions count towards
    [sharedReferences] does not depend on which of the two comes first. *)
Theorem cohesive_symmetric (f1 f2 : Func.t) : cohesive f1 f2 = cohesive f2 f1.
Proof.
  unfold cohesive. f_equal; [f_equal; [f_equal|]|].
  - unfold callsEachOther. apply orb_comm.
  - unfold sharedParams. f_equal; [apply existsb_mem_swap|].
    rewrite existsb_swap. apply existsb_ext. intros q. apply existsb_ext. intros p.
    unfold isString. now rewrite String.eqb_sym.
  - unfold sharedDeps. apply existsb_mem_swap.
  - unfold similarData. f_equal; [f_equal|]; apply andb_comm.
Qed.

Lemma countInner h func1 rest : forall acc,
  let acc' :=
    fold_left
      (fun acc func2 =>
         (if cohesive (deref h func1) (deref h func2)
          then S (fst acc) else fst acc,
          S (snd acc)))
      rest acc in
  snd acc' = snd acc + List.length rest /\
  fst acc <= fst acc' /\ fst acc' - fst acc <= List.length rest.
Proof.
  induction rest as [|x r IH]; intros acc; simpl; [lia|].
  specialize (IH (if cohesive (deref h func1) (deref h x)
                  then S (fst acc) else fst acc, S (snd acc))).
  simpl in IH. destruct IH as [H1 [H2 H3]].
  destruct (cohesive (deref h func1) (deref h x)); simpl in *; lia.
Qed.

Lemma countPairs_counts h l : forall acc,
  2 * snd (countPairs h l acc) = 2 * snd acc + List.length l * (List.length l - 1) /\
  fst acc <= fst (countPairs h l acc) /\
  fst (countPairs h l acc) + snd acc <= fst acc + snd (countPairs h l acc).
Proof.
  induction l as [|x r IH]; intros acc; [simpl; lia|].
  cbn [countPairs].
  destruct (countInner h x r acc) as [H1 [H2 H3]].
  specialize (IH (fold_left
      (fun acc func2 =>
         (if cohesive (deref h x) (deref h func2)
          then S (fst acc) else fst acc,
          S (snd acc))) r acc)).
  destruct IH as [I1 [I2 I3]].
  cbn [List.length]. rewrite I1, H1. split; [nia|lia].
Qed.

(** X12.  The double loop of [calculateCohesion] over [n] functions visits
    [n (n - 1) / 2] pairs and counts at most that many as shared. *)
Theorem cohesion_pair_counts (h : list Func.t) (funcs : list nat) :
  let r := countPairs h funcs (0, 0) in
  2 * snd r = List.length funcs * (List.length funcs - 1) /\ fst r <= snd r.
Proof.
  intros r. destruct (countPairs_counts h funcs (0, 0)) as [H1 [H2 H3]].
  fold r in H1, H2, H3. cbn in *. lia.
Qed.

Lemma moduleCohesion_bounds h m :
  (0 <= Cohesion.cohesion (fst (moduleCohesion h m)) <= 1)%Q.
Proof.
  unfold moduleCohesion.
  destruct (File.functions m) as [|x [|y r]]; cbn [fst Cohesion.cohesion];
    [split; discriminate..|].
  destruct (countPairs_counts h (x :: y :: r) (0, 0)) as [_ [_ H]].
  destruct (countPairs h (x :: y :: r) (0, 0)) as [s t].
  cbn [fst snd Cohesion.cohesion] in *.
  destruct (Nat.ltb_spec 0 t) as [Ht|Ht]; [|split; discriminate].
  unfold Qle. cbn [Qnum Qden]. split; [lia|].
  rewrite Z.mul_1_r, Z.mul_1_l.
  replace (Z.pos (Pos.of_nat t)) with (Z.of_nat t); [lia|].
  destruct t; [lia|]. now rewrite <- Pos.of_nat_succ, Zpos_P_of_succ_nat, Nat2Z.inj_succ.
Qed.

(** X13.  Every cohesion value [calculateCohesion] reports lies between 0
    and 1, there is one value per module in the order of the module table,
    and the value is stored in the module unless the module has no
    function, which is left as it was. *)
Theorem cohesion_values (a : analyzer) :
  let r := calculateCohesion a in
  map Cohesion.module (fst r) = map (fun m => File.name (snd m)) (modules a) /\
  Forall (fun e => (0 <= Cohesion.cohesion e <= 1)%Q) (fst r) /\
  map fst (modules (snd r)) = map fst (modules a) /\
  Forall2 (fun e m' => File.functions (snd m') <> [] ->
                       File.cohesion (snd m') = Cohesion.cohesion e)
          (fst r) (modules (snd r)) /\
  Forall2 (fun m m' => File.functions (snd m) = [] -> m' = m)
          (modules a) (modules (snd r)).
Proof.
  unfold calculateCohesion. cbn [fst snd modules].
  induction (modules a) as [|[p m] r IH]; cbn [map fst snd].
  - repeat split; constructor.
  - destruct IH as [I1 [I2 [I3 [I4 I5]]]].
    split; [|split; [|split; [|split]]].
    + f_equal; [|assumption]. unfold moduleCohesion.
      destruct (File.functions m) as [|x [|y l]]; [reflexivity..|].
      now destruct (countPairs _ _ _).
    + constructor; [apply moduleCohesion_bounds|assumption].
    + now f_equal.
    + constructor; [|assumption]. cbn [snd]. unfold moduleCohesion.
      destruct (File.functions m) as [|x [|y l]] eqn:E;
        [cbn [snd]; congruence|reflexivity|].
      intros _. now destruct (countPairs _ _ _).
    + constructor; [|assumption]. cbn [snd]. intros E.
      unfold moduleCohesion. now rewrite E.
Qed.

(** ** The file loop and the function table *)

Lemma hasChar_mid c x y : hasChar c (x ++ String c y) = true.
Proof.
  induction x as [|a x IH]; simpl.
  - now rewrite Ascii.eqb_refl.
  - rewrite IH. apply orb_true_r.
Qed.

(** A string is cut at its first [c] in one way only. *)
Lemma split_first c : forall p1 p2 x y,
  hasChar c p1 = false -> hasChar c p2 = false ->
  (p1 ++ String c x = p2 ++ String c y)%string -> p1 = p2 /\ x = y.
Proof.
  induction p1 as [|a p1 IH]; intros [|b p2] x y H1 H2 E; simpl in *.
  - injection E as ->. auto.
  - injection E as <- _. rewrite Ascii.eqb_refl in H2. discriminate.
  - injection E as -> _. rewrite Ascii.eqb_refl in H1. discriminate.
  - injection E as <- E. apply orb_false_elim in H1, H2.
    destruct (IH p2 x y (proj2 H1) (proj2 H2) E) as [-> ->]. auto.
Qed.

(** And at its last [c] in one way only. *)
Lemma split_last c : forall n1 n2 d1 d2,
  hasChar c d1 = false -> hasChar c d2 = false ->
  (n1 ++ String c d1 = n2 ++ String c d2)%string -> n1 = n2 /\ d1 = d2.
Proof.
  induction n1 as [|a n1 IH]; intros [|b n2] d1 d2 H1 H2 E; simpl in *.
  - injection E as ->. auto.
  - injection E as _ ->. rewrite hasChar_mid in H1. discriminate.
  - injection E as _ <-. rewrite hasChar_mid in H2. discriminate.
  - injection E as <- E. destruct (IH n2 d1 d2 H1 H2 E) as [-> ->]. auto.
Qed.

Lemma digits_no_underscore d : hasChar "_" (NilEmpty.string_of_uint d) = false.
Proof. induction d; simpl; auto. Qed.

Lemma string_of_Z_no_underscore z : hasChar "_" (string_of_Z z) = false.
Proof.
  unfold string_of_Z, NilZero.string_of_int, NilZero.string_of_uint.
  destruct (Z.to_int z) as [d|d]; destruct d; simpl;
    try reflexivity; apply digits_no_underscore.
Qed.

Lemma string_of_Z_inj z1 z2 : string_of_Z z1 = string_of_Z z2 -> z1 = z2.
Proof.
  unfold string_of_Z. intros E.
  assert (Hn : forall z, Z.to_int z <> Decimal.Pos Decimal.Nil
                         /\ Z.to_int z <> Decimal.Neg Decimal.Nil).
  { intros z. pose proof (DecimalZ.to_of (Z.to_int z)) as H.
    rewrite DecimalZ.of_to in H.
    split; intros C; rewrite C in H; discriminate. }
  apply DecimalZ.to_int_inj.
  assert (H : Some (Z.to_int z1) = Some (Z.to_int z2)).
  { rewrite <- (NilZero.isi (Z.to_int z1)), <- (NilZero.isi (Z.to_int z2));
      try apply Hn. now rewrite E. }
  now injection H.
Qed.

(** With no colon in the paths, a key of [this.functions] determines the
    path, the name and the line it was made of. *)
Lemma functionKey_inj p1 n1 l1 p2 n2 l2 :
  hasChar ":" p1 = false -> hasChar ":" p2 = false ->
  functionKey p1 n1 l1 = functionKey p2 n2 l2 ->
  p1 = p2 /\ n1 = n2 /\ l1 = l2.
Proof.
  intros H1 H2 E. unfold functionKey in E.
  change ("::" ++ ?x)%string with (String ":" (String ":" x)) in E.
  cbn [String.append] in E.
  apply split_first in E; [|assumption..]. destruct E as [-> E].
  injection E as E.
  change ("_" ++ ?x)%string with (String "_" x) in E. cbn [String.append] in E.
  apply split_last in E; try apply string_of_Z_no_underscore.
  destruct E as [-> E]. apply string_of_Z_inj in E. auto.
Qed.

Lemma mapHas_In (V : Type) k : forall (m : list (string * V)),
  mapHas k m = true -> exists v, In (k, v) m.
Proof.
  unfold mapHas. induction m as [|[k' v'] r IH]; simpl; [discriminate|].
  destruct (String.eqb_spec k k') as [->|Hk]; [eauto|].
  intros H. destruct (IH H) as [v Hv]. eauto.
Qed.

Lemma In_mapSet (V : Type) k (v : V) : forall m x,
  In x (mapSet k v m) -> x = (k, v) \/ In x m.
Proof.
  induction m as [|[k' v'] r IH]; simpl; intros x H.
  - destruct H as [<-|[]]. now left.
  - destruct (String.eqb_spec k k') as [->|Hk].
    + destruct H as [<-|H]; auto.
    + destruct H as [<-|H]; [auto|]. destruct (IH _ H); auto.
Qed.

(** The three steps of [visit] after the function step leave the function
    table and the modules alone. *)
Lemma recordSteps_table node st :
  let st' := recordFileCall node (recordExport node (recordImport node st)) in
  functions (an st') = functions (an st) /\ modules (an st') = modules (an st).
Proof.
  unfold recordFileCall, recordExport, recordImport.
  repeat match goal with
         | |- context [if ?b then _ else _] => destruct b
         | |- context [match ?o with Some _ => _ | None => _ end] => destruct o
         end; cbn; split; reflexivity.
Qed.

Section Walk.
Variable seen : list string.
Variable p : string.
Hypothesis seen_ok : forall q, In q seen -> hasChar ":" q = false.
Hypothesis p_ok : hasChar ":" p = false.
Hypothesis p_new : ~ In p seen.

Lemma registerFunction_table base node f c st :
  Func.file f = File.path (fileInfo st) ->
  Func.module f = File.name (fileInfo st) ->
  walkOk seen p base st -> walkOk seen p base (registerFunction node f c st).
Proof.
  intros Hfile Hmod [Hp [Hff [Hmap Hkeys]]].
  split; [|split; [now apply registerFunction_ok|]].
  { unfold registerFunction.
    match goal with |- context [if existsb ?q ?l then _ else _] =>
      destruct (existsb q l) end; exact Hp. }
  unfold registerFunction.
  set (f' := if truthy (get "body" node) then extractCalls (get "body" node) f else f).
  assert (Hf' : Func.file f' = p).
  { unfold f'. rewrite <- Hp, <- Hfile. destruct (truthy (get "body" node)); [|auto].
    apply (extractCalls_fields (get "body" node) f). }
  match goal with |- context [if existsb ?q ?l then _ else _] =>
    destruct (existsb q l) eqn:E end; [exact (conj Hmap Hkeys)|].
  set (h := heap (an st)) in *.
  set (key := functionKey (File.path (fileInfo st)) (Func.name f') (Func.line f')).
  assert (Hfresh : mapHas key (functions (an st)) = false).
  { destruct (mapHas key (functions (an st))) eqn:B; [|reflexivity].
    exfalso. destruct (mapHas_In _ _ B) as [r' Hr'].
    destruct (Hkeys _ _ Hr') as [_ [Hk Hwhere]]. fold h in Hk, Hwhere.
    assert (Hfile' : hasChar ":" (Func.file (deref h r')) = false).
    { destruct Hwhere as [Hs|Hc]; [now apply seen_ok|].
      destruct Hff as [_ [Hall _]]. destruct (Hall _ Hc) as [_ [Hfl _]].
      fold h in Hfl. now rewrite Hfl, Hp. }
    unfold key, keyOf in Hk. rewrite Hp in Hk.
    apply functionKey_inj in Hk; [|assumption..].
    destruct Hk as [Hk1 [Hk2 Hk3]].
    destruct Hwhere as [Hs|Hc]; [apply p_new; now rewrite Hk1|].
    assert (Ht : existsb
                   (fun r => String.eqb (Func.name (deref h r)) (Func.name f')
                             && Z.eqb (Func.line (deref h r)) (Func.line f'))%bool
                   (File.functions (fileInfo st)) = true).
    { apply existsb_exists. exists r'. split; [assumption|].
      now rewrite <- Hk2, <- Hk3, String.eqb_refl, Z.eqb_refl. }
    rewrite E in Ht. discriminate. }
  rewrite Hfresh, (mapSet_absent _ _ _ Hfresh). unfold tableOk.
  cbn [an fileInfo functions modules heap File.functions File.pushFunction].
  split.
  - rewrite map_app, Hmap, <- app_assoc. reflexivity.
  - intros k r Hin. apply in_app_or in Hin. destruct Hin as [Hin|[Hin|[]]].
    + destruct (Hkeys _ _ Hin) as [Hlt [Hk Hwhere]]. fold h in Hlt, Hk, Hwhere.
      rewrite length_app. unfold keyOf in *. rewrite (deref_app h [f'] Hlt).
      split; [simpl; lia|]. split; [assumption|].
      destruct Hwhere; [now left|right; apply in_or_app; now left].
    + injection Hin as <- <-. rewrite length_app. unfold keyOf.
      rewrite deref_new. split; [simpl; lia|]. split.
      * unfold key. now rewrite Hf', Hp.
      * right. apply in_or_app. right. now left.
Qed.

Lemma visit_table base node anc st :
  walkOk seen p base st -> walkOk seen p base (visit node anc st).
Proof.
  intros H. unfold visit.
  match goal with |- context [recordImport node ?s] => set (st1 := s) end.
  assert (H1 : walkOk seen p base st1).
  { unfold st1. destruct (newFuncInfo node anc st) as [[f c]|] eqn:E; [|assumption].
    destruct (newFuncInfo_fields _ _ _ E) as [Hf [Hm _]].
    now apply registerFunction_table. }
  destruct (recordSteps_frame node st1) as [F [P [N [Hh _]]]].
  destruct (recordSteps_table node st1) as [T M].
  cbv zeta in *. unfold walkOk, fileFunctionsOk, tableOk.
  rewrite F, P, N, Hh, T, M. exact H1.
Qed.

Lemma traverse_table base node anc st :
  walkOk seen p base st -> walkOk seen p base (traverse node anc st).
Proof.
  apply (traverse_inv (walkOk seen p base)). intros n up s. apply visit_table.
Qed.

Lemma moduleFunctions_app ms ms' :
  moduleFunctions (ms ++ ms') = (moduleFunctions ms ++ moduleFunctions ms')%list.
Proof. apply flat_map_app. Qed.

Lemma analyzeFile_table a moduleName parsed :
  mapHas p (modules a) = false ->
  tableOk seen a [] ->
  tableOk (p :: seen) (analyzeFile a p moduleName parsed) [] /\
  map fst (modules (analyzeFile a p moduleName parsed))
  = (map fst (modules a)
     ++ match parsed with Some _ => [p] | None => [] end)%list.
Proof.
  intros Hnew [Hmap Hkeys]. destruct parsed as [ast|]; cbn [analyzeFile].
  2:{ rewrite app_nil_r. split; [|reflexivity]. split; [assumption|].
      intros k r Hin. destruct (Hkeys _ _ Hin) as [H1 [H2 [H3|[]]]].
      repeat split; try assumption. left. now right. }
  unfold analyzeAST.
  set (st0 := mkT (newFileInfo p moduleName) a 0).
  assert (H0 : walkOk seen p (List.length (heap a)) st0).
  { split; [reflexivity|]. split.
    - split; [cbn; lia|]. split; [intros r []|constructor].
    - split; [exact Hmap|exact Hkeys]. }
  apply (traverse_table ast []) in H0.
  assert (Hm : modules (an (traverse ast [] st0)) = modules a).
  { apply (traverse_extends ast [] st0). }
  destruct H0 as [Hp [[_ [Hall _]] [Hmap' Hkeys']]].
  cbn [modules functions calls heap]. rewrite Hm in *.
  rewrite (mapSet_absent _ _ _ Hnew). split.
  - split; cbn [modules functions calls heap].
    + rewrite moduleFunctions_app, app_nil_r. cbn [moduleFunctions flat_map snd].
      now rewrite app_nil_r.
    + intros k r Hin. destruct (Hkeys' _ _ Hin) as [H1 [H2 H3]].
      split; [assumption|]. split; [assumption|]. left.
      destruct H3 as [H3|H3]; [now right|left].
      destruct (Hall _ H3) as [_ [Hf _]]. now rewrite Hf, Hp.
  - now rewrite map_app.
Qed.

End Walk.

Lemma tableOk_start : tableOk [] newAnalyzer [].
Proof. split; [reflexivity|intros k r []]. Qed.

(** The file loop keeps the table in step with the modules. *)
Lemma fileLoop_table files : forall seen a,
  (forall q, In q seen -> hasChar ":" q = false) ->
  (forall f, In f files -> hasChar ":" (sfPath f) = false) ->
  NoDup (map sfPath files) ->
  (forall f, In f files -> ~ In (sfPath f) seen) ->
  incl (map fst (modules a)) seen ->
  tableOk seen a [] ->
  let a' := fold_left (fun a file => analyzeFile a (sfPath file) (sfModule file)
                                       (sfParsed file)) files a in
  (exists seen', tableOk seen' a' []) /\
  map fst (modules a') = (map fst (modules a) ++ parsedPaths files)%list.
Proof.
  induction files as [|f r IH]; intros seen a Hseen Hfiles Hnd Hnew Hincl Hok.
  - cbn. rewrite app_nil_r. eauto.
  - cbn [fold_left]. cbv zeta.
    assert (Hp : ~ In (sfPath f) seen) by (apply Hnew; now left).
    assert (Hfresh : mapHas (sfPath f) (modules a) = false).
    { destruct (mapHas (sfPath f) (modules a)) eqn:B; [|reflexivity].
      exfalso. apply Hp, Hincl. destruct (mapHas_In _ _ B) as [v Hv].
      apply (in_map fst) in Hv. exact Hv. }
    destruct (@analyzeFile_table seen (sfPath f) Hseen
                (Hfiles f (or_introl eq_refl)) Hp a (sfModule f) (sfParsed f)
                Hfresh Hok) as [Hok' Hkeys'].
    inversion Hnd as [|x l Hx Hnd']; subst.
    specialize (IH (sfPath f :: seen)
                  (analyzeFile a (sfPath f) (sfModule f) (sfParsed f))).
    destruct IH as [Hex Hmods]; try assumption.
    + intros q [<-|Hq]; [apply Hfiles; now left|now apply Hseen].
    + intros g Hg. apply Hfiles. now right.
    + intros g Hg [Heq|Hin].
      * apply Hx. rewrite Heq. now apply in_map.
      * apply (Hnew g); [now right|assumption].
    + rewrite Hkeys'. intros q Hq. apply in_app_or in Hq.
      destruct Hq as [Hq|Hq]; [right; now apply Hincl|].
      destruct (sfParsed f); [destruct Hq as [<-|[]]; now left|destruct Hq].
    + split; [exact Hex|]. cbv zeta in Hmods. rewrite Hmods, Hkeys', <- app_assoc.
      f_equal. unfold parsedPaths. cbn [filter].
      destruct (sfParsed f); reflexivity.
Qed.

Lemma tableOk_registered seen a : tableOk seen a [] -> registered a = true.
Proof.
  intros [Hmap _]. rewrite app_nil_r in Hmap. unfold registered.
  apply forallb_forall. intros m Hm. apply forallb_forall. intros r Hr.
  apply existsb_eqb_In. rewrite Hmap. unfold moduleFunctions.
  apply in_flat_map. eauto.
Qed.

(** When every function of every module is in [this.functions], the
    aggregation returns. *)
Lemma calculateFanInFanOut_returns a :
  registered a = true -> exists a', calculateFanInFanOut a = Some a'.
Proof.
  intros Hreg. pose proof (countingInv_start a) as H0.
  unfold calculateFanInFanOut.
  set (funcs := map snd (functions a)) in *.
  set (h0 := fold_left _ funcs (heap a)) in *.
  set (m0 := fold_left _ funcs []) in *.
  destruct (foldM_inv (countingInv a) countModule (modules a)) with (s := (h0, m0))
    as [s1 [E1 H1]]; [|assumption|].
  { intros m s Hm Hs. now apply countModule_succ. }
  rewrite E1.
  destruct (foldM_inv (countingInv a)
              (fun call s => foldM (countExternal call) funcs s) (calls a))
    with (s := s1) as [s2 [E2 H2]]; [|assumption|].
  { intros call s Hc Hs. apply foldM_inv; [|assumption].
    intros func s' Hf Hs'. now apply countExternal_succ. }
  rewrite E2. eauto.
Qed.

(** X14.  When the paths of the files are pairwise distinct and contain no
    colon, the analysis run does not throw: every function pushed to a
    module is also in [this.functions], the function table lists the
    functions of the modules in order, and there is one module for each
    file that could be parsed, in the order of the files. *)
Theorem analysis_run_returns (files : list sourceFile) :
  NoDup (map sfPath files) ->
  (forall f, In f files -> hasChar ":" (sfPath f) = false) ->
  exists a,
    analysisRun files = Some a /\
    map snd (functions a) = moduleFunctions (modules a) /\
    map fst (modules a) = parsedPaths files.
Proof.
  intros Hnd Hfiles. unfold analysisRun, generateMetrics, analyzeAll.
  rewrite analyzeAll_acc. cbn [fst].
  destruct (@fileLoop_table files [] newAnalyzer) as [[seen Hok] Hmods];
    try assumption.
  { intros q []. }
  { intros f _ []. }
  { intros q []. }
  { apply tableOk_start. }
  cbv zeta in Hmods. cbn [modules newAnalyzer map app] in Hmods.
  set (a := fold_left _ files newAnalyzer) in *.
  destruct (calculateFanInFanOut_returns a (tableOk_registered Hok)) as [a' E].
  rewrite E. exists a'. split; [reflexivity|].
  destruct (calculateFanInFanOut_final _ E) as [s1 [s [_ [_ Ha']]]].
  destruct Hok as [Hmap _]. rewrite app_nil_r in Hmap.
  rewrite Ha'. cbn [functions modules]. split.
  - rewrite Hmap. unfold moduleFunctions. rewrite !flat_map_concat_map, map_map.
    reflexivity.
  - rewrite map_map. cbn [fst]. exact Hmods.
Qed.

Lemma analysis_run_returns_witness :
  exists a,
    analysisRun [helperFile; topLevelCallFile] = Some a /\
    map snd (functions a) = moduleFunctions (modules a) /\
    map fst (modules a) = parsedPaths [helperFile; topLevelCallFile].
Proof.
  apply analysis_run_returns.
  - vm_compute. repeat constructor; simpl; intuition discriminate.
  - intros f [<-|[<-|[]]]; vm_compute; reflexivity.
Defined.

(** ** Callee names *)

Lemma member_not_other callee :
  type_is callee "MemberExpression" = true ->
  type_is callee "Identifier" = false /\ type_is callee "CallExpression" = false.
Proof.
  intros H. split.
  - destruct (type_is callee "Identifier") eqn:E; [|reflexivity].
    pose proof (type_is_unique _ _ _ H E). discriminate.
  - destruct (type_is callee "CallExpression") eqn:E; [|reflexivity].
    pose proof (type_is_unique _ _ _ H E). discriminate.
Qed.

(** X15.  For a call whose callee is a member expression, [getCalleeName]
    gives the call node and its callee node the same name: the two
    branches of the function agree, which is why the walk over a file
    records a method call twice. *)
Theorem getCalleeName_call_and_callee (node : jsval) :
  type_is node "CallExpression" = true ->
  type_is (get "callee" node) "MemberExpression" = true ->
  getCalleeName node = getCalleeName (get "callee" node) /\
  map File.cname (fileRecord node) = map File.cname (fileRecord (get "callee" node)).
Proof.
  intros Hc Hm.
  destruct (member_not_other _ Hm) as [Hi Hcc].
  assert (E : getCalleeName node = getCalleeName (get "callee" node)).
  { unfold getCalleeName. rewrite Hc, Hi, Hm, Hcc.
    destruct (truthy (get "object" (get "callee" node)));
      destruct (truthy (get "property" (get "callee" node))); reflexivity. }
  split; [exact E|].
  unfold fileRecord, isCallOrMember. rewrite <- E, Hc, Hm, Hcc. cbn [orb].
  destruct (getCalleeName node) as [s|]; [|reflexivity].
  destruct (recordable (Some s)); reflexivity.
Qed.

Lemma getCalleeName_call_and_callee_witness :
  getCalleeName drawCall = getCalleeName (get "callee" drawCall) /\
  map File.cname (fileRecord drawCall)
  = map File.cname (fileRecord (get "callee" drawCall)).
Proof.
  apply getCalleeName_call_and_callee; vm_compute; reflexivity.
Defined.

(** ** The metrics and the report *)

Lemma sum_fold (A : Type) (g : A -> nat) (l : list A) : forall n,
  fold_left (fun sum f => sum + g f) l n = n + list_sum (map g l).
Proof.
  induction l as [|x r IH]; intros n; simpl; [lia|]. rewrite IH. lia.
Qed.

Lemma averages_of a :
  let fs := map (fun kv => deref (heap a) (snd kv)) (functions a) in
  let av := calculateProjectAverages a in
  (functions a = [] ->
   av = Metrics.mkAverages double_zero double_zero None None None) /\
  (functions a <> [] ->
   Metrics.totalFunctionCount av = Some (List.length (functions a)) /\
   Metrics.totalFanIn av = Some (list_sum (map Func.fanIn fs)) /\
   Metrics.totalFanOut av = Some (list_sum (map Func.fanOut fs)) /\
   Metrics.avgFanIn av
   = double_div (double_of_nat (list_sum (map Func.fanIn fs)))
       (double_of_nat (List.length (functions a))) /\
   Metrics.avgFanOut av
   = double_div (double_of_nat (list_sum (map Func.fanOut fs)))
       (double_of_nat (List.length (functions a)))).
Proof.
  intros fs av. unfold av, calculateProjectAverages. fold fs.
  assert (L : List.length fs = List.length (functions a)) by apply length_map.
  split.
  - intros E. unfold fs. now rewrite E.
  - intros N. destruct fs as [|f r] eqn:F.
    + destruct (functions a); [congruence|discriminate].
    + rewrite <- F in *. rewrite !sum_fold. cbn [Nat.add].
      cbn [Metrics.totalFunctionCount Metrics.totalFanIn Metrics.totalFanOut
           Metrics.avgFanIn Metrics.avgFanOut].
      rewrite L. repeat split.
Qed.

Lemma aggregation_fields a a' :
  calculateFanInFanOut a = Some a' ->
  functions a' = functions a /\
  List.length (modules a') = List.length (modules a) /\
  forall r, Func.name (deref (heap a') r) = Func.name (deref (heap a) r).
Proof.
  intros E.
  destruct (countingInv_final _ E) as [s [[HS _] [Hh [Hf _]]]].
  split; [exact Hf|]. split.
  - destruct (calculateFanInFanOut_final _ E) as [_ [s' [_ [_ ->]]]].
    cbn [modules]. apply length_map.
  - intros r. rewrite Hh.
    change (Func.name (static (deref (fst s) r)) = Func.name (static (deref (heap a) r))).
    f_equal. now apply deref_static.
Qed.

(** X16.  In the result of [generateMetrics] the parts agree: there is one
    entry per function of the table, in its order; without functions the
    averages are 0 and the totals absent; otherwise the totals are the sums
    over the entries, and each average is the double the division of its
    total by the number of entries gives. *)
Theorem metrics_consistent (a a' : analyzer) (m : Metrics.t) :
  generateMetrics a = Some (m, a') ->
  let es := Metrics.functionMetrics m in
  let av := Metrics.projectAverages m in
  calculateFanInFanOut a = Some a' /\
  Metrics.totalFunctions m = List.length es /\
  Metrics.totalModules m = List.length (modules a) /\
  map Metrics.name es = map (fun kv => Func.name (deref (heap a) (snd kv))) (functions a) /\
  (es = [] ->
   av = Metrics.mkAverages double_zero double_zero None None None) /\
  (es <> [] ->
   Metrics.totalFunctionCount av = Some (List.length es) /\
   Metrics.totalFanIn av = Some (list_sum (map Metrics.fanIn es)) /\
   Metrics.totalFanOut av = Some (list_sum (map Metrics.fanOut es)) /\
   Metrics.avgFanIn av
   = double_div (double_of_nat (list_sum (map Metrics.fanIn es)))
       (double_of_nat (List.length es)) /\
   Metrics.avgFanOut av
   = double_div (double_of_nat (list_sum (map Metrics.fanOut es)))
       (double_of_nat (List.length es))).
Proof.
  unfold generateMetrics. destruct (calculateFanInFanOut a) as [b|] eqn:E; [|discriminate].
  intros H. injection H as <- <-. cbv zeta.
  cbn [Metrics.functionMetrics Metrics.projectAverages Metrics.totalFunctions
       Metrics.totalModules].
  destruct (@aggregation_fields _ _ E) as [Hf [Hmods Hname]].
  destruct (averages_of b) as [A0 A1].
  rewrite !length_map, !map_map in *. cbn [Metrics.name Metrics.fanIn Metrics.fanOut] in *.
  split; [reflexivity|]. split; [reflexivity|]. split; [exact Hmods|].
  split; [rewrite Hf; apply map_ext; intros kv; apply Hname|].
  split.
  - intros H. apply A0. destruct (functions b); [reflexivity|discriminate].
  - intros H. apply A1. intros C. apply H. now rewrite C.
Qed.

Lemma metrics_consistent_witness :
  exists m a',
    generateMetrics (analyzed "server/server.js" "server" roomIdProgram) = Some (m, a') /\
    Metrics.totalFunctions m = List.length (Metrics.functionMetrics m).
Proof.
  destruct (generateMetrics (analyzed "server/server.js" "server" roomIdProgram))
    as [[m a']|] eqn:E; [|vm_compute in E; discriminate].
  exists m, a'. split; [reflexivity|].
  exact (proj1 (proj2 (@metrics_consistent _ _ _ E))).
Defined.

Lemma length_append_string (a b : string) :
  String.length (a ++ b) = String.length a + String.length b.
Proof. induction a as [|c a IH]; simpl; [reflexivity|]. now rewrite IH. Qed.

Lemma length_spaces n : String.length (spaces n) = n.
Proof. induction n as [|n IH]; simpl; [reflexivity|]. now rewrite IH. Qed.

Lemma length_prefix n : forall s,
  n <= String.length s -> String.length (String.substring 0 n s) = n.
Proof.
  induction n as [|n IH]; intros [|c s] H; simpl in *; try reflexivity; try lia.
  rewrite IH; [reflexivity|lia].
Qed.

Lemma length_padEnd n s : String.length (padEnd n s) = Nat.max n (String.length s).
Proof. unfold padEnd. rewrite length_append_string, length_spaces. lia. Qed.

Lemma length_padStart n s : String.length (padStart n s) = Nat.max n (String.length s).
Proof. unfold padStart. rewrite length_append_string, length_spaces. lia. Qed.

(** X17.  The name column of the function table is 28 characters wide
    whatever the name: a name of up to 28 characters is padded with
    spaces, a longer one is cut to its first 25 characters followed by
    three dots.  The module column is 10 wide only for module names of at
    most 10 characters: a longer name is written in full and widens its
    row. *)
Theorem report_row_widths (func : Metrics.entry) :
  exists nameC moduleC fanInC fanOutC,
    reportRow func = [nameC; moduleC; fanInC; fanOutC] /\
    String.length nameC = 28 /\
    (String.length (Metrics.name func) <= 28 ->
     nameC = Metrics.name func ++ spaces (28 - String.length (Metrics.name func))) /\
    (28 < String.length (Metrics.name func) ->
     nameC = String.substring 0 25 (Metrics.name func) ++ "...") /\
    String.length moduleC = Nat.max 10 (String.length (Metrics.module func)) /\
    6 <= String.length fanInC /\ 7 <= String.length fanOutC.
Proof.
  unfold reportRow, nameCell. do 4 eexists. split; [reflexivity|].
  destruct (Nat.ltb_spec 28 (String.length (Metrics.name func))) as [H|H].
  - assert (L : String.length (String.substring 0 25 (Metrics.name func) ++ "...") = 28).
    { rewrite length_append_string, length_prefix; [reflexivity|lia]. }
    split; [rewrite length_padEnd, L; reflexivity|].
    split; [lia|]. split.
    + intros _. unfold padEnd. rewrite L. cbn [Nat.sub spaces].
      generalize (String.substring 0 25 (Metrics.name func) ++ "...").
      intros s. induction s as [|c s IH]; simpl; [reflexivity|]. now rewrite IH.
    + rewrite length_padEnd, !length_padStart. lia.
  - split; [rewrite length_padEnd; lia|].
    split; [reflexivity|]. split; [lia|].
    rewrite length_padEnd, !length_padStart. lia.
Qed.

Lemma compareRows_before a b : (compareRows a b <= 0)%Z <-> rowOrder a b.
Proof.
  unfold compareRows, rowOrder.
  destruct (Nat.eqb_spec (Metrics.fanIn b) (Metrics.fanIn a)); cbn [negb]; lia.
Qed.

Lemma compareRows_after a b : ~ (compareRows a b < 0)%Z <-> rowOrder b a.
Proof.
  unfold compareRows, rowOrder.
  destruct (Nat.eqb_spec (Metrics.fanIn b) (Metrics.fanIn a)); cbn [negb]; lia.
Qed.

Lemma rowOrder_trans a b c : rowOrder a b -> rowOrder b c -> rowOrder a c.
Proof. unfold rowOrder. lia. Qed.

Lemma insertRow_perm x l : Permutation (x :: l) (insertRow x l).
Proof.
  induction l as [|y r IH]; simpl; [reflexivity|].
  destruct (Z.ltb (compareRows x y) 0); [reflexivity|].
  rewrite perm_swap. now constructor.
Qed.

Lemma insertRow_sorted x l :
  StronglySorted rowOrder l -> StronglySorted rowOrder (insertRow x l).
Proof.
  induction l as [|y r IH]; intros H; simpl.
  - repeat constructor.
  - inversion H as [|y' r' Hr Hy]; subst.
    destruct (Z.ltb_spec (compareRows x y) 0) as [C|C].
    + constructor; [assumption|].
      assert (Hxy : rowOrder x y) by (apply compareRows_before; lia).
      constructor; [assumption|].
      eapply Forall_impl; [|exact Hy]. intros z. now apply rowOrder_trans.
    + constructor; [now apply IH|].
      assert (Hyx : rowOrder y x) by (apply compareRows_after; lia).
      apply (Permutation_Forall (insertRow_perm x r)). now constructor.
Qed.

Lemma sortedFunctions_acc l : forall acc,
  StronglySorted rowOrder acc ->
  let r := fold_left (fun acc x => insertRow x acc) l acc in
  Permutation (acc ++ l) r /\ StronglySorted rowOrder r.
Proof.
  induction l as [|x l IH]; intros acc H; cbn.
  - rewrite app_nil_r. auto.
  - destruct (IH (insertRow x acc) (insertRow_sorted x H)) as [P S].
    split; [|exact S].
    apply perm_trans with (l' := (insertRow x acc ++ l)%list); [|exact P].
    apply perm_trans with (l' := ((x :: acc) ++ l)%list).
    + symmetry. apply Permutation_middle.
    + apply Permutation_app_tail, insertRow_perm.
Qed.

(** X18.  The rows of the function table hold every function once, in
    the order of descending fan-in and, for equal fan-in, descending
    fan-out. *)
Theorem report_rows_sorted (l : list Metrics.entry) :
  Permutation l (sortedFunctions l) /\ StronglySorted rowOrder (sortedFunctions l).
Proof.
  apply (sortedFunctions_acc l (acc := [])). constructor.
Qed.

Lemma analysis_of files :
  fst (analyzeAll files newAnalyzer)
  = fold_left (fun a file => analyzeFile a (sfPath file) (sfModule file) (sfParsed file))
      files newAnalyzer.
Proof. unfold analyzeAll. now rewrite analyzeAll_acc. Qed.

Lemma summaryCounts_none a a' :
  calculateFanInFanOut a = Some a' -> functions a = [] ->
  forall fm tm tf, summaryCounts (Metrics.mk fm (calculateProjectAverages a') tm tf) = None.
Proof.
  intros E H fm tm tf. destruct (@aggregation_fields _ _ E) as [Hf _].
  unfold summaryCounts. cbn [Metrics.projectAverages].
  rewrite (proj1 (averages_of a')); [reflexivity|congruence].
Qed.

(** X19.  When files were found but no function in them -- every file
    failed to parse, say -- the program does not write a report: reading
    the totals of the summary throws. *)
Theorem no_function_no_report (files : list sourceFile) :
  files <> [] ->
  functions (fst (analyzeAll files newAnalyzer)) = [] ->
  mainOutcome files = Thrown.
Proof.
  intros Hne Hf. unfold mainOutcome. destruct files as [|f r]; [congruence|].
  unfold generateMetrics.
  destruct (calculateFanInFanOut (fst (analyzeAll (f :: r) newAnalyzer))) as [a'|] eqn:E;
    [|reflexivity].
  now rewrite (@summaryCounts_none _ _ E Hf).
Qed.

Lemma no_function_no_report_witness :
  mainOutcome [mkSource "server/broken.js" "broken" None] = Thrown.
Proof.
  apply no_function_no_report; [discriminate|reflexivity].
Defined.

(** X20.  When the paths of the files are pairwise distinct and contain no
    colon and at least one function was found, the program writes the
    report, with one row per function. *)
Theorem report_written (files : list sourceFile) :
  NoDup (map sfPath files) ->
  (forall f, In f files -> hasChar ":" (sfPath f) = false) ->
  functions (fst (analyzeAll files newAnalyzer)) <> [] ->
  exists counts rows,
    mainOutcome files = Reported counts rows /\
    List.length counts = 4 /\
    List.length rows = List.length (functions (fst (analyzeAll files newAnalyzer))).
Proof.
  intros Hnd Hfiles Hne. unfold mainOutcome.
  destruct files as [|f0 r0] eqn:F; [now elim Hne|]. rewrite <- F in *. clear F.
  rewrite analysis_of in *.
  destruct (@fileLoop_table files [] newAnalyzer) as [[seen Hok] _];
    try assumption.
  { intros q []. }
  { intros f _ []. }
  { intros q []. }
  { apply tableOk_start. }
  set (a := fold_left _ files newAnalyzer) in *.
  destruct (calculateFanInFanOut_returns a (tableOk_registered Hok)) as [a' E].
  unfold generateMetrics. rewrite E.
  destruct (@aggregation_fields _ _ E) as [Hf _].
  destruct (averages_of a') as [_ A1].
  destruct A1 as [_ [T1 [T2 _]]]; [congruence|].
  unfold summaryCounts. cbn [Metrics.projectAverages Metrics.functionMetrics].
  rewrite T1, T2. do 2 eexists. split; [reflexivity|]. split; [reflexivity|].
  rewrite length_map. unfold sortedFunctions.
  match goal with |- context [fold_left _ ?l []] =>
    destruct (sortedFunctions_acc l (acc := []) (SSorted_nil _)) as [Perm _]
  end.
  cbn [app] in Perm. rewrite <- (Permutation_length Perm).
  now rewrite length_map, Hf.
Qed.

Lemma report_written_witness :
  exists counts rows,
    mainOutcome [helperFile; topLevelCallFile] = Reported counts rows /\
    List.length counts = 4 /\
    List.length rows
    = List.length (functions (fst (analyzeAll [helperFile; topLevelCallFile] newAnalyzer))).
Proof.
  apply report_written.
  - vm_compute. repeat constructor; simpl; intuition discriminate.
  - intros f [<-|[<-|[]]]; vm_compute; reflexivity.
  - vm_compute. discriminate.
Defined.

(** ** The search for source files *)

Section FindJSFilesFacts.
Variable join : string -> string -> string.
Variable extname : string -> string.
Variable extensions : list string.

Local Abbreviation walk := (traverseDir join extname extensions).
Local Abbreviation listed := (Listed join extname extensions).

Lemma traverseDir_cons cur name child rest files :
  walk cur (FsDir (Some ((name, child) :: rest))) files
  = walk cur (FsDir (Some rest))
      (visitEntry join extname extensions walk cur name child files).
Proof. reflexivity. Qed.

Lemma Listed_nil cur f : ~ listed cur (FsDir (Some [])) f.
Proof. intros H. inversion H; subst; contradiction. Qed.

Lemma Listed_cons cur name child rest f :
  listed cur (FsDir (Some ((name, child) :: rest))) f <->
  (skipped name = false /\
   ((child = FsFile /\ mem (extname name) extensions = true /\ f = join cur name)
    \/ (exists sub, child = FsDir sub /\ listed (join cur name) child f)))
  \/ listed cur (FsDir (Some rest)) f.
Proof.
  split.
  - intros H. inversion H as [c es n Hin Hs He|c es n sub g Hin Hs Hl]; subst.
    + destruct Hin as [Heq|Hin].
      * injection Heq as -> ->. left. split; [assumption|]. left. auto.
      * right. now apply ListedFile.
    + destruct Hin as [Heq|Hin].
      * injection Heq as -> ->. left. split; [assumption|]. right. eauto.
      * right. eapply ListedBelow; eauto.
  - intros [[Hs [[-> [He ->]]|[sub [-> Hl]]]]|H].
    + apply ListedFile; [now left|assumption..].
    + eapply ListedBelow; [now left|assumption..].
    + inversion H as [c es n Hin Hs He|c es n sub g Hin Hs Hl]; subst.
      * apply ListedFile; [now right|assumption..].
      * eapply ListedBelow; [right; eassumption|assumption..].
Qed.

Lemma traverseDir_listed n : forall cur files f,
  In f (walk cur n files) <-> In f files \/ listed cur n f.
Proof.
  induction n as [| | |es IH] using fsnode_nested_ind; intros cur files f;
    try (cbn; split; [now left|intros [H|H]; [assumption|inversion H]]).
  revert files. induction es as [|[name child] rest IHr]; intros files.
  - cbn. split; [now left|]. intros [H|H]; [assumption|]. now apply Listed_nil in H.
  - inversion IH as [|e r Hchild Hrest]; subst. cbn [snd] in Hchild.
    rewrite traverseDir_cons, (IHr Hrest), Listed_cons.
    unfold visitEntry. destruct (skipped name).
    { split; [intros [H|H]; auto|].
      intros [H|[[C _]|H]]; auto. discriminate. }
    destruct child as [|sub|].
    + destruct (mem (extname name) extensions).
      * rewrite in_app_iff. cbn [In]. split.
        -- intros [[H|[<-|[]]]|H]; auto. right. left. split; [reflexivity|]. left. auto.
        -- intros [H|[[_ [[_ [_ ->]]|[sub [C _]]]]|H]]; auto; discriminate.
      * split; [intros [H|H]; auto|].
        intros [H|[[_ [[_ [C _]]|[sub [C _]]]]|H]]; auto; discriminate.
    + rewrite (Hchild (join cur name) files f). split.
      * intros [[H|H]|H]; auto. right. left. split; [reflexivity|]. right. eauto.
      * intros [H|[[_ [[C _]|[s [_ H]]]]|H]]; auto. discriminate.
    + split; [intros [H|H]; auto|].
      intros [H|[[_ [[C _]|[sub [C _]]]]|H]]; auto; discriminate.
Qed.

(** X21.  [findJSFiles] returns exactly the files that have one of the
    extensions and are reached from the start directory through readable
    directories, no name on the way -- the file's own included -- being
    [node_modules], [build] or a name that starts with a dot; a directory
    that cannot be read is passed over without an error, and the start
    directory itself is not subject to the name test. *)
Theorem findJSFiles_listed (dir : string) (root : fsnode) (f : string) :
  In f (findJSFiles join extname extensions dir root)
  <-> Listed join extname extensions dir root f.
Proof.
  unfold findJSFiles. rewrite traverseDir_listed. cbn [In]. tauto.
Qed.

Lemma visitEntry_acc cur name child files :
  (forall c fs, walk c child fs = (fs ++ walk c child [])%list) ->
  visitEntry join extname extensions walk cur name child files
  = (files ++ entryFiles join extname extensions cur (name, child))%list.
Proof.
  intros H. unfold visitEntry, entryFiles, findJSFiles. cbn [fst snd].
  destruct (skipped name); [now rewrite app_nil_r|].
  destruct child as [|sub|]; try now rewrite app_nil_r.
  - destruct (mem (extname name) extensions); [reflexivity|now rewrite app_nil_r].
  - apply H.
Qed.

Lemma traverseDir_acc n : forall cur files,
  walk cur n files = (files ++ walk cur n [])%list.
Proof.
  induction n as [| | |es IH] using fsnode_nested_ind; intros cur files;
    try (cbn; now rewrite app_nil_r).
  revert files. induction es as [|[name child] rest IHr]; intros files.
  - cbn. now rewrite app_nil_r.
  - inversion IH as [|e r Hchild Hrest]; subst. cbn [snd] in Hchild.
    rewrite !traverseDir_cons, !(@visitEntry_acc cur name child _ Hchild).
    rewrite (IHr Hrest), (IHr Hrest (_ ++ _)%list). cbn [app].
    now rewrite app_assoc.
Qed.

(** X22.  The files of a directory come in the order of its entries, the
    files below a subdirectory standing where the subdirectory stands
    (depth first); a start directory that cannot be read gives the empty
    list. *)
Theorem findJSFiles_order (dir : string) (entries : list (string * fsnode)) :
  findJSFiles join extname extensions dir (FsDir (Some entries))
  = flat_map (entryFiles join extname extensions dir) entries /\
  findJSFiles join extname extensions dir (FsDir None) = [] /\
  findJSFiles join extname extensions dir FsFile = [].
Proof.
  split; [|split; reflexivity].
  unfold findJSFiles.
  induction entries as [|[name child] rest IH]; [reflexivity|].
  rewrite traverseDir_cons, (@visitEntry_acc dir name child _ (traverseDir_acc child)).
  rewrite traverseDir_acc, IH. reflexivity.
Qed.

End FindJSFilesFacts.

(** ** Callers from other files *)

Lemma deref_update_hit h : forall r f, r < List.length h -> deref (update h r f) r = f.
Proof.
  induction h as [|x t IH]; intros [|r] f H; simpl in *; try lia; [reflexivity|].
  apply IH. lia.
Qed.

Lemma static_length h h' : map static h = map static h' -> List.length h = List.length h'.
Proof. intros H. now rewrite <- (length_map static h), H, length_map. Qed.

Lemma addCaller_exact a func2 key s s' :
  exactInv a s -> addCaller func2 key s = Some s' -> exactInv a s'.
Proof.
  intros [HS HE]. unfold addCaller.
  destruct (objGet func2 (snd s)) as [cs|] eqn:E; [|discriminate].
  destruct (mem key cs); intros H; injection H as <-; [now split|].
  split; cbn [fst snd].
  - now rewrite update_static.
  - intros r cs' Hr Hget. rewrite objGet_objSet in Hget.
    destruct (Nat.eqb_spec r func2) as [->|Hne].
    + injection Hget as <-. rewrite deref_update_hit; [reflexivity|].
      now rewrite (@static_length _ _ HS).
    + rewrite deref_update_other; [now apply HE|assumption].
Qed.

Lemma addCaller_holds r k func2 key s s' :
  holdsCaller r k s -> addCaller func2 key s = Some s' -> holdsCaller r k s'.
Proof.
  intros [cs [Hget Hin]]. unfold addCaller.
  destruct (objGet func2 (snd s)) as [cs2|] eqn:E; [|discriminate].
  destruct (mem key cs2); intros H; injection H as <-; [now exists cs|].
  unfold holdsCaller. cbn [snd]. rewrite objGet_objSet.
  destruct (Nat.eqb_spec r func2) as [->|Hne]; [|now exists cs].
  rewrite E in Hget. injection Hget as ->.
  eexists. split; [reflexivity|]. apply in_or_app. now left.
Qed.

Lemma addCaller_adds r key s s' :
  addCaller r key s = Some s' -> holdsCaller r key s'.
Proof.
  unfold addCaller. destruct (objGet r (snd s)) as [cs|] eqn:E; [|discriminate].
  destruct (mem key cs) eqn:M; intros H; injection H as <-.
  - exists cs. split; [assumption|]. now apply mem_In.
  - unfold holdsCaller. cbn [snd]. rewrite objGet_objSet, Nat.eqb_refl.
    eexists. split; [reflexivity|]. apply in_or_app. right. now left.
Qed.

(** A loop that reaches [x] in a state where [P] holds establishes what
    the step at [x] establishes, if the other steps keep it. *)
Lemma foldM_hit (A S : Type) (P Q : S -> Prop) (f : A -> S -> option S) x :
  (forall y s s', P s -> f y s = Some s' -> P s') ->
  (forall y s s', Q s -> f y s = Some s' -> Q s') ->
  (forall s s', P s -> f x s = Some s' -> Q s') ->
  forall l, In x l -> forall s s', P s -> foldM f l s = Some s' -> Q s'.
Proof.
  intros HP HQ Hx. induction l as [|y r IH]; intros Hin s s' Hs E; [destruct Hin|].
  simpl in E. destruct (f y s) as [s1|] eqn:E1; [|discriminate].
  destruct Hin as [->|Hin].
  - revert E. apply foldM_pres; [|eapply Hx; eauto].
    intros z t t' _ Ht. now apply HQ.
  - eapply IH; [assumption| |exact E]. eapply HP; eauto.
Qed.

Lemma countExternal_step (P : fstate -> Prop) :
  (forall func2 key s s', P s -> addCaller func2 key s = Some s' -> P s') ->
  forall call func s s', P s -> countExternal call func s = Some s' -> P s'.
Proof.
  intros step call func s s' H. unfold countExternal.
  match goal with |- context [if ?b then _ else _] => destruct b end;
    [|intros E; injection E as <-; assumption].
  now apply step.
Qed.

Lemma exactInv_start a :
  exactInv a
    (resetFanIn (map snd (functions a)) (heap a),
     fold_left (fun m func => objSet func [] m) (map snd (functions a)) []).
Proof.
  split; cbn [fst snd].
  - apply reset_static.
  - intros r cs _ H. apply fanInMap_get in H.
    destruct H as [[H ->]|H]; [|discriminate].
    apply reset_zero. now left.
Qed.

Lemma external_callers_held a a' key r :
  calculateFanInFanOut a = Some a' ->
  In (key, r) (functions a) ->
  exists s cs,
    heap a' = fst s /\ exactInv a s /\ objGet r (snd s) = Some cs /\
    incl (callingFiles a r) cs.
Proof.
  intros E Hin.
  destruct (calculateFanInFanOut_final _ E) as [s1 [s [E1 [E2 Ha']]]].
  set (funcs := map snd (functions a)) in *.
  assert (Hr : In r funcs) by apply (in_map snd _ _ Hin).
  destruct (counting_pres a (exactInv a) (@addCaller_exact a)) as [P1 P2].
  assert (X1 : exactInv a s1) by (eapply P1; [apply exactInv_start|exact E1]).
  assert (X2 : exactInv a s) by (eapply P2; [exact X1|exact E2]).
  destruct (countingInv_final _ E) as [t [[_ [HD _]] [Ht _]]].
  assert (Hall : forall p, In p (callingFiles a r) -> holdsCaller r p s).
  { intros p Hp. unfold callingFiles in Hp. apply nodup_In in Hp.
    apply in_map_iff in Hp. destruct Hp as [c [<- Hc]].
    apply filter_In in Hc. destruct Hc as [Hc Hcond].
    revert E2.
    apply (@foldM_hit _ _ (exactInv a) (holdsCaller r (CallRec.from c))
             (fun call s => foldM (countExternal call) funcs s) c);
      try assumption.
    - intros y u u' Hu. apply foldM_pres; [|assumption].
      intros z v v' _ Hv. apply countExternal_step; [apply addCaller_exact|assumption].
    - intros y u u' Hu. apply foldM_pres; [|assumption].
      intros z v v' _ Hv.
      apply countExternal_step; [intros f2 k; apply addCaller_holds|assumption].
    - intros u u' Hu.
      apply (@foldM_hit _ _ (exactInv a) (holdsCaller r (CallRec.from c))
               (countExternal c) r); try assumption.
      + intros y v v'. apply countExternal_step. apply addCaller_exact.
      + intros y v v'. apply countExternal_step. intros f2 k. apply addCaller_holds.
      + intros v v' [HS _]. unfold countExternal.
        destruct (@static_fields _ _ (@deref_static _ _ r HS)) as [Hn [Hf _]].
        rewrite Hn, Hf, Hcond. apply addCaller_adds. }
  assert (Hs : heap a' = fst s) by (rewrite Ha'; reflexivity).
  destruct (objGet r (snd s)) as [cs|] eqn:G.
  - exists s, cs. repeat split; try assumption; try apply X2.
    intros p Hp. destruct (Hall p Hp) as [cs' [G' Hin']]. congruence.
  - exfalso.
    destruct (counting_pres a (fun u => objGet r (snd u) <> None)) as [Q1 Q2].
    { intros f2 k u u' Hu. unfold addCaller.
      destruct (objGet f2 (snd u)) as [c2|] eqn:G2; [|discriminate].
      destruct (mem k c2); intros H; injection H as <-; [assumption|].
      cbn [snd]. rewrite objGet_objSet. destruct (Nat.eqb r f2); [discriminate|assumption]. }
    eapply Q2; [|exact E2|exact G]. eapply Q1; [|exact E1].
    cbn [snd]. apply fanInMap_dom. now left.
Qed.

(** X23.  Every other file with a recorded call to the name of a function
    counts towards its fan-in: the fan-in [calculateFanInFanOut] leaves is
    at least the number of such files. *)
Theorem fanIn_counts_calling_files (a a' : analyzer) (key : string) (r : nat) :
  calculateFanInFanOut a = Some a' ->
  In (key, r) (functions a) ->
  r < List.length (heap a) ->
  List.length (callingFiles a r) <= Func.fanIn (deref (heap a') r).
Proof.
  intros E Hin Hr.
  destruct (@external_callers_held _ _ _ _ E Hin) as [s [cs [Hh [[_ HE] [G Hincl]]]]].
  rewrite Hh, (HE r cs Hr G).
  apply NoDup_incl_length; [apply NoDup_nodup|assumption].
Qed.

Lemma fanIn_counts_calling_files_witness :
  exists a',
    calculateFanInFanOut (fst (analyzeAll [helperFile; topLevelCallFile] newAnalyzer))
    = Some a' /\
    1 <= Func.fanIn (deref (heap a') 0).
Proof.
  destruct (calculateFanInFanOut
              (fst (analyzeAll [helperFile; topLevelCallFile] newAnalyzer)))
    as [a'|] eqn:E; [|vm_compute in E; discriminate].
  exists a'. split; [reflexivity|].
  apply Nat.le_trans
    with (m := List.length
                 (callingFiles (fst (analyzeAll [helperFile; topLevelCallFile] newAnalyzer)) 0)).
  - vm_compute. lia.
  - apply (@fanIn_counts_calling_files _ a' "server/helper.js::helper_1" 0 E).
    + vm_compute. left. reflexivity.
    + vm_compute. lia.
Defined.

(** ** Names taken from the context *)

Lemma neutral_step direct fr up :
  neutral fr = true -> walkParents direct (fr :: up) = walkParents false up.
Proof.
  unfold neutral. intros H.
  apply andb_true_iff in H. destruct H as [H Hc].
  apply andb_true_iff in H. destruct H as [Hv Hp].
  apply negb_true_iff in Hv, Hp, Hc.
  cbn [walkParents]. rewrite Hv, Hp. cbn [andb].
  destruct (type_is (fparent fr) "CallExpression") eqn:Ec; cbn [andb] in *;
    [|reflexivity].
  unfold callbackName. rewrite Hc, andb_false_r.
  destruct (truthy (get "arguments" (fparent fr)) && argumentsInclude direct fr);
    reflexivity.
Qed.

Lemma neutral_steps between : forall direct rest,
  forallb neutral between = true -> between <> [] ->
  walkParents direct (between ++ rest) = walkParents false rest.
Proof.
  induction between as [|fr up IH]; intros direct rest H Hne; [congruence|].
  cbn [forallb] in H. apply andb_true_iff in H. destruct H as [Hfr Hup].
  cbn [app]. rewrite (@neutral_step _ _ _ Hfr).
  destruct up as [|fr' up']; [reflexivity|]. apply IH; [assumption|discriminate].
Qed.

Lemma walk_past direct between rest :
  forallb neutral between = true ->
  walkParents direct (between ++ rest)
  = walkParents (match between with [] => direct | _ => false end) rest.
Proof.
  intros H. destruct between as [|fr up]; [reflexivity|].
  apply neutral_steps; [assumption|discriminate].
Qed.

Lemma not_function_declaration node :
  type_is node "FunctionExpression" = true
  \/ type_is node "ArrowFunctionExpression" = true ->
  type_is node "FunctionDeclaration" = false.
Proof.
  intros H. destruct (type_is node "FunctionDeclaration") eqn:E; [|reflexivity].
  destruct H as [H|H]; pose proof (type_is_unique _ _ _ E H); discriminate.
Qed.

(** X24.  A function expression takes the name of the nearest variable
    declarator or property above it, however far up, as long as the steps
    in between are neutral and no function node lies in between: in
    [const x = wrap(function(){ })] the callback is named [x].  The counter
    is not used then.  When every step up to the root or the enclosing
    function is neutral, the function is named [anonymous_n] and the
    counter advances. *)
Theorem inherited_names (node : jsval) (between : list frame) :
  type_is node "FunctionExpression" = true
  \/ type_is node "ArrowFunctionExpression" = true ->
  forallb neutral between = true ->
  (forall parent k i anc counter s,
     type_is parent "VariableDeclarator" = true ->
     nameOf (get "id" parent) = Some s -> s <> "" ->
     resolveName node (between ++ mkFrame parent k i :: anc) counter = (s, counter)) /\
  (forall parent k i anc counter s,
     type_is parent "Property" = true ->
     nameOf (get "key" parent) = Some s -> s <> "" ->
     resolveName node (between ++ mkFrame parent k i :: anc) counter = (s, counter)) /\
  (forall counter,
     resolveName node between counter = (anonymousName counter, S counter)).
Proof.
  intros Hnode Hbetween. unfold resolveName.
  rewrite (@not_function_declaration _ Hnode).
  split; [|split].
  - intros parent k i anc counter s Ht Hn Hs.
    rewrite (@walk_past _ _ _ Hbetween). cbn [walkParents fparent].
    assert (Hc : type_is parent "CallExpression" = false).
    { destruct (type_is parent "CallExpression") eqn:E; [|reflexivity].
      pose proof (type_is_unique _ _ _ E Ht). discriminate. }
    rewrite Hc, Ht, (nameOf_truthy _ Hn). cbn [andb].
    unfold nameOrCounter. rewrite Hn, (eqb_empty_false Hs). reflexivity.
  - intros parent k i anc counter s Ht Hn Hs.
    rewrite (@walk_past _ _ _ Hbetween). cbn [walkParents fparent].
    assert (Hc : type_is parent "CallExpression" = false).
    { destruct (type_is parent "CallExpression") eqn:E; [|reflexivity].
      pose proof (type_is_unique _ _ _ E Ht). discriminate. }
    assert (Hv : type_is parent "VariableDeclarator" = false).
    { destruct (type_is parent "VariableDeclarator") eqn:E; [|reflexivity].
      pose proof (type_is_unique _ _ _ E Ht). discriminate. }
    rewrite Hc, Hv, Ht, (nameOf_truthy _ Hn). cbn [andb].
    unfold nameOrCounter. rewrite Hn, (eqb_empty_false Hs). reflexivity.
  - intros counter. rewrite <- (app_nil_r between), (@walk_past _ _ _ Hbetween).
    destruct between; reflexivity.
Qed.

Lemma inherited_names_witness :
  resolveName drawCallback
    [mkFrame wrapCall "arguments" (Some 0); mkFrame wrapDeclarator "init" None] 0
  = ("x", 0).
Proof.
  refine (proj1 (@inherited_names drawCallback
                   [mkFrame wrapCall "arguments" (Some 0)] _ _)
            wrapDeclarator "init" None [] 0 "x" _ _ _).
  - left. reflexivity.
  - reflexivity.
  - reflexivity.
  - reflexivity.
  - discriminate.
Defined.
